(** * Mini-o3: advantage estimators, policy losses and the rollout loop

    A shallow embedding of [verl/trainer/ppo/core_algos.py] and of the
    tool-call part of [verl/workers/rollout/vllm_rollout/vllm_async_engine.py].

    Conventions of the embedding:
    - torch float tensors are lists (1-d) and lists of rows (2-d) of exact
      reals [R]; rounding is not modelled.
    - Python exceptions are the [Raise] results of a small error monad.
    - Element-wise operations between tensors that the docstrings give the
      same shape [(bs, response_length)] are [zip_with]; the one place where
      the source multiplies tensors of different rank (the sequence ratio of
      GSPO) goes through an explicit broadcasting function. *)

From Stdlib Require Import String ZArith Reals Lra Lia.
From stdpp Require Import gmap list strings.

Open Scope R_scope.

(** ** Python exceptions *)

Module Py.

Inductive exn : Type :=
| ValueError
| AssertionError
| AttributeError
| TypeError
| KeyError
| RuntimeError
| NotImplementedError
| ZeroDivisionError.

Inductive result (A : Type) : Type :=
| Ok (a : A)
| Raise (e : exn).

Arguments Ok {A} a.
Arguments Raise {A} e.

#[global] Instance result_ret : MRet result := fun A a => Ok a.

#[global] Instance result_bind : MBind result :=
  fun A B f r => match r with Ok a => f a | Raise e => Raise e end.

(** [d[k]] on a dict: a missing key raises [KeyError]. *)
Definition getitem {V : Type} (d : gmap Z V) (k : Z) : result V :=
  match d !! k with
  | Some v => Ok v
  | None => Raise KeyError
  end.

(** [1.0 - x] and [1.0 + x] where [x] may be [None]: arithmetic between a
    float and [None] raises [TypeError]. *)
Definition float_sub (a : R) (x : option R) : result R :=
  match x with
  | Some b => Ok (a - b)
  | None => Raise TypeError
  end.

Definition float_add (a : R) (x : option R) : result R :=
  match x with
  | Some b => Ok (a + b)
  | None => Raise TypeError
  end.

(** Monadic map over a list, left to right, stopping at the first raise. *)
Fixpoint traverse {A B : Type} (f : A -> result B) (l : list A) : result (list B) :=
  match l with
  | [] => Ok []
  | a :: l' => b ← f a; bs ← traverse f l'; Ok (b :: bs)
  end.

End Py.

Import Py.

(** ** Tensors *)

Module Tensor.

Abbreviation vec := (list R).
Abbreviation mat := (list (list R)).

(** [v.sum()] of a 1-d tensor. *)
Definition vsum (v : vec) : R := foldr Rplus 0 v.

(** [torch.sum(m, dim=-1)]. *)
Definition row_sum (m : mat) : vec := vsum <$> m.

(** [m.sum()] of a 2-d tensor. *)
Definition msum (m : mat) : R := vsum (row_sum m).

(** Number of elements of a 2-d tensor. *)
Definition numel (m : mat) : nat := foldr Nat.add 0%nat (length <$> m).

(** [torch.mean] of a 1-d tensor. *)
Definition mean (v : vec) : R := vsum v / INR (length v).

(** [torch.mean] of a 2-d tensor: the plain element-wise mean. *)
Definition mmean (m : mat) : R := msum m / INR (numel m).

(** [torch.std] (unbiased, Bessel's correction) over all elements. *)
Definition std (v : vec) : R :=
  sqrt (vsum ((fun x => (x - mean v) * (x - mean v)) <$> v) / (INR (length v) - 1)).

(** [m.shape[-1]] of a batch with at least one row. *)
Definition width (m : mat) : nat :=
  match m with
  | [] => 0%nat
  | r :: _ => length r
  end.

(** Element access [v[i]] and [m[i, t]] (read inside the shape). *)
Definition at1 (v : vec) (i : nat) : R := default 0 (v !! i).
Definition at2 (m : mat) (i t : nat) : R := default 0 (m !! i ≫= (.!! t)).

(** Element-wise binary operations on same-shape tensors. *)
Definition vmap2 (f : R -> R -> R) (a b : vec) : vec := zip_with f a b.
Definition mmap2 (f : R -> R -> R) (a b : mat) : mat := zip_with (zip_with f) a b.
Definition mmap (f : R -> R) (a : mat) : mat := (fun r : vec => f <$> r) <$> a.

(** [m[:, t]]. *)
Definition col (m : mat) (t : nat) : vec := (fun r : vec => at1 r t) <$> m.

(** [m[:, t] = c] in place. *)
Definition set_col (m : mat) (t : nat) (c : vec) : mat :=
  zip_with (fun r x => <[t := x]> r) m c.

(** [torch.stack(cols, dim=1)] of [bs]-element columns; an empty list of
    tensors is a [RuntimeError]. *)
Definition stack_dim1 (bs : nat) (cols : list vec) : result mat :=
  match cols with
  | [] => Raise RuntimeError
  | _ => Ok ((fun i => (fun c : vec => at1 c i) <$> cols) <$> seq 0 bs)
  end.

(** [s.unsqueeze(-1).tile([1, response_length]) * mask]: row [i] of the
    mask scaled by the scalar [s[i]]. *)
Definition tile_mul (s : vec) (mask : mat) : mat :=
  zip_with (fun x (r : vec) => Rmult x <$> r) s mask.

(** [torch.clamp(x, min=lo, max=hi)]. *)
Definition clamp (x lo hi : R) : R := Rmin (Rmax x lo) hi.

(** [torch.gt(a, b).float()]. *)
Definition gt (a b : R) : R := if Rgt_dec a b then 1 else 0.

(** [v.flip(-1).cumsum(-1).flip(-1)] is built from [cumsum]. *)
Fixpoint cumsum_from (acc : R) (v : vec) : vec :=
  match v with
  | [] => []
  | x :: v' => (acc + x) :: cumsum_from (acc + x) v'
  end.

Definition cumsum (v : vec) : vec := cumsum_from 0 v.

(** Broadcasting [f a v] of a [(bs, T)] tensor against a 1-d tensor of [n]
    elements: the 1-d tensor is aligned with the LAST dimension, so the
    shapes are compatible when [T = n], or when one of them is [1]. *)
Definition bcast_last (f : R -> R -> R) (a : mat) (v : vec) : result mat :=
  let T := width a in
  let n := length v in
  if (T =? n)%nat then Ok ((fun r : vec => zip_with f r v) <$> a)
  else if (n =? 1)%nat then Ok ((fun r : vec => (fun x => f x (at1 v 0)) <$> r) <$> a)
  else if (T =? 1)%nat then Ok ((fun r : vec => (fun y => f (at1 r 0) y) <$> v) <$> a)
  else Raise RuntimeError.

(** [a * mask] for 2-d tensors with the same rows, where torch expands a
    last dimension of size [1] of the mask to the width of [a]; on rows of
    the same length it is the element-wise product. *)
Definition mul_expand (a mask : mat) : mat :=
  zip_with (fun r m : vec =>
              if (length m =? 1)%nat then (fun x => x * at1 m 0) <$> r
              else zip_with Rmult r m)
           a mask.

End Tensor.

Import Tensor.

(** ** Helpers of [verl.utils.torch_functional] *)

Module VerlF.

(** Modelled from the spec: [verl_F.masked_mean] is not among the sources.
    The spec gives it as the "mean over all masked elements, weighted by
    mask count": the sum of the masked values over the sum of the mask. *)
Definition masked_mean (values mask : mat) : R :=
  msum (mmap2 Rmult values mask) / msum mask.

End VerlF.

Import VerlF.

(** ** [verl/trainer/ppo/core_algos.py] *)

Module CoreAlgos.

(** *** KL controllers *)

Record AdaptiveKLController : Type := mkAdaptive {
  a_value : R;
  a_target : R;
  a_horizon : Z
}.

Record FixedKLController : Type := mkFixed {
  f_value : R
}.

Inductive KLController : Type :=
| Adaptive (c : AdaptiveKLController)
| Fixed (c : FixedKLController).

(** [AdaptiveKLController.update], returning the controller after the
    update.  [current_kl] and the target are Python floats, so
    [current_kl / target] raises [ZeroDivisionError] at the target [0].
    [np.clip] makes [proportional_error] a NumPy float: its division by a
    horizon [0] does not raise but gives [inf] or [nan], which the reals
    here do not have, so the value returned is that of the code for a
    horizon other than [0] only. *)
Definition adaptive_update (c : AdaptiveKLController) (current_kl : R) (n_steps : Z)
  : result AdaptiveKLController :=
  let target := a_target c in
  if Req_dec_T target 0 then Raise ZeroDivisionError
  else
    let proportional_error := clamp (current_kl / target - 1) (-0.2) 0.2 in
    let mult := 1 + proportional_error * IZR n_steps / IZR (a_horizon c) in
    Ok (mkAdaptive (a_value c * mult) (a_target c) (a_horizon c)).

(** [FixedKLController.update]: [pass]. *)
Definition fixed_update (c : FixedKLController) (current_kl : R) (n_steps : Z)
  : FixedKLController := c.

(** A [kl_ctrl] configuration node. *)
Record KLCtrlConfig : Type := mkKLCtrl {
  kl_type : string;
  kl_coef : R;
  target_kl : R;
  horizon : Z
}.

(** The configuration object read by [get_kl_controller]: the node
    [config.critic.kl_ctrl], and the top-level node [config.kl_ctrl], which
    a configuration may not have. *)
Record Config : Type := mkConfig {
  critic_kl_ctrl : KLCtrlConfig;
  kl_ctrl : option KLCtrlConfig
}.

(** [get_kl_controller].  The [assert] reads [config.kl_ctrl.horizon]; the
    controller is built from [config.critic.kl_ctrl.horizon]. *)
Definition get_kl_controller (config : Config) : result KLController :=
  if String.eqb (kl_type (critic_kl_ctrl config)) "fixed" then
    Ok (Fixed (mkFixed (kl_coef (critic_kl_ctrl config))))
  else if String.eqb (kl_type (critic_kl_ctrl config)) "adaptive" then
    match kl_ctrl config with
    | None => Raise AttributeError
    | Some top =>
        if (0 <? horizon top)%Z then
          Ok (Adaptive (mkAdaptive (kl_coef (critic_kl_ctrl config))
                                   (target_kl (critic_kl_ctrl config))
                                   (horizon (critic_kl_ctrl config))))
        else Raise AssertionError
    end
  else Raise ValueError.

(** *** GAE *)

(** One iteration of the backward loop, for time step [t]; the scalars
    [0.0] and [0] of the source broadcast over the batch. *)
Definition gae_step (token_level_rewards values : mat) (gamma lam : R)
    (gen_len t : nat) (lastgaelam : vec) : vec :=
  let bs := length token_level_rewards in
  let nextvalues :=
    if (t <? gen_len - 1)%nat then col values (t + 1) else replicate bs 0 in
  let delta :=
    vmap2 Rminus
      (vmap2 Rplus (col token_level_rewards t) (Rmult gamma <$> nextvalues))
      (col values t) in
  vmap2 Rplus delta ((fun x => gamma * lam * x) <$> lastgaelam).

(** [for t in reversed(range(gen_len))], threading [lastgaelam] and
    [advantages_reversed]. *)
Fixpoint gae_loop (token_level_rewards values : mat) (gamma lam : R)
    (gen_len : nat) (ts : list nat) (lastgaelam : vec)
    (advantages_reversed : list vec) : list vec :=
  match ts with
  | [] => advantages_reversed
  | t :: ts' =>
      let lastgaelam' := gae_step token_level_rewards values gamma lam gen_len t lastgaelam in
      gae_loop token_level_rewards values gamma lam gen_len ts' lastgaelam'
               (advantages_reversed ++ [lastgaelam'])
  end.

(** The advantages before whitening:
    [torch.stack(advantages_reversed[::-1], dim=1)]. *)
Definition gae_advantages (token_level_rewards values : mat) (gamma lam : R)
  : result mat :=
  let gen_len := width token_level_rewards in
  let bs := length token_level_rewards in
  let advantages_reversed :=
    gae_loop token_level_rewards values gamma lam gen_len
             (reverse (seq 0 gen_len)) (replicate bs 0) [] in
  stack_dim1 bs (reverse advantages_reversed).

Section Whiten.

(** [verl_F.masked_whiten] is not among the sources: the estimators that
    call it take it as a parameter. *)
Variable masked_whiten : mat -> mat -> mat.

(** [compute_gae_advantage_return]. *)
Definition compute_gae_advantage_return (token_level_rewards values eos_mask : mat)
    (gamma lam : R) : result (mat * mat) :=
  advantages ← gae_advantages token_level_rewards values gamma lam;
  let returns := mmap2 Rplus advantages values in
  let advantages := masked_whiten advantages eos_mask in
  Ok (advantages, returns).

(** *** REINFORCE++ *)

(** [for t in reversed(range(token_level_rewards.shape[1]))], threading
    [running_return] and the tensor [returns] that is written in place. *)
Fixpoint reinforce_loop (token_level_rewards eos_mask : mat) (gamma : R)
    (ts : list nat) (running_return : vec) (returns : mat) : mat :=
  match ts with
  | [] => returns
  | t :: ts' =>
      let running_return :=
        vmap2 Rplus (col token_level_rewards t) (Rmult gamma <$> running_return) in
      let returns := set_col returns t running_return in
      let running_return := vmap2 Rmult running_return (col eos_mask t) in
      reinforce_loop token_level_rewards eos_mask gamma ts' running_return returns
  end.

Definition reinforce_returns (token_level_rewards eos_mask : mat) (gamma : R) : mat :=
  let returns := mmap (fun _ => 0) token_level_rewards in
  reinforce_loop token_level_rewards eos_mask gamma
                 (reverse (seq 0 (width token_level_rewards)))
                 (replicate (length token_level_rewards) 0) returns.

(** [compute_reinforce_plus_plus_outcome_advantage]. *)
Definition compute_reinforce_plus_plus_outcome_advantage
    (token_level_rewards eos_mask : mat) (gamma : R) : mat * mat :=
  let returns := reinforce_returns token_level_rewards eos_mask gamma in
  let advantages := masked_whiten returns eos_mask in
  let advantages := mmap2 Rmult advantages eos_mask in
  (advantages, returns).

End Whiten.

(** *** Grouping by prompt index *)

(** [id2score[k].append(s)] on a [defaultdict(list)]. *)
Definition append_score (id2score : gmap Z (list R)) (k : Z) (s : R) : gmap Z (list R) :=
  <[k := default [] (id2score !! k) ++ [s]]> id2score.

(** [for i in range(bsz): id2score[index[i]].append(scores[i])], for an
    [index] with one entry per row. *)
Definition collect_scores (index : list Z) (scores : vec) : gmap Z (list R) :=
  foldl (fun d ks => append_score d ks.1 ks.2) ∅ (zip index scores).

(** *** GRPO *)

(** The statistics of one group, by its number of members. *)
Definition grpo_group_stat (l : list R) : result (R * R) :=
  if (length l =? 1)%nat then Ok (0, 1)
  else if (1 <? length l)%nat then Ok (mean l, std l)
  else Raise ValueError.

(** [for idx in id2score: ...], filling [id2mean] and [id2std]. *)
Definition grpo_stats (id2score : gmap Z (list R)) : result (gmap Z R * gmap Z R) :=
  map_fold
    (fun idx l acc =>
       ms ← acc;
       st ← grpo_group_stat l;
       Ok (<[idx := st.1]> ms.1, <[idx := st.2]> ms.2))
    (Ok (∅, ∅)) id2score.

(** The body of the last loop for one row: the new [scores[i]].  The
    quotients are those of the code where the divisors [sd + epsilon], [sd]
    and [scale / sd + epsilon] are not [0]; at a divisor [0] the code gives
    [inf] or [nan], which the reals here do not have (and which the
    multiplication by the mask does not remove). *)
Definition grpo_normalize (id2mean id2std : gmap Z R) (epsilon : R)
    (norm_adv_by_std_in_grpo : bool) (norm_by_importance : string) (scale : R)
    (k : Z) (s : R) : result R :=
  if norm_adv_by_std_in_grpo then
    m ← getitem id2mean k;
    sd ← getitem id2std k;
    Ok ((s - m) / (sd + epsilon))
  else if String.eqb norm_by_importance "v1" then
    m ← getitem id2mean k;
    sd ← getitem id2std k;
    Ok ((s - m) / ((scale / sd) + epsilon))
  else
    m ← getitem id2mean k;
    Ok (s - m).

(** The scalar score of every row after normalisation. *)
Definition grpo_scores (token_level_rewards : mat) (index : list Z) (epsilon : R)
    (norm_adv_by_std_in_grpo : bool) (norm_by_importance : string) (scale : R)
  : result vec :=
  let scores := row_sum token_level_rewards in
  let id2score := collect_scores index scores in
  ms ← grpo_stats id2score;
  traverse
    (fun ks => grpo_normalize ms.1 ms.2 epsilon norm_adv_by_std_in_grpo
                              norm_by_importance scale ks.1 ks.2)
    (zip index scores).

(** [compute_grpo_outcome_advantage]. *)
Definition compute_grpo_outcome_advantage (token_level_rewards eos_mask : mat)
    (index : list Z) (epsilon : R) (norm_adv_by_std_in_grpo : bool)
    (norm_by_importance : string) (scale : R) : result (mat * mat) :=
  scores ← grpo_scores token_level_rewards index epsilon norm_adv_by_std_in_grpo
                       norm_by_importance scale;
  let scores := tile_mul scores eos_mask in
  Ok (scores, scores).

(** *** RLOO *)

Definition rloo_group_mean (l : list R) : result R :=
  if (length l =? 1)%nat then Ok 0
  else if (1 <? length l)%nat then Ok (mean l)
  else Raise ValueError.

Definition rloo_stats (id2score : gmap Z (list R)) : result (gmap Z R) :=
  map_fold
    (fun idx l acc =>
       ms ← acc;
       m ← rloo_group_mean l;
       Ok (<[idx := m]> ms))
    (Ok ∅) id2score.

(** The body of the last loop for one row. [len(id2score[index[i]])] reads
    a [defaultdict], which gives the empty list for a missing key. *)
Definition rloo_rescale (id2score : gmap Z (list R)) (id2mean : gmap Z R)
    (k : Z) (s : R) : result R :=
  let response_num := length (default [] (id2score !! k)) in
  if (1 <? response_num)%nat then
    m ← getitem id2mean k;
    Ok (s * INR response_num / (INR response_num - 1)
        - m * INR response_num / (INR response_num - 1))
  else Ok s.

Definition rloo_scores (token_level_rewards : mat) (index : list Z) : result vec :=
  let scores := row_sum token_level_rewards in
  let id2score := collect_scores index scores in
  id2mean ← rloo_stats id2score;
  traverse (fun ks => rloo_rescale id2score id2mean ks.1 ks.2) (zip index scores).

(** [compute_rloo_outcome_advantage]. *)
Definition compute_rloo_outcome_advantage (token_level_rewards eos_mask : mat)
    (index : list Z) (epsilon : R) : result (mat * mat) :=
  scores ← rloo_scores token_level_rewards index;
  let scores := tile_mul scores eos_mask in
  Ok (scores, scores).

(** *** ReMax *)

(** [(x).flip(dims=[-1]).cumsum(dim=-1).flip(dims=[-1])] on each row. *)
Definition rev_cumsum (m : mat) : mat :=
  (fun r : vec => reverse (cumsum (reverse r))) <$> m.

(** [compute_remax_outcome_advantage]. *)
Definition compute_remax_outcome_advantage (token_level_rewards : mat)
    (reward_baselines : vec) (eos_mask : mat) : mat * mat :=
  let returns := rev_cumsum (mmap2 Rmult token_level_rewards eos_mask) in
  let advantages := mmap2 Rminus returns (tile_mul reward_baselines eos_mask) in
  (advantages, returns).

(** [compute_rewards]. *)
Definition compute_rewards (token_level_scores old_log_prob ref_log_prob : mat)
    (kl_ratio : R) : mat :=
  let kl := mmap2 Rminus old_log_prob ref_log_prob in
  mmap2 Rminus token_level_scores (mmap (fun x => x * kl_ratio) kl).

(** *** Loss aggregation *)

(** [agg_loss]. *)
Definition agg_loss (loss_mat loss_mask : mat) (loss_agg_mode : string)
    (scale eps : R) : result R :=
  if String.eqb loss_agg_mode "token-mean" then
    Ok (masked_mean loss_mat loss_mask)
  else if String.eqb loss_agg_mode "seq-mean-token-sum" then
    let seq_losses := row_sum (mmap2 Rmult loss_mat loss_mask) in
    Ok (mean seq_losses)
  else if String.eqb loss_agg_mode "seq-mean-token-mean" then
    let seq_losses :=
      vmap2 Rdiv (row_sum (mmap2 Rmult loss_mat loss_mask))
                 ((fun x => x + eps) <$> row_sum loss_mask) in
    Ok (mean seq_losses)
  else if String.eqb loss_agg_mode "seq-mean-token-sum-norm" then
    let seq_losses :=
      (fun x => x / INR (width loss_mask)) <$> row_sum (mmap2 Rmult loss_mat loss_mask) in
    Ok (mean seq_losses)
  else if String.eqb loss_agg_mode "seq-mean-token-sum-norm-scaled" then
    let seq_losses :=
      (fun x => (x / INR (width loss_mask)) * scale)
        <$> row_sum (mmap2 Rmult loss_mat loss_mask) in
    Ok (mean seq_losses)
  else Raise ValueError.

(** *** Policy losses *)

(** [if cliprange_x is None: cliprange_x = cliprange]. *)
Definition clip_default (cliprange_x cliprange : option R) : option R :=
  match cliprange_x with
  | None => cliprange
  | Some _ => cliprange_x
  end.

(** [agg_loss] as [compute_policy_loss_gspo] reaches it.  On tensors of
    width [1] with more than one row the losses have the shape [(bs, bs)]
    while the mask has the shape [(bs, 1)], and torch expands the mask
    inside [loss_mat * loss_mask]; the sums and the width of the mask itself
    are not expanded.  On tensors of the same shape this is [agg_loss]. *)
Definition agg_loss_expand (loss_mat loss_mask : mat) (loss_agg_mode : string)
    (scale eps : R) : result R :=
  if String.eqb loss_agg_mode "token-mean" then
    Ok (msum (mul_expand loss_mat loss_mask) / msum loss_mask)
  else if String.eqb loss_agg_mode "seq-mean-token-sum" then
    let seq_losses := row_sum (mul_expand loss_mat loss_mask) in
    Ok (mean seq_losses)
  else if String.eqb loss_agg_mode "seq-mean-token-mean" then
    let seq_losses :=
      vmap2 Rdiv (row_sum (mul_expand loss_mat loss_mask))
                 ((fun x => x + eps) <$> row_sum loss_mask) in
    Ok (mean seq_losses)
  else if String.eqb loss_agg_mode "seq-mean-token-sum-norm" then
    let seq_losses :=
      (fun x => x / INR (width loss_mask)) <$> row_sum (mul_expand loss_mat loss_mask) in
    Ok (mean seq_losses)
  else if String.eqb loss_agg_mode "seq-mean-token-sum-norm-scaled" then
    let seq_losses :=
      (fun x => (x / INR (width loss_mask)) * scale)
        <$> row_sum (mul_expand loss_mat loss_mask) in
    Ok (mean seq_losses)
  else Raise ValueError.

(** Modelled from the spec: [verl_F.masked_mean] (see [masked_mean]) with
    the same expansion of the mask inside the product. *)
Definition masked_mean_expand (values mask : mat) : R :=
  msum (mul_expand values mask) / msum mask.

(** [compute_policy_loss_gspo]; [agg_loss] is called with its default
    [scale=1.0] and [eps=1e-6].  The losses [pg_losses] have the width of
    the mask unless the tensors have the width [1], where they have the
    width [bs]: the aggregation and the clip fraction are therefore taken
    with the expansion of the mask. *)
Definition compute_policy_loss_gspo (old_log_prob log_prob advantages response_mask : mat)
    (loss_agg_mode : string) (cliprange cliprange_low cliprange_high : option R)
    (eps : R) : result (R * R * R) :=
  let cliprange_low := clip_default cliprange_low cliprange in
  let cliprange_high := clip_default cliprange_high cliprange in
  let seq_lengths := row_sum response_mask in
  let normalized_seq_log_prob :=
    vmap2 Rdiv (row_sum (mmap2 Rmult log_prob response_mask))
               ((fun x => x + eps) <$> seq_lengths) in
  let normalized_old_seq_log_prob :=
    vmap2 Rdiv (row_sum (mmap2 Rmult old_log_prob response_mask))
               ((fun x => x + eps) <$> seq_lengths) in
  let negative_approx_kl_seq :=
    vmap2 Rminus normalized_seq_log_prob normalized_old_seq_log_prob in
  let seq_ratio := exp <$> negative_approx_kl_seq in
  pg_losses1 ← bcast_last Rmult (mmap Ropp advantages) seq_ratio;
  lo ← float_sub 1 cliprange_low;
  hi ← float_add 1 cliprange_high;
  pg_losses2 ← bcast_last Rmult (mmap Ropp advantages)
                          ((fun x => clamp x lo hi) <$> seq_ratio);
  let pg_losses := mmap2 Rmax pg_losses1 pg_losses2 in
  pg_loss ← agg_loss_expand pg_losses response_mask loss_agg_mode 1 1e-6;
  let pg_clipfrac :=
    masked_mean_expand (mmap2 gt pg_losses2 pg_losses1) response_mask in
  let negative_approx_kl := mmap2 Rminus log_prob old_log_prob in
  let negative_approx_kl := mmap (fun x => clamp x (-20) 20) negative_approx_kl in
  let ppo_kl := masked_mean (mmap Ropp negative_approx_kl) response_mask in
  Ok (pg_loss, pg_clipfrac, ppo_kl).

(** [compute_policy_loss]; [agg_loss] is called with its default [eps]. *)
Definition compute_policy_loss (old_log_prob log_prob advantages eos_mask : mat)
    (cliprange cliprange_low cliprange_high : option R)
    (loss_agg_mode : string) (scale : R) : result (R * R * R) :=
  let negative_approx_kl := mmap2 Rminus log_prob old_log_prob in
  let ratio := mmap exp negative_approx_kl in
  let ppo_kl := masked_mean (mmap Ropp negative_approx_kl) eos_mask in
  let pg_losses := mmap2 Rmult (mmap Ropp advantages) ratio in
  let cliprange_low := clip_default cliprange_low cliprange in
  let cliprange_high := clip_default cliprange_high cliprange in
  lo ← float_sub 1 cliprange_low;
  hi ← float_add 1 cliprange_high;
  let pg_losses2 :=
    mmap2 Rmult (mmap Ropp advantages) (mmap (fun x => clamp x lo hi) ratio) in
  pg_loss ← agg_loss (mmap2 Rmax pg_losses pg_losses2) eos_mask loss_agg_mode scale 1e-6;
  let pg_clipfrac := masked_mean (mmap2 gt pg_losses2 pg_losses) eos_mask in
  Ok (pg_loss, pg_clipfrac, ppo_kl).

(** *** KL penalty *)

(** [kl_penalty]. *)
Definition kl_penalty (logprob ref_logprob : mat) (kl_penalty : string) : result mat :=
  if String.eqb kl_penalty "kl" then
    Ok (mmap2 Rminus logprob ref_logprob)
  else if String.eqb kl_penalty "abs" then
    Ok (mmap Rabs (mmap2 Rminus logprob ref_logprob))
  else if String.eqb kl_penalty "mse" then
    Ok (mmap (fun x => 0.5 * (x * x)) (mmap2 Rminus logprob ref_logprob))
  else if String.eqb kl_penalty "low_var_kl" then
    let kl := mmap2 Rminus ref_logprob logprob in
    let ratio := mmap exp kl in
    let kld := mmap (fun x => x - 1) (mmap2 Rminus ratio kl) in
    Ok (mmap (fun x => clamp x (-10) 10) kld)
  else if String.eqb kl_penalty "full" then
    Raise NotImplementedError
  else Raise NotImplementedError.

End CoreAlgos.

Import CoreAlgos.

(** ** [verl/workers/rollout/vllm_rollout/vllm_async_engine.py]

    The per-request loop of [_async_rollout_a_request] and
    [process_tool_call].  The generation engine, the tokenizer, the image
    processor and the grounding tools are collaborators outside the
    sources: they are the fields of an environment record. *)

Module Rollout.

#[local] Open Scope Z_scope.

(** [l.pop()] on a non-empty list. *)
Definition pop {A : Type} (l : list A) : list A := take (length l - 1)%nat l.

(** [image.size]. *)
Abbreviation Size := (Z * Z)%type.

(** What one call of the generation engine returns: [outputs[0].token_ids]
    and whether [outputs[0].finish_reason] is the length truncation. *)
Record EngineOutput : Type := mkEngineOutput {
  token_ids : list Z;
  finish_reason_is_length : bool
}.

(** The collaborators and the configuration of one rollout, for a type
    [Image] of PIL images. *)
Record Env (Image : Type) : Type := mkEnv {
  (* self.engine.generate(prompt=vllm_input, ..., request_id + str(current_iteration)) *)
  generate : list Z -> list Image -> Z -> EngineOutput;
  (* self.tokenizer.encode and self.tokenizer.decode *)
  encode : string -> list Z;
  decode : list Z -> string;
  (* grounding_pattern.findall and the <answer> match *)
  findall_grounding : string -> list string;
  match_answer : string -> bool;
  (* the try block of process_tool_call: the text of the raised exception,
     or the tool type and its arguments (an observation and a box) *)
  prepare_grounding_inputs :
    string -> list Image -> list Size -> string + (string * (Image * list Z));
  (* crop_image, process_image, resized_image.size, calculate_image_token_num *)
  crop_image : Image -> list Z -> list Size -> Image;
  process_image : Image -> Image;
  image_size : Image -> Size;
  calculate_image_token_num : Image -> Z;
  (* the prompt templates of verl.trainer.constants *)
  TOOL_CALL_CROP_MULTI_TRUN_PROMPT : Z -> Z -> string;
  ERROR_INFO_MULTI_TURN_PROMPT : string;
  (* self.config.rollout.max_total_response_length, and the round and image
     limits chosen before the loop *)
  max_total_response_length : Z;
  max_iterations : Z;
  max_image_num : Z
}.

Arguments generate {Image} _.
Arguments encode {Image} _.
Arguments decode {Image} _.
Arguments findall_grounding {Image} _.
Arguments match_answer {Image} _.
Arguments prepare_grounding_inputs {Image} _.
Arguments crop_image {Image} _.
Arguments process_image {Image} _.
Arguments image_size {Image} _.
Arguments calculate_image_token_num {Image} _.
Arguments TOOL_CALL_CROP_MULTI_TRUN_PROMPT {Image} _.
Arguments ERROR_INFO_MULTI_TURN_PROMPT {Image} _.
Arguments max_total_response_length {Image} _.
Arguments max_iterations {Image} _.
Arguments max_image_num {Image} _.

Section Engine.

Context {Image : Type}.
Variable env : Env Image.

(** The objects that a tool call mutates in place. *)
Record Buffers : Type := mkBuffers {
  prompt_token_ids : list Z;               (* vllm_input['prompt_token_ids'] *)
  images : list Image;                     (* vllm_input['multi_modal_data']['image'] *)
  observations_list : list Image;
  image_size_used_list : list Size;
  multi_turn_response_mask : list (list Z)
}.

(** The local variables of the loop. *)
Record LoopState : Type := mkLoopState {
  buffers : Buffers;
  context_length : Z;
  current_iteration : Z;
  exceed : bool;
  void : bool
}.

(** [tool_outputs]: a cropped image, or the error text. *)
Inductive ToolOutput : Type :=
| ToolImage (im : Image)
| ToolText (s : string).

(** The turn separators of the next-round prompt. *)
Definition nl : string := String (Ascii.ascii_of_nat 10) EmptyString.
Definition im_end_user : string := ("<|im_end|>" ++ nl ++ "<|im_start|>user" ++ nl)%string.
Definition im_end_assistant : string :=
  ("<|im_end|>" ++ nl ++ "<|im_start|>assistant" ++ nl)%string.

(** [process_tool_call]: returns [new_context_length], [tool_outputs] and
    the mutated buffers. *)
Definition process_tool_call (b : Buffers) (decoded_resp_ : string)
    (current_iteration : Z) : result (Z * ToolOutput * Buffers) :=
  match prepare_grounding_inputs env decoded_resp_ (observations_list b) (image_size_used_list b) with
  | inl error_info =>
      let tool_outputs :=
        ("ERROR occurs during grounding. Error Information: " ++ error_info ++ "." ++ nl)%string in
      let tool_call_prompt_message :=
        (im_end_user ++ tool_outputs ++ ERROR_INFO_MULTI_TURN_PROMPT env ++ im_end_assistant)%string in
      let next_turn_prompt_ids := encode env tool_call_prompt_message in
      let b' :=
        mkBuffers (prompt_token_ids b ++ next_turn_prompt_ids)
                  (images b)
                  (observations_list b)
                  (image_size_used_list b)
                  (multi_turn_response_mask b ++ [replicate (length next_turn_prompt_ids) 0]) in
      let new_context_length := Z.of_nat (length next_turn_prompt_ids) in
      Ok (new_context_length, ToolText tool_outputs, b')
  | inr (tool_type, args) =>
      if String.eqb tool_type "grounding" then
        let tool_outputs := crop_image env args.1 args.2 (image_size_used_list b) in
        let observations := observations_list b ++ [tool_outputs] in
        let tool_call_prompt_message :=
          (im_end_user
             ++ TOOL_CALL_CROP_MULTI_TRUN_PROMPT env current_iteration (current_iteration + 1)
             ++ im_end_assistant)%string in
        let next_turn_prompt_ids := encode env tool_call_prompt_message in
        let resized_image := process_image env tool_outputs in
        let b' :=
          mkBuffers (prompt_token_ids b ++ next_turn_prompt_ids)
                    (images b ++ [resized_image])
                    observations
                    (image_size_used_list b ++ [image_size env resized_image])
                    (multi_turn_response_mask b ++ [replicate (length next_turn_prompt_ids) 0]) in
        let image_token_num := calculate_image_token_num env resized_image in
        let new_context_length :=
          Z.of_nat (length next_turn_prompt_ids) + image_token_num - 1 in
        Ok (new_context_length, ToolImage tool_outputs, b')
      else Raise ValueError
  end.

(** The rollback of the overflow branch (lines 717-722). *)
Definition roll_back (old_prompt_token_ids : list Z) (tool_outputs : ToolOutput)
    (b : Buffers) : Buffers :=
  match tool_outputs with
  | ToolImage _ =>
      mkBuffers old_prompt_token_ids
                (pop (images b))
                (pop (observations_list b))
                (pop (image_size_used_list b))
                (pop (multi_turn_response_mask b))
  | ToolText _ =>
      mkBuffers old_prompt_token_ids
                (images b)
                (observations_list b)
                (image_size_used_list b)
                (pop (multi_turn_response_mask b))
  end.

(** Lines 670-677: the call of the generation engine on the current
    token buffer and images. *)
Definition generation (st : LoopState) : EngineOutput :=
  generate env (prompt_token_ids (buffers st)) (images (buffers st)) (current_iteration st).

(** Lines 681-685: [response_], the answer without the token ids above
    the vocabulary bound. *)
Definition response_of (st : LoopState) : list Z :=
  filter (fun token_id => token_id ≤ 151664) (token_ids (generation st)).

(** Lines 690-692: the answer is appended to the token buffer as an
    assistant fragment of the mask, and counted in the context length. *)
Definition after_generation (st : LoopState) : LoopState :=
  let b := buffers st in
  let response_ := response_of st in
  let b' :=
    mkBuffers (prompt_token_ids b ++ response_)
              (images b)
              (observations_list b)
              (image_size_used_list b)
              (multi_turn_response_mask b ++ [replicate (length response_) 1]) in
  mkLoopState b' (context_length st + Z.of_nat (length response_))
              (current_iteration st) (exceed st) (void st).

(** Lines 696-733: what the loop body does with the response.  The boolean
    is [true] when the body leaves the loop with [break]. *)
Definition handle_response (st : LoopState) (results : EngineOutput)
    (response_ : list Z) : result (LoopState * bool) :=
  let b := buffers st in
  let decoded_resp_ := decode env response_ in
  let tool_call_contents := findall_grounding env decoded_resp_ in
  if (0 <? length tool_call_contents)%nat then
    if bool_decide (max_image_num env ≤ Z.of_nat (length (images b)))
       || bool_decide (current_iteration st = max_iterations env - 1) then
      Ok (mkLoopState b (context_length st) (current_iteration st) true (void st), true)
    else if bool_decide (max_total_response_length env - 2000 ≤ context_length st) then
      Ok (mkLoopState b (context_length st) (current_iteration st) true (void st), true)
    else
      let old_prompt_token_ids := prompt_token_ids b in
      '(new_context_length, tool_outputs, b') ← process_tool_call b decoded_resp_ (current_iteration st);
      let context_length' := context_length st + new_context_length in
      if bool_decide (max_total_response_length env - 2000 ≤ context_length') then
        Ok (mkLoopState (roll_back old_prompt_token_ids tool_outputs b')
                        context_length' (current_iteration st) true (void st), true)
      else
        Ok (mkLoopState b' context_length' (current_iteration st + 1)
                        (exceed st) (void st), false)
  else
    let void' :=
      if finish_reason_is_length results || negb (match_answer env decoded_resp_)
      then true else void st in
    Ok (mkLoopState b (context_length st) (current_iteration st) (exceed st) void', true).

(** One pass through the body of the [while] loop. *)
Definition rollout_round (st : LoopState) : result (LoopState * bool) :=
  handle_response (after_generation st) (generation st) (response_of st).

(** [while current_iteration < max_iterations: ...]; every pass that does
    not [break] increments [current_iteration], so [fuel] bounds the passes. *)
Fixpoint rollout_loop (fuel : nat) (st : LoopState) : result LoopState :=
  match fuel with
  | O => Ok st
  | S fuel' =>
      if bool_decide (current_iteration st < max_iterations env) then
        '(st', stop) ← rollout_round st;
        if (stop : bool) then Ok st' else rollout_loop fuel' st'
      else Ok st
  end.

(** The loop as [_async_rollout_a_request] starts it. *)
Definition rollout (st : LoopState) : result LoopState :=
  rollout_loop (Z.to_nat (max_iterations env - current_iteration st)) st.

End Engine.

Arguments Buffers Image : clear implicits.
Arguments LoopState Image : clear implicits.
Arguments ToolOutput Image : clear implicits.

End Rollout.

(** ** [vllm_async_engine.py]: requests, padding and the image tokens

    [pad_to_max_stack], [_repeat_interleave], [update_sampling_params],
    [_preprocess_prompt_to_async_rollout_requests] and
    [post_process_single].  These functions raise exceptions that the
    estimators do not, so the module has its own exception type. *)

Module RolloutBatch.

Inductive exn : Type :=
| ValueError
| AssertionError
| IndexError
| UnboundLocalError
| RuntimeError.

Inductive result (A : Type) : Type :=
| Ok (a : A)
| Raise (e : exn).

Arguments Ok {A} a.
Arguments Raise {A} e.

#[global] Instance result_ret : MRet result := fun A a => Ok a.

#[global] Instance result_bind : MBind result :=
  fun A B f r => match r with Ok a => f a | Raise e => Raise e end.

(** Monadic map over a list, left to right, stopping at the first raise. *)
Fixpoint traverse {A B : Type} (f : A -> result B) (l : list A) : result (list B) :=
  match l with
  | [] => Ok []
  | a :: l' => b ← f a; bs ← traverse f l'; Ok (b :: bs)
  end.

(** *** [pad_to_max_stack] *)

(** [pad_to_max_stack] on 1-d integer tensors: [max] of no lengths raises
    [ValueError]; [torch.stack] accepts the dimensions [-2 .. 1]. *)
Definition pad_to_max_stack (tensor_list : list (list Z)) (pad_token_id : Z) (dim : Z)
  : result (list (list Z)) :=
  match tensor_list with
  | [] => Raise ValueError
  | _ =>
      let max_len := max_list (length <$> tensor_list) in
      let padded_tensor_list :=
        (fun t : list Z => t ++ replicate (max_len - length t) pad_token_id)
          <$> tensor_list in
      if bool_decide (dim = 0 \/ dim = -2)%Z then Ok padded_tensor_list
      else if bool_decide (dim = 1 \/ dim = -1)%Z then
        Ok ((fun j => (fun t : list Z => default pad_token_id (t !! j))
                        <$> padded_tensor_list) <$> seq 0 max_len)
      else Raise IndexError
  end.

(** *** [_repeat_interleave] *)

(** [value.repeat_interleave(repeats, dim=0)] and [np.repeat(value, repeats, axis=0)]. *)
Definition repeat_interleave {A : Type} (value : list A) (repeats : nat) : list A :=
  mjoin (replicate repeats <$> value).

(** *** [update_sampling_params] *)

Section SamplingParams.

(** The values of the attributes of a [SamplingParams] object. *)
Context {V : Type}.

(** The part before [yield]: every keyword that names an attribute of the
    sampling parameters is set, and its old value is remembered.  The
    result is the updated object and [old_sampling_params_args]. *)
Definition update_sampling_params_enter (kwargs sampling_params : gmap string V)
  : gmap string V * gmap string V :=
  map_fold
    (fun key value acc =>
       match acc.1 !! key with
       | Some old_value => (<[key := value]> acc.1, <[key := old_value]> acc.2)
       | None => acc
       end)
    (sampling_params, ∅) kwargs.

(** The part after [yield]: the remembered values are set back. *)
Definition update_sampling_params_exit (old_sampling_params_args sampling_params : gmap string V)
  : gmap string V :=
  map_fold (fun key value sp => <[key := value]> sp) sampling_params
           old_sampling_params_args.

(** The statement [with self.update_sampling_params(...): body], for a
    body that reads the sampling parameters: the sampling parameters after
    the statement, and its outcome.  The [yield] is not inside a [try]: an
    exception of the body is thrown into the generator at the [yield], the
    part after it does not run, and the exception leaves the statement. *)
Definition update_sampling_params {B : Type} (kwargs sampling_params : gmap string V)
    (body : gmap string V -> result B) : gmap string V * result B :=
  let entered := update_sampling_params_enter kwargs sampling_params in
  match body entered.1 with
  | Ok b => (update_sampling_params_exit entered.2 entered.1, Ok b)
  | Raise e => (entered.1, Raise e)
  end.

End SamplingParams.

(** *** [_preprocess_prompt_to_async_rollout_requests] *)

Section Requests.

(** Images (and image paths), and the fields of a prompt that a request
    copies unchanged (raw prompt ids, uid, ground truth, ...). *)
Context {Image A : Type}.

(** [self.calculate_image_token_num] and [self.load_image]. *)
Variable calculate_image_token_num : Image -> Z.
Variable load_image : Image -> Image.

(** The fields of [AsyncRolloutRequest] that identify a request, its image
    data, and the copied fields. *)
Record Request : Type := mkRequest {
  batch_data_id : nat;
  rollout_offset : nat;
  multi_modal_image : list Image;
  original_image : Image;
  image_token_num : Z;
  copied : A
}.

(** The body of the outer loop for the prompt [data_idx]: the image list
    must hold two entries, the last one is popped and loaded as the
    original image, and [n] requests are made. *)
Definition requests_of_prompt (n : nat) (data_idx : nat) (prompt : list Image * A)
  : result (list Request) :=
  match prompt.1 with
  | [image; original_image_path] =>
      Ok ((fun idx => mkRequest data_idx idx [image] (load_image original_image_path)
                                (calculate_image_token_num image) prompt.2)
            <$> seq 0 n)
  | _ => Raise AssertionError
  end.

(** [_preprocess_prompt_to_async_rollout_requests]. *)
Definition preprocess_prompt_to_async_rollout_requests (prompts : list (list Image * A))
    (n : nat) : result (list Request) :=
  match traverse (fun ip : nat * (list Image * A) => requests_of_prompt n ip.1 ip.2)
                 (zip (seq 0 (length prompts)) prompts) with
  | Ok reqs => Ok (mjoin reqs)
  | Raise e => Raise e
  end.

End Requests.

(** *** [post_process_single] *)

Definition image_pad_token : Z := 151655.
Definition magic_num : Z := 654321.

Section ImageTokens.

Context {Image : Type}.

(** [self.processor.image_processor(images)['image_grid_thw']] and
    [self.merge_length]. *)
Variable image_grid_thw : list Image -> list (list Z).
Variable merge_length : Z.

(** [while image_pad_token in generation_response_ids: ...]: the first
    image pad token is replaced by as many magic numbers as the image at
    [index] has tokens, with [0] in the mask.  [image_grid_thws] is bound
    only when there is more than one image. *)
Fixpoint expand_image_pads (fuel : nat) (image_grid_thws : option (list (list Z)))
    (generation_response_ids all_response_masks : list Z) (index : nat)
  : result (list Z * list Z) :=
  match fuel with
  | O => Ok (generation_response_ids, all_response_masks)
  | S fuel' =>
      match list_find (fun x => x = image_pad_token) generation_response_ids with
      | None => Ok (generation_response_ids, all_response_masks)
      | Some (image_pad_token_pos, _) =>
          match image_grid_thws with
          | None => Raise UnboundLocalError
          | Some grids =>
              match grids !! index with
              | None => Raise IndexError
              | Some thw =>
                  if bool_decide (merge_length = 0)%Z then Raise RuntimeError
                  else
                    let image_pad_token_repeat_num :=
                      Z.to_nat (foldr Z.mul 1%Z thw `div` merge_length) in
                    expand_image_pads fuel' image_grid_thws
                      (take image_pad_token_pos generation_response_ids
                         ++ replicate image_pad_token_repeat_num magic_num
                         ++ drop (S image_pad_token_pos) generation_response_ids)
                      (take image_pad_token_pos all_response_masks
                         ++ replicate image_pad_token_repeat_num 0%Z
                         ++ drop (S image_pad_token_pos) all_response_masks)
                      (S index)
              end
          end
      end
  end.

(** [post_process_single]: [torch.cat] of no fragments raises
    [RuntimeError]; every pass of the loop removes one image pad token, so
    the length of the response bounds the passes. *)
Definition post_process_single (prefix_length : nat) (prompt_token_ids : list Z)
    (images : list Image) (multi_turn_response_mask : list (list Z))
  : result (list Z * list Z) :=
  let generation_response_ids := drop prefix_length prompt_token_ids in
  let image_grid_thws :=
    if (1 <? length images)%nat then Some (image_grid_thw (drop 1 images)) else None in
  match drop 1 multi_turn_response_mask with
  | [] => Raise RuntimeError
  | fragments =>
      let all_response_masks := mjoin fragments in
      if (length generation_response_ids =? length all_response_masks)%nat then
        match expand_image_pads (length generation_response_ids) image_grid_thws
                generation_response_ids all_response_masks 0 with
        | Ok r =>
            Ok ((fun x => if bool_decide (x = magic_num) then image_pad_token else x)
                  <$> r.1,
                r.2)
        | Raise e => Raise e
        end
      else Raise AssertionError
  end.

End ImageTokens.

End RolloutBatch.

(** ** Vocabulary of the statements *)

(** The tensor that [kl_penalty] returns for the kind [low_var_kl]. *)
Definition low_var_kl (logprob ref_logprob : mat) : mat :=
  let kl := mmap2 Rminus ref_logprob logprob in
  let ratio := mmap exp kl in
  let kld := mmap (fun x => x - 1) (mmap2 Rminus ratio kl) in
  mmap (fun x => clamp x (-10) 10) kld.

(** The [low_var_kl] estimator of one token. *)
Definition low_var_kl_elem (ref_logprob logprob : R) : R :=
  clamp (exp (ref_logprob - logprob) - (ref_logprob - logprob) - 1) (-10) 10.

(** An adaptive configuration whose own horizon is [0], next to a
    top-level [kl_ctrl] node with horizon [1]. *)
Definition adaptive_zero_horizon : Config :=
  mkConfig (mkKLCtrl "adaptive" 0.001 0.1 0)
           (Some (mkKLCtrl "adaptive" 0.001 0.1 1)).

(** [torch.ones_like(m)]: the all-ones mask of the shape of [m]. *)
Definition ones_like (m : mat) : mat := mmap (fun _ => 1) m.

(** Every row of [m] has the width of the tensor. *)
Definition rectangular (m : mat) : Prop := Forall (fun r : vec => length r = width m) m.

(** A response mask holds only [0] and [1]. *)
Definition binary (mask : mat) : Prop := Forall (Forall (fun x => x = 0 \/ x = 1)) mask.

(** The five modes that [agg_loss] accepts. *)
Definition is_agg_mode (loss_agg_mode : string) : bool :=
  String.eqb loss_agg_mode "token-mean"
  || String.eqb loss_agg_mode "seq-mean-token-sum"
  || String.eqb loss_agg_mode "seq-mean-token-mean"
  || String.eqb loss_agg_mode "seq-mean-token-sum-norm"
  || String.eqb loss_agg_mode "seq-mean-token-sum-norm-scaled".

(** The tensor whose masked mean is the clip fraction of
    [compute_policy_loss]: [torch.gt(pg_losses2, pg_losses).float()]. *)
Definition clipped_indicator (old_log_prob log_prob advantages : mat) (lo hi : R) : mat :=
  let negative_approx_kl := mmap2 Rminus log_prob old_log_prob in
  let ratio := mmap exp negative_approx_kl in
  let pg_losses := mmap2 Rmult (mmap Ropp advantages) ratio in
  let pg_losses2 :=
    mmap2 Rmult (mmap Ropp advantages) (mmap (fun x => clamp x lo hi) ratio) in
  mmap2 gt pg_losses2 pg_losses.

(** The clip fraction that [compute_policy_loss] reports for a symmetric
    clip range [c]. *)
Definition pg_clipfrac (old_log_prob log_prob advantages eos_mask : mat) (c : R) : R :=
  masked_mean (clipped_indicator old_log_prob log_prob advantages (1 - c) (1 + c)) eos_mask.

(** Whether one token counts as clipped: [gt(-A * clamp(r), -A * r)],
    written on the negated advantage [na] and the ratio [r]. *)
Definition clip_flag (lo hi na r : R) : R := gt (na * clamp r lo hi) (na * r).

(** The scores of the rows whose group index is [k], in row order. *)
Definition group_of (k : Z) (index : list Z) (scores : vec) : vec :=
  snd <$> filter (fun ks : Z * R => ks.1 = k) (zip index scores).

(** The statistics that GRPO keeps for a group with scores [G]. *)
Definition grpo_mean_of (G : vec) : R := if (length G =? 1)%nat then 0 else mean G.
Definition grpo_std_of (G : vec) : R := if (length G =? 1)%nat then 1 else std G.

(** The normalised GRPO score of a row with group index [ks.1] and raw
    score [ks.2], in terms of the scores of its group. *)
Definition grpo_row (index : list Z) (scores : vec) (epsilon : R)
    (norm_adv_by_std_in_grpo : bool) (norm_by_importance : string) (scale : R)
    (ks : Z * R) : R :=
  let G := group_of ks.1 index scores in
  if norm_adv_by_std_in_grpo then (ks.2 - grpo_mean_of G) / (grpo_std_of G + epsilon)
  else if String.eqb norm_by_importance "v1"
       then (ks.2 - grpo_mean_of G) / ((scale / grpo_std_of G) + epsilon)
       else ks.2 - grpo_mean_of G.

(** The rescaled RLOO score of a row, in terms of the scores of its group. *)
Definition rloo_row (index : list Z) (scores : vec) (ks : Z * R) : R :=
  let G := group_of ks.1 index scores in
  if (1 <? length G)%nat
  then ks.2 * INR (length G) / (INR (length G) - 1)
       - grpo_mean_of G * INR (length G) / (INR (length G) - 1)
  else ks.2.

(** *** Concrete inputs *)

(** A whitening that leaves its input unchanged, to run the estimators. *)
Definition no_whiten (values mask : mat) : mat := values.

(** A rollout environment over images named by numbers: the engine answers
    three tokens (the last one above the vocabulary bound), every answer
    holds a grounding call, a crop costs 5000 image tokens, and the maximum
    total response length is 6000. *)
Definition env0 : Rollout.Env nat :=
  Rollout.mkEnv nat
    (fun _ _ _ => Rollout.mkEngineOutput [1; 2; 200000]%Z false)
    (fun _ => [11; 12; 13]%Z)
    (fun _ => "<grounding>box</grounding>"%string)
    (fun _ => ["box"%string])
    (fun _ => false)
    (fun _ _ _ => inr ("grounding"%string, (0%nat, [0; 0; 1; 1]%Z)))
    (fun im _ _ => im)
    (fun im => im)
    (fun _ => (28, 28)%Z)
    (fun _ => 5000%Z)
    (fun _ _ => "crop"%string)
    "error"%string
    6000%Z 3%Z 4%Z.

(** A request at its first round, with a prompt of three tokens. *)
Definition st0 : Rollout.LoopState nat :=
  Rollout.mkLoopState
    (Rollout.mkBuffers [1; 2; 3]%Z [0%nat] [0%nat] [(28, 28)%Z] [[0; 0; 0]%Z])
    10%Z 0%Z false false.

(** The buffers of [st0] after the first answer and its tool call. *)
Definition b0_after_tool : Rollout.Buffers nat :=
  Rollout.mkBuffers [1; 2; 3; 1; 2; 11; 12; 13]%Z [0%nat; 0%nat] [0%nat; 0%nat]
                    [(28, 28)%Z; (28, 28)%Z] [[0; 0; 0]%Z; [1; 1]%Z; [0; 0; 0]%Z].

(** *** Further vocabulary *)

(** Two tensors have the same number of rows and the same row lengths. *)
Definition same_shape (a b : mat) : Prop := length <$> a = length <$> b.

(** The four kinds for which [kl_penalty] returns. *)
Definition is_kl_kind (kind : string) : bool :=
  String.eqb kind "kl" || String.eqb kind "abs" || String.eqb kind "mse"
  || String.eqb kind "low_var_kl".

(** The first mask fragment covers the [prefix_length] prompt tokens, and
    the later fragments, concatenated as [torch.cat] does, cover the rest
    of the token buffer: what [post_process_single] asserts. *)
Definition response_aligned {Image : Type} (prefix_length : nat)
    (b : Rollout.Buffers Image) : Prop :=
  exists first rest,
    Rollout.multi_turn_response_mask b = first :: rest
    /\ length first = prefix_length
    /\ (prefix_length <= length (Rollout.prompt_token_ids b))%nat
    /\ length (mjoin rest) = length (drop prefix_length (Rollout.prompt_token_ids b)).

(** Every image of the engine input has its size and its observation. *)
Definition images_aligned {Image : Type} (b : Rollout.Buffers Image) : Prop :=
  length (Rollout.image_size_used_list b) = length (Rollout.images b)
  /\ length (Rollout.observations_list b) = length (Rollout.images b).

(** The image pad tokens of a response. *)
Definition count_pads (ids : list Z) : nat :=
  length (filter (fun x => x = RolloutBatch.image_pad_token) ids).

(** The number of tokens of an image with the grid [thw]:
    [thw.prod() // merge_length]. *)
Definition image_token_count (merge_length : Z) (thw : list Z) : nat :=
  Z.to_nat (foldr Z.mul 1%Z thw `div` merge_length).

(** One pass from left to right over a response: the image pad token
    number [k] becomes [counts !! k] image pad tokens, a token equal to the
    magic number becomes an image pad token, and every other token stays.
    The pass stops at an image pad token for which no count is left. *)
Fixpoint single_pass_ids (counts : list nat) (ids : list Z) : list Z :=
  match ids with
  | [] => []
  | x :: xs =>
      if bool_decide (x = RolloutBatch.image_pad_token) then
        match counts with
        | c :: cs => replicate c RolloutBatch.image_pad_token ++ single_pass_ids cs xs
        | [] => []
        end
      else (if bool_decide (x = RolloutBatch.magic_num)
            then RolloutBatch.image_pad_token else x)
           :: single_pass_ids counts xs
  end.

(** The same pass over the mask of the response: the mask entry of the
    image pad token number [k] becomes [counts !! k] zeros, and every other
    entry stays. *)
Fixpoint single_pass_masks (counts : list nat) (ids masks : list Z) : list Z :=
  match ids, masks with
  | x :: xs, m :: ms =>
      if bool_decide (x = RolloutBatch.image_pad_token) then
        match counts with
        | c :: cs => replicate c 0%Z ++ single_pass_masks cs xs ms
        | [] => []
        end
      else m :: single_pass_masks counts xs ms
  | _, _ => []
  end.

(** An image processor that gives every image the grid [1 x 4 x 4]. *)
Definition grid0 (images : list nat) : list (list Z) :=
  (fun _ => [1; 4; 4]%Z) <$> images.

(** * Properties *)

(** ** Element-wise operations *)

Section Elementwise.

Implicit Types (f g : R -> R -> R) (h : R -> R) (a b : mat) (u v : vec).

Lemma Forall2_vmap2 (P : R -> Prop) f u v :
  (forall x y, P (f x y)) -> Forall P (vmap2 f u v).
Proof.
  intros Hf. unfold vmap2. revert v.
  induction u as [|x u IH]; intros [|y v]; simpl; constructor; auto.
Qed.

Lemma Forall_mmap2 (P : R -> Prop) f a b :
  (forall x y, P (f x y)) -> Forall (Forall P) (mmap2 f a b).
Proof.
  intros Hf. unfold mmap2. revert b.
  induction a as [|r a IH]; intros [|s b]; simpl; constructor; auto.
  by apply Forall2_vmap2.
Qed.

Lemma clamp_bounds x lo hi : lo <= hi -> lo <= clamp x lo hi <= hi.
Proof.
  intros Hle. unfold clamp, Rmin, Rmax.
  repeat destruct (Rle_dec _ _); lra.
Qed.

End Elementwise.

(** ** The KL penalty *)

Section KLPenalty.

Lemma low_var_kl_elementwise (logprob ref_logprob : mat) :
  low_var_kl logprob ref_logprob = mmap2 low_var_kl_elem ref_logprob logprob.
Proof.
  unfold low_var_kl, mmap, mmap2. revert logprob.
  induction ref_logprob as [|r a IH]; intros [|s b]; simpl; auto.
  rewrite IH. f_equal. clear IH. revert s.
  induction r as [|x r IH]; intros [|y s]; simpl; auto.
  rewrite IH. done.
Qed.

(** C9. With kind [low_var_kl], [kl_penalty] returns, element by element,
    [exp(ref - logp) - (ref - logp) - 1] clamped into [[-10, 10]], and every
    element of the output lies in that interval whatever the inputs are. *)
Theorem kl_penalty_low_var_kl_clamped (logprob ref_logprob : mat) :
  kl_penalty logprob ref_logprob "low_var_kl"
    = Ok (mmap2 low_var_kl_elem ref_logprob logprob)
  /\ Forall (Forall (fun x => -10 <= x <= 10))
            (mmap2 low_var_kl_elem ref_logprob logprob).
Proof.
  split.
  - rewrite <- low_var_kl_elementwise. reflexivity.
  - apply Forall_mmap2. intros x y. unfold low_var_kl_elem.
    apply clamp_bounds. lra.
Qed.

End KLPenalty.

(** ** Clip ranges of the policy losses *)

Section ClipRange.

Variables old_log_prob log_prob advantages mask : mat.
Variable loss_agg_mode : string.

Lemma compute_policy_loss_gspo_none (eps : R) :
  exists e, compute_policy_loss_gspo old_log_prob log_prob advantages mask
              loss_agg_mode None None None eps = Raise e.
Proof.
  unfold compute_policy_loss_gspo. simpl.
  destruct (bcast_last _ _ _); simpl; eauto.
Qed.

End ClipRange.

(** C10. In [compute_policy_loss] and [compute_policy_loss_gspo] a
    [cliprange_low] or [cliprange_high] that is [None] is replaced by the
    shared [cliprange]; with all three [None] both functions raise instead
    of computing an unclipped loss ([compute_policy_loss] raises the
    [TypeError] of the clamp bound). *)
Theorem cliprange_fallback_or_failure
    (old_log_prob log_prob advantages mask : mat) (loss_agg_mode : string)
    (scale eps c : R) (other : option R) :
  (compute_policy_loss old_log_prob log_prob advantages mask (Some c) None other
                       loss_agg_mode scale
   = compute_policy_loss old_log_prob log_prob advantages mask (Some c) (Some c) other
                         loss_agg_mode scale)
  /\ (compute_policy_loss old_log_prob log_prob advantages mask (Some c) other None
                          loss_agg_mode scale
      = compute_policy_loss old_log_prob log_prob advantages mask (Some c) other (Some c)
                            loss_agg_mode scale)
  /\ (compute_policy_loss_gspo old_log_prob log_prob advantages mask loss_agg_mode
                               (Some c) None other eps
      = compute_policy_loss_gspo old_log_prob log_prob advantages mask loss_agg_mode
                                 (Some c) (Some c) other eps)
  /\ (compute_policy_loss_gspo old_log_prob log_prob advantages mask loss_agg_mode
                               (Some c) other None eps
      = compute_policy_loss_gspo old_log_prob log_prob advantages mask loss_agg_mode
                                 (Some c) other (Some c) eps)
  /\ compute_policy_loss old_log_prob log_prob advantages mask None None None
                         loss_agg_mode scale = Raise TypeError
  /\ exists e, compute_policy_loss_gspo old_log_prob log_prob advantages mask
                 loss_agg_mode None None None eps = Raise e.
Proof.
  repeat split; try reflexivity.
  apply compute_policy_loss_gspo_none.
Qed.

(** ** The KL controller factory *)

Section KLControllerFactory.

Lemma get_kl_controller_unknown (config : Config) :
  kl_type (critic_kl_ctrl config) <> "fixed"%string ->
  kl_type (critic_kl_ctrl config) <> "adaptive"%string ->
  get_kl_controller config = Raise ValueError.
Proof.
  intros Hf Ha. unfold get_kl_controller.
  destruct (String.eqb_spec (kl_type (critic_kl_ctrl config)) "fixed"); [done|].
  destruct (String.eqb_spec (kl_type (critic_kl_ctrl config)) "adaptive"); done.
Qed.

(** C8. At [adaptive_zero_horizon] the factory does not fail: it returns an
    adaptive controller whose horizon is [0], because the assertion reads
    [config.kl_ctrl.horizon] and not [config.critic.kl_ctrl.horizon]. *)
Theorem get_kl_controller_accepts_zero_horizon :
  get_kl_controller adaptive_zero_horizon
  = Ok (Adaptive (mkAdaptive 0.001 0.1 0)).
Proof. reflexivity. Qed.

End KLControllerFactory.

(** ** Loss aggregation *)

Section AggLoss.

Lemma vsum_app (u v : vec) : vsum (u ++ v) = vsum u + vsum v.
Proof. unfold vsum. induction u as [|x u IH]; simpl; [lra | rewrite IH; lra]. Qed.

Lemma vsum_div (k : R) (v : vec) : vsum ((fun x => x / k) <$> v) = vsum v / k.
Proof. unfold vsum. induction v as [|x v IH]; csimpl; [lra | rewrite IH; lra]. Qed.

Lemma vsum_ones (v : vec) : vsum ((fun _ => 1) <$> v) = INR (length v).
Proof.
  unfold vsum. induction v as [|x v IH]; [done|].
  rewrite fmap_cons, length_cons, S_INR. simpl. rewrite IH. lra.
Qed.

Lemma mul_ones_like (m : mat) : mmap2 Rmult m (ones_like m) = m.
Proof.
  unfold mmap2, ones_like, mmap. induction m as [|r m IH]; csimpl; [done|].
  rewrite IH. f_equal. clear IH.
  induction r as [|x r IH]; csimpl; [done|]. rewrite IH. f_equal. lra.
Qed.

Lemma msum_ones_like (m : mat) : msum (ones_like m) = INR (numel m).
Proof.
  unfold msum, row_sum, ones_like, mmap, numel.
  induction m as [|r m IH]; csimpl; [done|].
  rewrite plus_INR, <- IH. f_equal. apply vsum_ones.
Qed.

Lemma width_ones_like (m : mat) : width (ones_like m) = width m.
Proof. destruct m as [|r m]; simpl; [done|]. by rewrite length_fmap. Qed.

Lemma numel_rectangular (m : mat) (T : nat) :
  Forall (fun r : vec => length r = T) m -> numel m = (length m * T)%nat.
Proof.
  unfold numel. induction 1 as [|r m Hr Hm IH]; csimpl; [done|].
  rewrite IH, Hr. done.
Qed.

Lemma masked_mean_ones_like (m : mat) : masked_mean m (ones_like m) = mmean m.
Proof. unfold masked_mean, mmean. by rewrite mul_ones_like, msum_ones_like. Qed.

(** C7. On the all-ones mask, [agg_loss] with mode [token-mean] is the
    plain element-wise mean of the loss matrix; and when every row is fully
    covered by the mask and has the width of the tensor (the fixed
    normaliser), mode [seq-mean-token-sum-norm] gives the same value as
    [token-mean]. *)
Theorem agg_loss_full_mask (loss_mat : mat) (scale eps : R) :
  agg_loss loss_mat (ones_like loss_mat) "token-mean" scale eps = Ok (mmean loss_mat)
  /\ (rectangular loss_mat ->
      agg_loss loss_mat (ones_like loss_mat) "seq-mean-token-sum-norm" scale eps
      = agg_loss loss_mat (ones_like loss_mat) "token-mean" scale eps).
Proof.
  split.
  - unfold agg_loss. simpl. by rewrite masked_mean_ones_like.
  - intros Hrect. unfold agg_loss. simpl. f_equal.
    rewrite masked_mean_ones_like, mul_ones_like, width_ones_like.
    unfold mmean, mean, msum.
    rewrite (numel_rectangular loss_mat (width loss_mat) Hrect).
    rewrite vsum_div, mult_INR.
    unfold row_sum. rewrite !length_fmap.
    unfold Rdiv. rewrite Rinv_mult. lra.
Qed.

End AggLoss.

(** ** The clip fraction of [compute_policy_loss] *)

Section ClipFraction.

Lemma clipped_indicator_flag (old_log_prob log_prob advantages : mat) (lo hi : R) :
  clipped_indicator old_log_prob log_prob advantages lo hi
  = mmap2 (clip_flag lo hi) (mmap Ropp advantages)
          (mmap exp (mmap2 Rminus log_prob old_log_prob)).
Proof.
  unfold clipped_indicator, clip_flag.
  generalize (mmap Ropp advantages) as na.
  generalize (mmap exp (mmap2 Rminus log_prob old_log_prob)) as ratio.
  unfold mmap2, mmap. intros ratio na. revert ratio.
  induction na as [|r na IH]; intros [|s ratio]; csimpl; auto.
  rewrite IH. f_equal. clear IH. revert s.
  induction r as [|x r IH]; intros [|y s]; csimpl; auto.
  by rewrite IH.
Qed.

(** Shrinking the clip range can only turn more tokens into clipped ones. *)
Lemma clip_flag_antitone (c c' na r : R) :
  0 < c' <= c ->
  clip_flag (1 - c) (1 + c) na r <= clip_flag (1 - c') (1 + c') na r.
Proof.
  intros Hc. unfold clip_flag, gt.
  destruct (Rgt_dec (na * clamp r (1 - c) (1 + c)) (na * r)) as [Hgt|Hgt];
    destruct (Rgt_dec (na * clamp r (1 - c') (1 + c')) (na * r)) as [Hgt'|Hgt'];
    try lra.
  exfalso. apply Hgt'. clear Hgt'. revert Hgt.
  unfold clamp, Rmin, Rmax.
  destruct (Rtotal_order na 0) as [Hna|[Hna|Hna]];
    repeat destruct (Rle_dec _ _); intros Hgt; try lra; nra.
Qed.

Lemma vsum_weighted_mono (F F' : R -> R -> R) (a b w : vec) :
  (forall x y, F x y <= F' x y) ->
  Forall (fun x => 0 <= x) w ->
  vsum (vmap2 Rmult (vmap2 F a b) w) <= vsum (vmap2 Rmult (vmap2 F' a b) w).
Proof.
  intros HF Hw. unfold vsum, vmap2. revert a b.
  induction Hw as [|x w Hx Hw IH]; intros [|p a] [|q b]; csimpl; try lra.
  specialize (IH a b). specialize (HF p q). nra.
Qed.

Lemma msum_weighted_mono (F F' : R -> R -> R) (a b w : mat) :
  (forall x y, F x y <= F' x y) ->
  Forall (Forall (fun x => 0 <= x)) w ->
  msum (mmap2 Rmult (mmap2 F a b) w) <= msum (mmap2 Rmult (mmap2 F' a b) w).
Proof.
  intros HF Hw. unfold msum, row_sum, mmap2. revert a b.
  induction Hw as [|x w Hx Hw IH]; intros [|p a] [|q b]; csimpl; try lra.
  specialize (IH a b).
  pose proof (vsum_weighted_mono F F' p q x HF Hx) as Hrow.
  unfold vmap2 in Hrow. unfold vsum in *. lra.
Qed.

Lemma binary_nonneg (mask : mat) :
  binary mask -> Forall (Forall (fun x => 0 <= x)) mask.
Proof.
  unfold binary. intros H. eapply Forall_impl; [exact H|].
  intros r Hr. eapply Forall_impl; [exact Hr|]. simpl. intros x [->| ->]; lra.
Qed.

Lemma pg_clipfrac_antitone (old_log_prob log_prob advantages eos_mask : mat) (c c' : R) :
  binary eos_mask -> 0 < msum eos_mask -> 0 < c' <= c ->
  pg_clipfrac old_log_prob log_prob advantages eos_mask c
  <= pg_clipfrac old_log_prob log_prob advantages eos_mask c'.
Proof.
  intros Hbin Hpos Hc. unfold pg_clipfrac, masked_mean.
  rewrite !clipped_indicator_flag.
  apply Rmult_le_compat_r.
  - left. by apply Rinv_0_lt_compat.
  - apply msum_weighted_mono; [|by apply binary_nonneg].
    intros x y. by apply clip_flag_antitone.
Qed.

Lemma agg_loss_returns (loss_mat loss_mask : mat) (loss_agg_mode : string) (scale eps : R) :
  is_agg_mode loss_agg_mode = true ->
  exists loss, agg_loss loss_mat loss_mask loss_agg_mode scale eps = Ok loss.
Proof.
  unfold is_agg_mode, agg_loss. intros H.
  repeat (destruct (String.eqb loss_agg_mode _); [eauto|]). done.
Qed.

Lemma compute_policy_loss_clipfrac (old_log_prob log_prob advantages eos_mask : mat)
    (loss_agg_mode : string) (scale c : R) :
  is_agg_mode loss_agg_mode = true ->
  exists pg_loss ppo_kl,
    compute_policy_loss old_log_prob log_prob advantages eos_mask (Some c) None None
                        loss_agg_mode scale
    = Ok (pg_loss, pg_clipfrac old_log_prob log_prob advantages eos_mask c, ppo_kl).
Proof.
  intros Hmode. unfold compute_policy_loss. simpl.
  edestruct agg_loss_returns as [loss ->]; [exact Hmode|].
  simpl. eauto.
Qed.

(** C6. For fixed log-probabilities, advantages and a 0/1 mask with at
    least one live token, [compute_policy_loss] returns for every symmetric
    clip range, and the clip fraction it reports does not decrease when the
    clip range shrinks: [0 < c' <= c] gives [clipfrac(c) <= clipfrac(c')]. *)
Theorem clipfrac_monotone (old_log_prob log_prob advantages eos_mask : mat)
    (loss_agg_mode : string) (scale c c' : R) :
  is_agg_mode loss_agg_mode = true ->
  binary eos_mask -> 0 < msum eos_mask -> 0 < c' <= c ->
  exists pg_loss frac ppo_kl pg_loss' frac' ppo_kl',
    compute_policy_loss old_log_prob log_prob advantages eos_mask (Some c) None None
                        loss_agg_mode scale = Ok (pg_loss, frac, ppo_kl)
    /\ compute_policy_loss old_log_prob log_prob advantages eos_mask (Some c') None None
                           loss_agg_mode scale = Ok (pg_loss', frac', ppo_kl')
    /\ frac <= frac'.
Proof.
  intros Hmode Hbin Hpos Hc.
  destruct (compute_policy_loss_clipfrac old_log_prob log_prob advantages eos_mask
              loss_agg_mode scale c Hmode) as (l & k & Hl).
  destruct (compute_policy_loss_clipfrac old_log_prob log_prob advantages eos_mask
              loss_agg_mode scale c' Hmode) as (l' & k' & Hl').
  exists l, (pg_clipfrac old_log_prob log_prob advantages eos_mask c), k,
         l', (pg_clipfrac old_log_prob log_prob advantages eos_mask c'), k'.
  repeat split; [exact Hl | exact Hl' |].
  by apply pg_clipfrac_antitone.
Qed.

End ClipFraction.

(** ** Reading tensors *)

Section Access.

Lemma at2_row (m : mat) (i t : nat) (r : vec) : m !! i = Some r -> at2 m i t = at1 r t.
Proof. unfold at2, at1. by intros ->. Qed.

Lemma at1_fmap (h : R -> R) (v : vec) (i : nat) :
  (i < length v)%nat -> at1 (h <$> v) i = h (at1 v i).
Proof.
  intros Hi. destruct (lookup_lt_is_Some_2 v i Hi) as [x Hx].
  unfold at1. by rewrite list_lookup_fmap, Hx.
Qed.

Lemma at1_vmap2 (f : R -> R -> R) (a b : vec) (i : nat) :
  (i < length a)%nat -> (i < length b)%nat ->
  at1 (vmap2 f a b) i = f (at1 a i) (at1 b i).
Proof.
  intros Ha Hb.
  destruct (lookup_lt_is_Some_2 a i Ha) as [x Hx].
  destruct (lookup_lt_is_Some_2 b i Hb) as [y Hy].
  unfold at1, vmap2. by rewrite lookup_zip_with, Hx, Hy.
Qed.

Lemma at1_col (m : mat) (t i : nat) : at1 (col m t) i = at2 m i t.
Proof.
  unfold at1, at2, col. rewrite list_lookup_fmap.
  destruct (m !! i); done.
Qed.

Lemma length_col (m : mat) (t : nat) : length (col m t) = length m.
Proof. unfold col. by rewrite length_fmap. Qed.

Lemma at1_replicate_0 (n i : nat) : at1 (replicate n 0) i = 0.
Proof.
  unfold at1. destruct (replicate n 0 !! i) as [x|] eqn:E; [|done].
  apply lookup_replicate in E as [-> _]. done.
Qed.

Lemma at2_mmap2 (f : R -> R -> R) (a b : mat) (i t : nat) (r s : vec) :
  a !! i = Some r -> b !! i = Some s ->
  (t < length r)%nat -> (t < length s)%nat ->
  at2 (mmap2 f a b) i t = f (at2 a i t) (at2 b i t).
Proof.
  intros Ha Hb Hr Hs.
  rewrite (at2_row a i t r Ha), (at2_row b i t s Hb).
  rewrite (at2_row (mmap2 f a b) i t (vmap2 f r s)).
  - by apply at1_vmap2.
  - unfold mmap2, vmap2. by rewrite lookup_zip_with, Ha, Hb.
Qed.

End Access.

(** ** GAE *)

Section GAE.

Variables (token_level_rewards values : mat) (gamma lam : R).

Let bs := length token_level_rewards.
Let gen_len := width token_level_rewards.
Let step := gae_step token_level_rewards values gamma lam gen_len.
Let loop := gae_loop token_level_rewards values gamma lam gen_len.

Hypothesis values_rows : length values = length token_level_rewards.

Lemma gae_loop_acc (ts : list nat) (last : vec) (acc : list vec) :
  loop ts last acc = acc ++ loop ts last [].
Proof.
  unfold loop. revert last acc.
  induction ts as [|t ts IH]; intros last acc; simpl.
  - by rewrite app_nil_r.
  - rewrite (IH _ (acc ++ _)), (IH _ [_]). by rewrite <- app_assoc.
Qed.

Lemma gae_loop_cons (t : nat) (ts : list nat) (last : vec) :
  loop (t :: ts) last [] = [step t last] ++ loop ts (step t last) [].
Proof.
  unfold loop at 1. simpl. fold loop. fold step. apply gae_loop_acc.
Qed.

Lemma gae_step_length (t : nat) (last : vec) :
  length last = bs -> length (step t last) = bs.
Proof.
  intros Hlast. unfold step, gae_step. fold bs.
  assert (Hnv : length (if (t <? gen_len - 1)%nat then col values (t + 1)
                        else replicate bs 0) = bs).
  { destruct (t <? gen_len - 1)%nat;
      [rewrite length_col; exact values_rows | apply length_replicate]. }
  unfold vmap2. rewrite !length_zip_with, !length_fmap, !length_col, Hnv.
  unfold bs in *. lia.
Qed.

Lemma gae_step_at (t i : nat) (last : vec) :
  length last = bs -> (i < bs)%nat ->
  at1 (step t last) i
  = at2 token_level_rewards i t
    + gamma * (if (t <? gen_len - 1)%nat then at2 values i (t + 1) else 0)
    - at2 values i t
    + gamma * lam * at1 last i.
Proof.
  intros Hlast Hi. unfold step, gae_step. fold bs.
  set (nv := if (t <? gen_len - 1)%nat then col values (t + 1) else replicate bs 0).
  assert (Hnv : length nv = bs).
  { unfold nv. destruct (t <? gen_len - 1)%nat;
      [rewrite length_col; exact values_rows | apply length_replicate]. }
  assert (Hnvi : at1 nv i
                 = if (t <? gen_len - 1)%nat then at2 values i (t + 1) else 0).
  { unfold nv. destruct (t <? gen_len - 1)%nat;
      [apply at1_col | apply at1_replicate_0]. }
  assert (Hc1 : length (col token_level_rewards t) = bs) by apply length_col.
  assert (Hc2 : length (col values t) = bs)
    by (rewrite length_col; exact values_rows).
  assert (Hs : length (vmap2 Rplus (col token_level_rewards t) (Rmult gamma <$> nv)) = bs).
  { unfold vmap2. rewrite length_zip_with, length_fmap. lia. }
  assert (Hd : length (vmap2 Rminus
                         (vmap2 Rplus (col token_level_rewards t) (Rmult gamma <$> nv))
                         (col values t)) = bs).
  { unfold vmap2 in *. rewrite length_zip_with. lia. }
  rewrite at1_vmap2 by (rewrite ?length_fmap; lia).
  rewrite at1_vmap2 by lia.
  rewrite at1_vmap2 by (rewrite ?length_fmap; lia).
  rewrite !at1_fmap by lia.
  rewrite !at1_col, Hnvi. reflexivity.
Qed.

(** The columns that the backward loop over [0 .. n-1] produces, oldest
    time step first. *)
Lemma gae_columns (n : nat) (last : vec) :
  length last = bs ->
  let cols := reverse (loop (reverse (seq 0 n)) last []) in
  length cols = n
  /\ forall t, (t < n)%nat ->
       exists c, cols !! t = Some c /\ length c = bs
         /\ c = step t (if (t + 1 <? n)%nat then default [] (cols !! (t + 1)%nat) else last).
Proof.
  revert last. induction n as [|n IH]; intros last Hlast; cbv zeta.
  - split; [done | intros t Ht; lia].
  - rewrite seq_S, reverse_app, reverse_singleton. simpl.
    rewrite gae_loop_cons, reverse_app, reverse_singleton.
    set (last' := step n last).
    assert (Hlast' : length last' = bs) by by apply gae_step_length.
    destruct (IH last' Hlast') as [Hlen Hcols].
    set (cols := reverse (loop (reverse (seq 0 n)) last' [])) in *.
    split; [rewrite length_app, Hlen; simpl; lia|].
    intros t Ht. destruct (decide (t = n)) as [->|Hne].
    + exists last'. rewrite lookup_app_r by lia.
      rewrite Hlen, Nat.sub_diag. simpl. repeat split; [done|].
      replace (n + 1 <? S n)%nat with false by (symmetry; apply Nat.ltb_ge; lia).
      done.
    + destruct (Hcols t ltac:(lia)) as (c & Hc & Hcl & Hstep).
      exists c. rewrite lookup_app_l by lia. repeat split; [done..|].
      rewrite Hstep. f_equal.
      replace (t + 1 <? S n)%nat with true by (symmetry; apply Nat.ltb_lt; lia).
      destruct (decide (t + 1 = n)%nat) as [Heq|Hne'].
      * replace (t + 1 <? n)%nat with false by (symmetry; apply Nat.ltb_ge; lia).
        rewrite lookup_app_r by lia. rewrite Hlen, Heq, Nat.sub_diag. done.
      * replace (t + 1 <? n)%nat with true by (symmetry; apply Nat.ltb_lt; lia).
        rewrite lookup_app_l by lia. done.
Qed.

End GAE.

Section GAEReturns.

Lemma stack_dim1_at (bs : nat) (cols : list vec) (i t : nat) (c : vec) (A : mat) :
  stack_dim1 bs cols = Ok A -> (i < bs)%nat -> cols !! t = Some c ->
  exists row, A !! i = Some row /\ length row = length cols /\ at2 A i t = at1 c i.
Proof.
  intros HA Hi Hc. unfold stack_dim1 in HA.
  destruct cols as [|c0 cols']; [done|].
  set (cols := c0 :: cols') in *.
  assert (A = (fun i => (fun c : vec => at1 c i) <$> cols) <$> seq 0 bs) as ->
    by congruence.
  clear HA.
  exists ((fun c : vec => at1 c i) <$> cols).
  assert (Hrow : ((fun i => (fun c : vec => at1 c i) <$> cols) <$> seq 0 bs) !! i
                 = Some ((fun c : vec => at1 c i) <$> cols)).
  { rewrite list_lookup_fmap, lookup_seq_lt by done. done. }
  split; [exact Hrow|]. split; [by rewrite length_fmap|].
  rewrite (at2_row _ i t _ Hrow). unfold at1 at 1.
  by rewrite list_lookup_fmap, Hc.
Qed.

Lemma stack_dim1_ok (bs : nat) (cols : list vec) :
  (0 < length cols)%nat -> exists A, stack_dim1 bs cols = Ok A.
Proof. destruct cols; simpl; [lia | eauto]. Qed.

Lemma gae_advantages_example :
  gae_advantages [[0; 0; 1]] [[0; 0; 0]] 1 1 = Ok [[1; 1; 1]].
Proof.
  unfold gae_advantages. cbn. unfold at1. cbn.
  do 2 f_equal. repeat (f_equal; try lra).
Qed.

(** C4. GAE follows the backward recurrence
    [delta_t = R_t + gamma * V_(t+1) - V_t] (with [V] beyond the last step
    taken as [0]) and [A_t = delta_t + gamma * lam * A_(t+1)]; the returned
    returns are the advantages before whitening plus the values at every
    position, and whitening is applied to the advantages only.  For
    [R = [[0,0,1]]], an all-ones mask, [gamma = lam = 1] and zero values, the
    advantages before whitening and the returns are both [[1,1,1]]. *)
Theorem gae_recurrence_and_returns (masked_whiten : mat -> mat -> mat)
    (token_level_rewards values eos_mask : mat) (gamma lam : R) :
  length values = length token_level_rewards ->
  (0 < width token_level_rewards)%nat ->
  Forall (fun r : vec => length r = width token_level_rewards) values ->
  (exists A,
     gae_advantages token_level_rewards values gamma lam = Ok A
     /\ compute_gae_advantage_return masked_whiten token_level_rewards values eos_mask
                                     gamma lam
        = Ok (masked_whiten A eos_mask, mmap2 Rplus A values)
     /\ forall i t, (i < length token_level_rewards)%nat ->
                    (t < width token_level_rewards)%nat ->
          at2 A i t
          = at2 token_level_rewards i t
            + gamma * (if (t + 1 <? width token_level_rewards)%nat
                       then at2 values i (t + 1) else 0)
            - at2 values i t
            + gamma * lam * (if (t + 1 <? width token_level_rewards)%nat
                             then at2 A i (t + 1) else 0)
          /\ at2 (mmap2 Rplus A values) i t = at2 A i t + at2 values i t)
  /\ gae_advantages [[0; 0; 1]] [[0; 0; 0]] 1 1 = Ok [[1; 1; 1]]
  /\ compute_gae_advantage_return masked_whiten [[0; 0; 1]] [[0; 0; 0]] [[1; 1; 1]] 1 1
     = Ok (masked_whiten [[1; 1; 1]] [[1; 1; 1]], [[1; 1; 1]]).
Proof.
  intros Hrows Hwidth Hvals. split.
  - pose proof (gae_columns token_level_rewards values gamma lam Hrows
                  (width token_level_rewards)
                  (replicate (length token_level_rewards) 0)
                  (length_replicate _ _)) as Hg.
    cbv zeta in Hg.
    remember (length token_level_rewards) as bs eqn:Hbs.
    remember (width token_level_rewards) as T eqn:HT.
    remember (reverse (gae_loop token_level_rewards values gamma lam T
                         (reverse (seq 0 T)) (replicate bs 0) [])) as cols eqn:Hcolsdef.
    destruct Hg as [Hlen Hcols].
    assert (Hne : (0 < length cols)%nat) by (rewrite Hlen; exact Hwidth).
    destruct (stack_dim1_ok bs cols Hne) as [A HA].
    assert (Hadv : gae_advantages token_level_rewards values gamma lam = Ok A).
    { unfold gae_advantages. rewrite <- Hbs, <- HT, <- Hcolsdef. exact HA. }
    exists A. split; [exact Hadv|]. split.
    { unfold compute_gae_advantage_return. by rewrite Hadv. }
    intros i t Hi Ht.
    destruct (Hcols t Ht) as (c & Hc & Hcl & Hstep).
    destruct (stack_dim1_at bs cols i t c A HA Hi Hc) as (row & Hrow & Hrl & Hat).
    split.
    + rewrite Hat, Hstep. clear Hcolsdef. subst T bs.
      rewrite (gae_step_at token_level_rewards values gamma lam Hrows).
      * set (T := width token_level_rewards) in *.
        replace (t <? T - 1)%nat with (t + 1 <? T)%nat
          by (destruct (Nat.ltb_spec (t + 1) T), (Nat.ltb_spec t (T - 1)); lia || done).
        destruct (Nat.ltb_spec (t + 1) T) as [Hlt|Hge].
        -- destruct (Hcols (t + 1)%nat Hlt) as (c' & Hc' & _ & _).
           destruct (stack_dim1_at _ cols i (t + 1) c' A HA Hi Hc') as (_ & _ & _ & Hat').
           rewrite Hc', Hat'. done.
        -- by rewrite at1_replicate_0.
      * destruct (Nat.ltb_spec (t + 1) (width token_level_rewards)) as [Hlt|Hge].
        -- destruct (Hcols (t + 1)%nat Hlt) as (c' & Hc' & Hcl' & _).
           rewrite Hc'. simpl. by rewrite Hcl'.
        -- rewrite length_replicate. done.
      * done.
    + assert (Hiv : (i < length values)%nat) by (rewrite Hrows; exact Hi).
      destruct (lookup_lt_is_Some_2 values i Hiv) as [vrow Hvrow].
      assert (Hvl : length vrow = T).
      { eapply (proj1 (Forall_lookup _ _) Hvals); eauto. }
      apply (at2_mmap2 Rplus A values i t row vrow Hrow Hvrow); lia.
  - split; [apply gae_advantages_example|].
    unfold compute_gae_advantage_return. rewrite gae_advantages_example. cbn.
    do 3 f_equal. repeat (f_equal; try lra).
Qed.

End GAEReturns.

(** ** The overflow branch of the rollout loop *)

Section RolloutOverflow.

Import Rollout.

Context {Image : Type}.
Variable env : Env Image.

#[local] Open Scope Z_scope.

Lemma pop_app {A : Type} (l : list A) (x : A) : pop (l ++ [x]) = l.
Proof.
  unfold pop. rewrite length_app. simpl.
  replace (length l + 1 - 1)%nat with (length l) by lia.
  by rewrite take_app_length.
Qed.

(** Whatever [process_tool_call] appended, [roll_back] removes. *)
Lemma roll_back_process_tool_call (b b' : Buffers Image) (decoded_resp_ : string)
    (iteration new_context_length : Z) (tool_outputs : ToolOutput Image) :
  process_tool_call env b decoded_resp_ iteration
    = Ok (new_context_length, tool_outputs, b') ->
  roll_back (prompt_token_ids b) tool_outputs b' = b.
Proof.
  unfold process_tool_call. intros H.
  destruct (prepare_grounding_inputs env decoded_resp_ _ _) as [err|[tool_type args]].
  - injection H as <- <- <-. simpl. rewrite pop_app. by destruct b.
  - destruct (String.eqb tool_type "grounding"); [|done].
    injection H as <- <- <-. simpl. rewrite !pop_app. by destruct b.
Qed.

Lemma rollout_loop_break (fuel : nat) (st st' : LoopState Image) :
  current_iteration st < max_iterations env ->
  rollout_round env st = Ok (st', true) ->
  rollout_loop env (S fuel) st = Ok st'.
Proof.
  intros Hlt Hround. simpl.
  rewrite bool_decide_eq_true_2 by done. by rewrite Hround.
Qed.

Lemma handle_response_overflow (g : LoopState Image) (results : EngineOutput)
    (response_ : list Z) (new_context_length : Z) (tool_outputs : ToolOutput Image)
    (b' : Buffers Image) :
  (0 < length (findall_grounding env (decode env response_)))%nat ->
  Z.of_nat (length (images (buffers g))) < max_image_num env ->
  current_iteration g ≠ max_iterations env - 1 ->
  context_length g < max_total_response_length env - 2000 ->
  process_tool_call env (buffers g) (decode env response_) (current_iteration g)
    = Ok (new_context_length, tool_outputs, b') ->
  max_total_response_length env - 2000 ≤ context_length g + new_context_length ->
  handle_response env g results response_
  = Ok (mkLoopState (buffers g) (context_length g + new_context_length)
                    (current_iteration g) true (void g), true).
Proof.
  intros Htool Himg Hlast Hroom Hcall Hover. unfold handle_response.
  rewrite (proj2 (Nat.ltb_lt _ _) Htool).
  rewrite (bool_decide_eq_false_2 (max_image_num env ≤ _)) by lia.
  rewrite (bool_decide_eq_false_2 (current_iteration g = _)) by done.
  rewrite (bool_decide_eq_false_2 (_ ≤ context_length g)) by lia.
  cbn [orb]. rewrite Hcall. cbn [mbind result_bind].
  rewrite bool_decide_eq_true_2 by done.
  by rewrite (roll_back_process_tool_call _ _ _ _ _ _ Hcall).
Qed.

(** C3. When the observation appended by a tool call brings the context
    length within the margin of 2000 tokens of the maximum total response
    length, the round leaves the loop with the request marked as exceeded,
    and the buffers are back to what they were before the tool call: the
    token buffer (so its length too), the images, the image sizes, the
    observations and the mask fragments. *)
Theorem tool_call_overflow_rolls_back (st : LoopState Image)
    (new_context_length : Z) (tool_outputs : ToolOutput Image) (b' : Buffers Image) :
  let gen := after_generation env st in
  let decoded_resp_ := decode env (response_of env st) in
  current_iteration st < max_iterations env ->
  (0 < length (findall_grounding env decoded_resp_))%nat ->
  Z.of_nat (length (images (buffers gen))) < max_image_num env ->
  current_iteration st ≠ max_iterations env - 1 ->
  context_length gen < max_total_response_length env - 2000 ->
  process_tool_call env (buffers gen) decoded_resp_ (current_iteration st)
    = Ok (new_context_length, tool_outputs, b') ->
  max_total_response_length env - 2000 ≤ context_length gen + new_context_length ->
  exists st',
    rollout_round env st = Ok (st', true)
    /\ rollout env st = Ok st'
    /\ exceed st' = true
    /\ buffers st' = buffers gen
    /\ length (prompt_token_ids (buffers st')) = length (prompt_token_ids (buffers gen)).
Proof.
  intros gen decoded_resp_ Hiter Htool Himg Hlast Hroom Hcall Hover.
  set (st' := mkLoopState (buffers gen) (context_length gen + new_context_length)
                          (current_iteration gen) true (void gen)).
  assert (Hround : rollout_round env st = Ok (st', true)).
  { unfold rollout_round. fold gen.
    by apply (handle_response_overflow gen _ _ new_context_length tool_outputs b'). }
  exists st'. split; [exact Hround|]. split; [|done].
  unfold rollout.
  destruct (Z.to_nat (max_iterations env - current_iteration st)) as [|fuel] eqn:Hfuel;
    [lia|].
  by apply rollout_loop_break.
Qed.

End RolloutOverflow.

(** ** Grouping rows by prompt index *)

Section Grouping.

Implicit Types (index : list Z) (scores : vec) (d : gmap Z (list R)) (k : Z).

Lemma foldl_append_score_lookup index scores d k :
  foldl (fun d ks => append_score d ks.1 ks.2) d (zip index scores) !! k
  = match group_of k index scores with
    | [] => d !! k
    | G => Some (default [] (d !! k) ++ G)
    end.
Proof.
  unfold group_of. revert d.
  generalize (zip index scores) as l. clear index scores.
  induction l as [|[k' s] l IH]; intros d; [done|].
  simpl foldl. rewrite IH. rewrite filter_cons. simpl.
  unfold append_score at 1 2. simpl.
  destruct (decide (k' = k)) as [->|Hne].
  - rewrite lookup_insert_eq. csimpl.
    destruct (snd <$> filter _ l) as [|x G]; csimpl.
    + done.
    + by rewrite <- app_assoc.
  - rewrite lookup_insert_ne by done. done.
Qed.

Lemma collect_scores_lookup index scores k :
  collect_scores index scores !! k
  = match group_of k index scores with
    | [] => None
    | G => Some G
    end.
Proof.
  unfold collect_scores. rewrite foldl_append_score_lookup, lookup_empty.
  by destruct (group_of k index scores).
Qed.

Lemma group_of_elem index scores k s :
  (k, s) ∈ zip index scores -> s ∈ group_of k index scores.
Proof.
  intros Hin. unfold group_of. apply list_elem_of_fmap.
  exists (k, s). split; [done|]. by apply list_elem_of_filter.
Qed.

Lemma collect_scores_member index scores k s :
  (k, s) ∈ zip index scores ->
  collect_scores index scores !! k = Some (group_of k index scores)
  /\ (1 <= length (group_of k index scores))%nat.
Proof.
  intros Hin. apply group_of_elem in Hin.
  rewrite collect_scores_lookup.
  destruct (group_of k index scores) as [|x G]; [by apply elem_of_nil in Hin|].
  split; [done | simpl; lia].
Qed.

Lemma collect_scores_nonempty index scores k G :
  collect_scores index scores !! k = Some G -> (1 <= length G)%nat.
Proof.
  rewrite collect_scores_lookup.
  destruct (group_of k index scores) as [|x G']; [done|].
  intros [= <-]. simpl. lia.
Qed.

Lemma traverse_ok {A B : Type} (f : A -> result B) (g : A -> B) (l : list A) :
  (forall x, x ∈ l -> f x = Ok (g x)) -> traverse f l = Ok (g <$> l).
Proof.
  induction l as [|a l IH]; intros Hf; [done|].
  simpl. rewrite Hf by apply list_elem_of_here.
  simpl. rewrite IH; [done|]. intros x Hx. apply Hf. by apply list_elem_of_further.
Qed.

(** The statistics pass over the groups: it fills both dicts when every
    group has a member, and raises [ValueError] on a group without one. *)
Lemma grpo_stats_spec d :
  ((forall k G, d !! k = Some G -> (1 <= length G)%nat) ->
   grpo_stats d = Ok (grpo_mean_of <$> d, grpo_std_of <$> d))
  /\ ((exists k, d !! k = Some []) -> grpo_stats d = Raise ValueError)
  /\ (grpo_stats d = Raise ValueError \/ exists v, grpo_stats d = Ok v).
Proof.
  unfold grpo_stats.
  apply (map_fold_weak_ind (fun r m =>
    ((forall k G, m !! k = Some G -> (1 <= length G)%nat) ->
     r = Ok (grpo_mean_of <$> m, grpo_std_of <$> m))
    /\ ((exists k, m !! k = Some []) -> r = Raise ValueError)
    /\ (r = Raise ValueError \/ exists v, r = Ok v))).
  - split; [by rewrite !fmap_empty|]. split; [|eauto].
    intros [k Hk]. by rewrite lookup_empty in Hk.
  - intros i G m r Hi (IH1 & IH2 & IH3).
    assert (Hstat : (1 <= length G)%nat ->
              grpo_group_stat G = Ok (grpo_mean_of G, grpo_std_of G)).
    { intros HG. unfold grpo_group_stat, grpo_mean_of, grpo_std_of.
      destruct (Nat.eqb_spec (length G) 1); [done|].
      destruct (Nat.ltb_spec 1 (length G)); [done | lia]. }
    split; [|split].
    + intros Hall.
      rewrite IH1.
      * simpl. rewrite Hstat by (apply (Hall i); apply lookup_insert_eq).
        simpl. by rewrite !fmap_insert.
      * intros k G' Hk. apply (Hall k).
        rewrite lookup_insert_ne; [done|]. intros ->. congruence.
    + intros [k Hk]. destruct (decide (i = k)) as [->|Hne].
      * rewrite lookup_insert_eq in Hk. injection Hk as ->.
        destruct IH3 as [-> | [v ->]]; done.
      * rewrite lookup_insert_ne in Hk by done. rewrite IH2 by eauto. done.
    + destruct IH3 as [-> | [v ->]]; [by left|]. simpl.
      unfold grpo_group_stat.
      destruct (length G =? 1)%nat; [right; eauto|].
      destruct (1 <? length G)%nat; [right; eauto | by left].
Qed.

Lemma rloo_stats_spec d :
  ((forall k G, d !! k = Some G -> (1 <= length G)%nat) ->
   rloo_stats d = Ok (grpo_mean_of <$> d))
  /\ ((exists k, d !! k = Some []) -> rloo_stats d = Raise ValueError)
  /\ (rloo_stats d = Raise ValueError \/ exists v, rloo_stats d = Ok v).
Proof.
  unfold rloo_stats.
  apply (map_fold_weak_ind (fun r m =>
    ((forall k G, m !! k = Some G -> (1 <= length G)%nat) ->
     r = Ok (grpo_mean_of <$> m))
    /\ ((exists k, m !! k = Some []) -> r = Raise ValueError)
    /\ (r = Raise ValueError \/ exists v, r = Ok v))).
  - split; [by rewrite !fmap_empty|]. split; [|eauto].
    intros [k Hk]. by rewrite lookup_empty in Hk.
  - intros i G m r Hi (IH1 & IH2 & IH3).
    assert (Hstat : (1 <= length G)%nat -> rloo_group_mean G = Ok (grpo_mean_of G)).
    { intros HG. unfold rloo_group_mean, grpo_mean_of.
      destruct (Nat.eqb_spec (length G) 1); [done|].
      destruct (Nat.ltb_spec 1 (length G)); [done | lia]. }
    split; [|split].
    + intros Hall.
      rewrite IH1.
      * simpl. rewrite Hstat by (apply (Hall i); apply lookup_insert_eq).
        simpl. by rewrite !fmap_insert.
      * intros k G' Hk. apply (Hall k).
        rewrite lookup_insert_ne; [done|]. intros ->. congruence.
    + intros [k Hk]. destruct (decide (i = k)) as [->|Hne].
      * rewrite lookup_insert_eq in Hk. injection Hk as ->.
        destruct IH3 as [-> | [v ->]]; done.
      * rewrite lookup_insert_ne in Hk by done. rewrite IH2 by eauto. done.
    + destruct IH3 as [-> | [v ->]]; [by left|]. simpl.
      unfold rloo_group_mean.
      destruct (length G =? 1)%nat; [right; eauto|].
      destruct (1 <? length G)%nat; [right; eauto | by left].
Qed.

End Grouping.

(** ** Closed forms of the group-normalised scores *)

Section GroupScores.

Variables (token_level_rewards : mat) (index : list Z).

Let scores := row_sum token_level_rewards.

Lemma grpo_scores_closed (epsilon : R) (norm_adv_by_std_in_grpo : bool)
    (norm_by_importance : string) (scale : R) :
  grpo_scores token_level_rewards index epsilon norm_adv_by_std_in_grpo
              norm_by_importance scale
  = Ok (grpo_row index scores epsilon norm_adv_by_std_in_grpo norm_by_importance scale
          <$> zip index scores).
Proof.
  unfold grpo_scores. fold scores.
  rewrite (proj1 (grpo_stats_spec _)) by apply collect_scores_nonempty.
  cbn [mbind result_bind fst snd].
  apply traverse_ok. intros [k s] Hin.
  destruct (collect_scores_member index scores k s Hin) as [Hk _].
  unfold grpo_normalize, grpo_row, getitem. cbn [fst snd].
  rewrite !lookup_fmap, Hk. cbn.
  destruct norm_adv_by_std_in_grpo; [done|].
  destruct (String.eqb norm_by_importance "v1"); done.
Qed.

Lemma rloo_scores_closed :
  rloo_scores token_level_rewards index = Ok (rloo_row index scores <$> zip index scores).
Proof.
  unfold rloo_scores. fold scores.
  rewrite (proj1 (rloo_stats_spec _)) by apply collect_scores_nonempty.
  cbn [mbind result_bind].
  apply traverse_ok. intros [k s] Hin.
  destruct (collect_scores_member index scores k s Hin) as [Hk _].
  unfold rloo_rescale, rloo_row, getitem. cbn [fst snd].
  rewrite !lookup_fmap, Hk.
  cbn [fmap option_fmap option_map default Datatypes.id mbind result_bind].
  destruct (1 <? length (group_of k index scores))%nat; done.
Qed.

End GroupScores.

(** ** Masked positions of the outputs *)

Section MaskedOutputs.

Lemma at2_tile_mul_masked (s : vec) (mask : mat) (i t : nat) :
  at2 mask i t = 0 -> at2 (tile_mul s mask) i t = 0.
Proof.
  unfold at2, tile_mul. rewrite lookup_zip_with.
  destruct (s !! i) as [x|]; [|done].
  destruct (mask !! i) as [r|]; [|done]. cbn.
  rewrite list_lookup_fmap. destruct (r !! t) as [m|]; [|done]. cbn.
  intros ->. lra.
Qed.

Lemma at2_mmap2_mul_masked (a mask : mat) (i t : nat) :
  at2 mask i t = 0 -> at2 (mmap2 Rmult a mask) i t = 0.
Proof.
  unfold at2, mmap2. rewrite lookup_zip_with.
  destruct (a !! i) as [r|]; [|done].
  destruct (mask !! i) as [m|]; [|done]. cbn.
  rewrite lookup_zip_with.
  destruct (r !! t) as [x|]; [|done].
  destruct (m !! t) as [y|]; [|done]. cbn.
  intros ->. lra.
Qed.

Lemma at2_mmap2_minus_zero (a b : mat) (i t : nat) :
  at2 a i t = 0 -> at2 b i t = 0 -> at2 (mmap2 Rminus a b) i t = 0.
Proof.
  unfold at2, mmap2. rewrite lookup_zip_with.
  destruct (a !! i) as [r|]; [|done].
  destruct (b !! i) as [m|]; [|done]. cbn.
  rewrite lookup_zip_with.
  destruct (r !! t) as [x|]; [|done].
  destruct (m !! t) as [y|]; [|done]. cbn.
  intros -> ->. lra.
Qed.

Lemma cumsum_from_app (acc : R) (u v : vec) :
  cumsum_from acc (u ++ v) = cumsum_from acc u ++ cumsum_from (acc + vsum u) v.
Proof.
  revert acc. induction u as [|x u IH]; intros acc; simpl.
  - f_equal. unfold vsum. simpl. lra.
  - rewrite IH. do 3 f_equal. unfold vsum. simpl. lra.
Qed.

Lemma vsum_reverse (v : vec) : vsum (reverse v) = vsum v.
Proof.
  induction v as [|x v IH]; [done|].
  rewrite reverse_cons, vsum_app, IH. unfold vsum. simpl. lra.
Qed.

(** The reverse cumulative sum of a row holds its suffix sums. *)
Lemma rev_cumsum_row_at (r : vec) (t : nat) :
  at1 (reverse (cumsum (reverse r))) t = vsum (drop t r).
Proof.
  revert t. induction r as [|x r IH]; intros t.
  - by rewrite drop_nil.
  - rewrite reverse_cons. unfold cumsum in *. rewrite cumsum_from_app.
    rewrite reverse_app. simpl cumsum_from. rewrite reverse_singleton.
    destruct t as [|t]; simpl.
    + unfold at1. simpl. rewrite vsum_reverse. unfold vsum. simpl. lra.
    + rewrite <- IH. done.
Qed.

Lemma vsum_all_zero (v : vec) : (forall j, at1 v j = 0) -> vsum v = 0.
Proof.
  induction v as [|x v IH]; intros H; [done|].
  unfold vsum in *. simpl. rewrite IH.
  - specialize (H 0%nat). unfold at1 in H. simpl in H. lra.
  - intros j. apply (H (S j)).
Qed.

Lemma remax_returns_masked_suffix (token_level_rewards eos_mask : mat) (i t : nat) :
  (forall t', (t <= t')%nat -> at2 eos_mask i t' = 0) ->
  at2 (rev_cumsum (mmap2 Rmult token_level_rewards eos_mask)) i t = 0.
Proof.
  intros Hsuffix. unfold rev_cumsum.
  destruct (mmap2 Rmult token_level_rewards eos_mask !! i) as [r|] eqn:Hr.
  - rewrite (at2_row _ i t (reverse (cumsum (reverse r))))
      by (by rewrite list_lookup_fmap, Hr).
    rewrite rev_cumsum_row_at. apply vsum_all_zero. intros j.
    unfold at1. rewrite lookup_drop.
    pose proof (at2_mmap2_mul_masked token_level_rewards eos_mask i (t + j)
                  (Hsuffix (t + j)%nat ltac:(lia))) as Hz.
    unfold at2 in Hz. by rewrite Hr in Hz.
  - unfold at2. by rewrite list_lookup_fmap, Hr.
Qed.

End MaskedOutputs.

(** ** Singleton groups and the sum over a group *)

Section GroupFacts.

Lemma group_of_fmap_zip (g : Z * R -> R) (k : Z) (index : list Z) (scores : vec) :
  group_of k index (g <$> zip index scores)
  = (fun s => g (k, s)) <$> group_of k index scores.
Proof.
  unfold group_of. revert scores.
  induction index as [|k' index IH]; intros [|s scores]; try done.
  csimpl. rewrite !filter_cons. cbn [fst].
  destruct (decide (k' = k)) as [->|Hne]; csimpl; by rewrite IH.
Qed.

Lemma vsum_affine (a b : R) (v : vec) :
  vsum ((fun s => s * a - b) <$> v) = vsum v * a - INR (length v) * b.
Proof.
  induction v as [|x v IH]; [unfold vsum; simpl; lra|].
  rewrite fmap_cons, length_cons, S_INR.
  unfold vsum in *. simpl. rewrite IH. lra.
Qed.

Lemma singleton_group_member (k : Z) (index : list Z) (scores : vec) (i : nat) (s : R) :
  zip index scores !! i = Some (k, s) ->
  length (group_of k index scores) = 1%nat ->
  group_of k index scores = [s].
Proof.
  intros Hi Hlen.
  assert (Hin : s ∈ group_of k index scores).
  { apply group_of_elem. by eapply list_elem_of_lookup_2. }
  destruct (group_of k index scores) as [|x [|y G]]; try done.
  apply list_elem_of_singleton in Hin. by subst.
Qed.

Lemma rloo_group_sum (index : list Z) (scores : vec) (k : Z) :
  (1 < length (group_of k index scores))%nat ->
  vsum (group_of k index (rloo_row index scores <$> zip index scores)) = 0.
Proof.
  intros Hk. rewrite group_of_fmap_zip.
  set (G := group_of k index scores) in *.
  set (n := INR (length G)).
  assert (Hn : 2 <= n).
  { unfold n. change 2 with (INR 2). apply le_INR. lia. }
  assert (Hrow : forall s, rloo_row index scores (k, s)
                           = s * (n / (n - 1)) - mean G * n / (n - 1)).
  { intros s. unfold rloo_row. cbn [fst snd]. fold G.
    rewrite (proj2 (Nat.ltb_lt _ _) Hk). unfold grpo_mean_of.
    destruct (Nat.eqb_spec (length G) 1); [lia|]. fold n. lra. }
  rewrite (list_fmap_ext _ (fun s => s * (n / (n - 1)) - mean G * n / (n - 1)) G)
    by (intros; apply Hrow).
  rewrite vsum_affine. unfold mean. fold n. field. lra.
Qed.

End GroupFacts.

(** ** The estimators and the response mask *)

Section EstimatorClaims.

(** C1 (as the code has it). For [epsilon > 0] and [scale > 0], where no
    divisor of the GRPO normalisation is [0], positions where the response
    mask is [0] are zero in both outputs of GRPO and of RLOO and in the
    advantages of REINFORCE++; ReMax depends on the rewards only through
    rewards times mask, and both its outputs are zero at a position from
    which the mask is [0] up to the end of the row. *)
Theorem masked_positions_zero (masked_whiten : mat -> mat -> mat)
    (token_level_rewards eos_mask : mat) (index : list Z) (epsilon : R)
    (norm_adv_by_std_in_grpo : bool) (norm_by_importance : string)
    (scale gamma : R) (reward_baselines : vec) :
  0 < epsilon -> 0 < scale ->
  (exists adv,
     compute_grpo_outcome_advantage token_level_rewards eos_mask index epsilon
       norm_adv_by_std_in_grpo norm_by_importance scale = Ok (adv, adv)
     /\ forall i t, at2 eos_mask i t = 0 -> at2 adv i t = 0)
  /\ (exists adv,
        compute_rloo_outcome_advantage token_level_rewards eos_mask index epsilon
          = Ok (adv, adv)
        /\ forall i t, at2 eos_mask i t = 0 -> at2 adv i t = 0)
  /\ (forall i t, at2 eos_mask i t = 0 ->
        at2 (compute_reinforce_plus_plus_outcome_advantage masked_whiten
               token_level_rewards eos_mask gamma).1 i t = 0)
  /\ (forall rewards',
        mmap2 Rmult rewards' eos_mask = mmap2 Rmult token_level_rewards eos_mask ->
        compute_remax_outcome_advantage rewards' reward_baselines eos_mask
        = compute_remax_outcome_advantage token_level_rewards reward_baselines eos_mask)
  /\ (forall i t, (forall t', (t <= t')%nat -> at2 eos_mask i t' = 0) ->
        at2 (compute_remax_outcome_advantage token_level_rewards reward_baselines
               eos_mask).1 i t = 0
        /\ at2 (compute_remax_outcome_advantage token_level_rewards reward_baselines
                  eos_mask).2 i t = 0).
Proof.
  intros _ _. split; [|split; [|split; [|split]]].
  - unfold compute_grpo_outcome_advantage. rewrite grpo_scores_closed.
    eexists. split; [reflexivity|]. intros i t. apply at2_tile_mul_masked.
  - unfold compute_rloo_outcome_advantage. rewrite rloo_scores_closed.
    eexists. split; [reflexivity|]. intros i t. apply at2_tile_mul_masked.
  - intros i t. apply at2_mmap2_mul_masked.
  - intros rewards' Heq. unfold compute_remax_outcome_advantage. by rewrite Heq.
  - intros i t Hsuffix. unfold compute_remax_outcome_advantage. cbn [fst snd].
    split.
    + apply at2_mmap2_minus_zero.
      * by apply remax_returns_masked_suffix.
      * apply at2_tile_mul_masked. apply Hsuffix. lia.
    + by apply remax_returns_masked_suffix.
Qed.

(** C2 (as the code has it). For a row whose group has exactly one member,
    GRPO uses the statistics mean [0] and std [1]: the std-normalised score
    is [(score - 0) / (1 + epsilon)], whose divisor is not zero for
    [epsilon >= 0], and the mean-only score is [score - 0]; RLOO leaves the
    score of such a row unchanged.  A group without members makes the
    statistics pass of both estimators raise [ValueError]. *)
Theorem singleton_group_scores (token_level_rewards eos_mask : mat) (index : list Z)
    (epsilon scale : R) (norm_by_importance mean_only : string)
    (i : nat) (k : Z) (s : R) :
  zip index (row_sum token_level_rewards) !! i = Some (k, s) ->
  length (group_of k index (row_sum token_level_rewards)) = 1%nat ->
  String.eqb mean_only "v1" = false ->
  0 <= epsilon ->
  (exists sc,
     grpo_scores token_level_rewards index epsilon true norm_by_importance scale = Ok sc
     /\ sc !! i = Some ((s - 0) / (1 + epsilon))
     /\ 1 + epsilon <> 0
     /\ compute_grpo_outcome_advantage token_level_rewards eos_mask index epsilon
          true norm_by_importance scale = Ok (tile_mul sc eos_mask, tile_mul sc eos_mask))
  /\ (exists sc,
        grpo_scores token_level_rewards index epsilon false mean_only scale = Ok sc
        /\ sc !! i = Some (s - 0)
        /\ compute_grpo_outcome_advantage token_level_rewards eos_mask index epsilon
             false mean_only scale = Ok (tile_mul sc eos_mask, tile_mul sc eos_mask))
  /\ (exists sc,
        rloo_scores token_level_rewards index = Ok sc
        /\ sc !! i = Some s
        /\ compute_rloo_outcome_advantage token_level_rewards eos_mask index epsilon
           = Ok (tile_mul sc eos_mask, tile_mul sc eos_mask))
  /\ (forall (id2score : gmap Z (list R)) (idx : Z),
        id2score !! idx = Some [] ->
        grpo_stats id2score = Raise ValueError /\ rloo_stats id2score = Raise ValueError).
Proof.
  intros Hi Hone Hmode Heps.
  assert (HG : group_of k index (row_sum token_level_rewards) = [s])
    by by eapply singleton_group_member.
  repeat split.
  - eexists. split; [apply grpo_scores_closed|]. split; [|split].
    + rewrite list_lookup_fmap, Hi. cbn [fmap option_fmap option_map].
      unfold grpo_row. cbn [fst snd]. rewrite HG. done.
    + lra.
    + unfold compute_grpo_outcome_advantage. by rewrite grpo_scores_closed.
  - eexists. split; [apply grpo_scores_closed|]. split.
    + rewrite list_lookup_fmap, Hi. cbn [fmap option_fmap option_map].
      unfold grpo_row. cbn [fst snd]. rewrite HG, Hmode. done.
    + unfold compute_grpo_outcome_advantage. by rewrite grpo_scores_closed.
  - eexists. split; [apply rloo_scores_closed|]. split.
    + rewrite list_lookup_fmap, Hi. cbn [fmap option_fmap option_map].
      unfold rloo_row. cbn [fst snd]. rewrite HG. done.
    + unfold compute_rloo_outcome_advantage. by rewrite rloo_scores_closed.
  - apply grpo_stats_spec. eauto.
  - apply rloo_stats_spec. eauto.
Qed.

(** C5 (as the code has it). For every group with more than one member,
    the RLOO scores of the rows of the group sum to [0]. *)
Theorem rloo_group_sum_zero (token_level_rewards : mat) (index : list Z) (k : Z) :
  (1 < length (group_of k index (row_sum token_level_rewards)))%nat ->
  exists sc,
    rloo_scores token_level_rewards index = Ok sc
    /\ vsum (group_of k index sc) = 0.
Proof.
  intros Hk. eexists. split; [apply rloo_scores_closed|].
  by apply rloo_group_sum.
Qed.

End EstimatorClaims.

(** ** Concrete runs *)

Section ConcreteRuns.

Example reinforce_returns_run :
  reinforce_returns [[1; 1; 1]] [[1; 1; 0]] 1 = [[2; 1; 1]].
Proof.
  unfold reinforce_returns. cbn. unfold at1. cbn.
  repeat (f_equal; try lra).
Qed.

Example gae_advantages_run :
  gae_advantages [[1; 1; 1]] [[0; 0; 0]] 1 1 = Ok [[3; 2; 1]].
Proof.
  unfold gae_advantages. cbn. unfold at1. cbn.
  do 2 f_equal. repeat (f_equal; try lra).
Qed.

Example remax_run :
  compute_remax_outcome_advantage [[1; 1]] [0] [[0; 1]] = ([[1; 1]], [[1; 1]]).
Proof.
  unfold compute_remax_outcome_advantage. cbn.
  repeat (f_equal; try lra).
Qed.

(** C1, counterexample. With mask [[0, 1]] and rewards [[1, 1]] the ReMax
    return at the masked position [0] is not zero; with mask [[1, 1, 0]] and
    rewards [[1, 1, 1]] the GAE and the REINFORCE++ returns at the masked
    last position are not zero, whatever the whitening is; and a reward at
    a masked position changes the GRPO score of its row. *)
Lemma masked_position_nonzero :
  (at2 [[0; 1]] 0 0 = 0
   /\ at2 (compute_remax_outcome_advantage [[1; 1]] [0] [[0; 1]]).2 0 0 <> 0)
  /\ (at2 [[1; 1; 0]] 0 2 = 0
      /\ forall masked_whiten, exists adv ret,
           compute_gae_advantage_return masked_whiten [[1; 1; 1]] [[0; 0; 0]]
                                        [[1; 1; 0]] 1 1 = Ok (adv, ret)
           /\ at2 ret 0 2 <> 0)
  /\ (at2 [[1; 1; 0]] 0 2 = 0
      /\ forall masked_whiten,
           at2 (compute_reinforce_plus_plus_outcome_advantage masked_whiten
                  [[1; 1; 1]] [[1; 1; 0]] 1).2 0 2 <> 0)
  /\ (at2 [[1; 0]] 0 1 = 0
      /\ grpo_scores [[0; 1]] [7%Z] 0 false "none" 1
         <> grpo_scores [[0; 0]] [7%Z] 0 false "none" 1).
Proof.
  split; [|split; [|split]].
  - split; [reflexivity|]. cbn. unfold at2. cbn. lra.
  - split; [reflexivity|]. intros masked_whiten. eexists _, _.
    split; [reflexivity|]. unfold at2, at1. cbn. lra.
  - split; [reflexivity|]. intros masked_whiten. unfold at2, at1. cbn. lra.
  - split; [reflexivity|]. rewrite !grpo_scores_closed.
    unfold grpo_row, group_of. cbn. rewrite !decide_True by done.
    unfold grpo_mean_of. cbn. intros [= Heq]. lra.
Qed.

(** C2, counterexample. A batch of one row with reward [1]: its group is a
    singleton, and both the RLOO advantage and the mean-only GRPO advantage
    of the row are [1], not [0]. *)
Lemma singleton_group_advantage_nonzero :
  length (group_of 7 [7%Z] (row_sum [[1]])) = 1%nat
  /\ (exists adv,
        compute_rloo_outcome_advantage [[1]] [[1]] [7%Z] 0 = Ok (adv, adv)
        /\ at2 adv 0 0 <> 0)
  /\ (exists adv,
        compute_grpo_outcome_advantage [[1]] [[1]] [7%Z] 0 false "none" 1 = Ok (adv, adv)
        /\ at2 adv 0 0 <> 0).
Proof.
  split; [reflexivity|]. split.
  - unfold compute_rloo_outcome_advantage. rewrite rloo_scores_closed.
    eexists. split; [reflexivity|].
    unfold rloo_row, group_of, at2. cbn. rewrite !decide_True by done. cbn. lra.
  - unfold compute_grpo_outcome_advantage. rewrite grpo_scores_closed.
    eexists. split; [reflexivity|].
    unfold grpo_row, group_of, at2. cbn. rewrite !decide_True by done.
    unfold grpo_mean_of. cbn. lra.
Qed.

(** C5, counterexample. For a group with the single row of reward [1] the
    RLOO scores of the group sum to [1]. *)
Lemma rloo_singleton_sum_nonzero :
  length (group_of 7 [7%Z] (row_sum [[1]])) = 1%nat
  /\ exists sc,
       rloo_scores [[1]] [7%Z] = Ok sc
       /\ vsum (group_of 7 [7%Z] sc) <> 0.
Proof.
  split; [reflexivity|]. rewrite rloo_scores_closed.
  eexists. split; [reflexivity|].
  unfold rloo_row, group_of. cbn. rewrite !decide_True by done. cbn. lra.
Qed.

End ConcreteRuns.

(** ** The theorems at concrete inputs *)

Section Witnesses.

(** [masked_positions_zero] on one row whose second token is masked. *)
Lemma masked_positions_zero_witness :
  0 < 1e-6
  /\ 0 < 1
  /\ at2 [[1; 0]] 0 1 = 0
  /\ exists adv,
       compute_grpo_outcome_advantage [[1; 0]] [[1; 0]] [7%Z] 1e-6 true "v1" 1
       = Ok (adv, adv)
       /\ at2 adv 0 1 = 0.
Proof.
  assert (H1 : 0 < 1e-6) by lra.
  assert (H2 : 0 < 1) by lra.
  split; [exact H1|]. split; [exact H2|]. split; [reflexivity|].
  destruct (masked_positions_zero no_whiten [[1; 0]] [[1; 0]] [7%Z] 1e-6 true "v1" 1 1 [0]
              H1 H2)
    as [[adv [Hadv Hzero]] _].
  exists adv. split; [exact Hadv|]. apply Hzero. reflexivity.
Defined.

(** [singleton_group_scores] on a batch of one row with reward [1]. *)
Lemma singleton_group_scores_witness :
  zip [7%Z] (row_sum [[1]]) !! 0%nat = Some (7%Z, vsum [1])
  /\ length (group_of 7 [7%Z] (row_sum [[1]])) = 1%nat
  /\ String.eqb "none" "v1" = false
  /\ 0 <= 0
  /\ exists sc, rloo_scores [[1]] [7%Z] = Ok sc /\ sc !! 0%nat = Some (vsum [1]).
Proof.
  assert (H1 : zip [7%Z] (row_sum [[1]]) !! 0%nat = Some (7%Z, vsum [1])) by reflexivity.
  assert (H2 : length (group_of 7 [7%Z] (row_sum [[1]])) = 1%nat) by reflexivity.
  assert (H3 : String.eqb "none" "v1" = false) by reflexivity.
  assert (H4 : 0 <= 0) by lra.
  repeat split; try assumption.
  destruct (singleton_group_scores [[1]] [[1]] [7%Z] 0 1 "v1" "none" 0 7 (vsum [1])
              H1 H2 H3 H4) as (_ & _ & (sc & Hsc & Hi & _) & _).
  exists sc. split; assumption.
Defined.

(** [tool_call_overflow_rolls_back] on [st0] in [env0]: the crop of the
    first round costs 5002 tokens of context, above the margin at 4000. *)
Lemma tool_call_overflow_rolls_back_witness :
  exists st',
    Rollout.rollout env0 st0 = Ok st'
    /\ Rollout.exceed st' = true
    /\ Rollout.buffers st' = Rollout.buffers (Rollout.after_generation env0 st0).
Proof.
  destruct (tool_call_overflow_rolls_back env0 st0 5002%Z (Rollout.ToolImage 0%nat)
              b0_after_tool) as (st' & _ & Hrun & Hexceed & Hbuf & _).
  - simpl. lia.
  - simpl. lia.
  - simpl. lia.
  - simpl. lia.
  - simpl. lia.
  - reflexivity.
  - simpl. lia.
  - exists st'. repeat split; assumption.
Defined.

(** [gae_recurrence_and_returns] on the rewards [[0, 0, 1]]. *)
Lemma gae_recurrence_and_returns_witness :
  length [[0; 0; 0]] = length [[0; 0; 1]]
  /\ (0 < width [[0; 0; 1]]%R)%nat
  /\ Forall (fun r : vec => length r = width [[0; 0; 1]]) [[0; 0; 0]]
  /\ compute_gae_advantage_return no_whiten [[0; 0; 1]] [[0; 0; 0]] [[1; 1; 1]] 1 1
     = Ok (no_whiten [[1; 1; 1]] [[1; 1; 1]], [[1; 1; 1]]).
Proof.
  assert (H1 : length [[0; 0; 0]] = length [[0; 0; 1]]) by reflexivity.
  assert (H2 : (0 < width [[0; 0; 1]]%R)%nat) by (simpl; lia).
  assert (H3 : Forall (fun r : vec => length r = width [[0; 0; 1]]) [[0; 0; 0]])
    by (repeat constructor).
  repeat split; try assumption.
  apply (gae_recurrence_and_returns no_whiten [[0; 0; 1]] [[0; 0; 0]] [[1; 1; 1]] 1 1
           H1 H2 H3).
Defined.

(** [rloo_group_sum_zero] on a group of two rows with rewards [1] and [3]. *)
Lemma rloo_group_sum_zero_witness :
  (1 < length (group_of 7 [7%Z; 7%Z] (row_sum [[1]; [3]]%R)))%nat
  /\ exists sc,
       rloo_scores [[1]; [3]] [7%Z; 7%Z] = Ok sc
       /\ vsum (group_of 7 [7%Z; 7%Z] sc) = 0.
Proof.
  assert (H1 : (1 < length (group_of 7 [7%Z; 7%Z] (row_sum [[1]; [3]]%R)))%nat)
    by (simpl; lia).
  split; [exact H1|].
  apply (rloo_group_sum_zero [[1]; [3]] [7%Z; 7%Z] 7 H1).
Defined.

(** [clipfrac_monotone] for one live token, shrinking the range from [0.2]
    to [0.1]. *)
Lemma clipfrac_monotone_witness :
  is_agg_mode "token-mean" = true
  /\ binary [[1]]
  /\ 0 < msum [[1]]
  /\ 0 < 0.1 <= 0.2
  /\ exists pg_loss frac ppo_kl pg_loss' frac' ppo_kl',
       compute_policy_loss [[0]] [[0]] [[1]] [[1]] (Some 0.2) None None "token-mean" 1
       = Ok (pg_loss, frac, ppo_kl)
       /\ compute_policy_loss [[0]] [[0]] [[1]] [[1]] (Some 0.1) None None "token-mean" 1
          = Ok (pg_loss', frac', ppo_kl')
       /\ frac <= frac'.
Proof.
  assert (H1 : is_agg_mode "token-mean" = true) by reflexivity.
  assert (H2 : binary [[1]]) by (repeat constructor; right; reflexivity).
  assert (H3 : 0 < msum [[1]]) by (unfold msum, row_sum, vsum; simpl; lra).
  assert (H4 : 0 < 0.1 <= 0.2) by lra.
  repeat split; try assumption; try lra.
  apply (clipfrac_monotone [[0]] [[0]] [[1]] [[1]] "token-mean" 1 0.2 0.1 H1 H2 H3 H4).
Defined.

(** [agg_loss_full_mask] on a rectangular two by two loss matrix. *)
Lemma agg_loss_full_mask_witness :
  rectangular [[1; 2]; [3; 4]]
  /\ agg_loss [[1; 2]; [3; 4]] (ones_like [[1; 2]; [3; 4]]) "seq-mean-token-sum-norm" 1 0
     = agg_loss [[1; 2]; [3; 4]] (ones_like [[1; 2]; [3; 4]]) "token-mean" 1 0.
Proof.
  assert (H1 : rectangular [[1; 2]; [3; 4]]) by (repeat constructor).
  split; [exact H1|].
  apply (proj2 (agg_loss_full_mask [[1; 2]; [3; 4]] 1 0) H1).
Defined.

End Witnesses.

(** * Further properties of [core_algos.py] *)

(** ** [agg_loss]: modes *)

Section AggLossModes.

Lemma agg_loss_raises (loss_mat loss_mask : mat) (loss_agg_mode : string) (scale eps : R) :
  is_agg_mode loss_agg_mode = false ->
  agg_loss loss_mat loss_mask loss_agg_mode scale eps = Raise ValueError.
Proof.
  unfold is_agg_mode, agg_loss. intros H.
  repeat (destruct (String.eqb loss_agg_mode _); [done|]). done.
Qed.

(** X1. [agg_loss] returns a loss exactly for its five mode names; every
    other name raises [ValueError], whatever the tensors are. *)
Theorem agg_loss_mode_check (loss_mat loss_mask : mat) (loss_agg_mode : string)
    (scale eps : R) :
  (is_agg_mode loss_agg_mode = true
   /\ exists loss, agg_loss loss_mat loss_mask loss_agg_mode scale eps = Ok loss)
  \/ (is_agg_mode loss_agg_mode = false
      /\ agg_loss loss_mat loss_mask loss_agg_mode scale eps = Raise ValueError).
Proof.
  destruct (is_agg_mode loss_agg_mode) eqn:Hmode.
  - left. split; [done|]. by apply agg_loss_returns.
  - right. split; [done|]. by apply agg_loss_raises.
Qed.

Lemma mean_scale (k : R) (v : vec) : mean ((fun x => x * k) <$> v) = mean v * k.
Proof.
  unfold mean. rewrite length_fmap.
  assert (H : vsum ((fun x => x * k) <$> v) = vsum v * k).
  { unfold vsum. induction v as [|x v IH]; csimpl; [lra | rewrite IH; lra]. }
  rewrite H. lra.
Qed.

(** X2. The scaled mode is the fixed-normaliser mode times [scale], and
    the fixed-normaliser mode is the per-row sum mode divided by the width
    of the mask. *)
Theorem agg_loss_norm_modes (loss_mat loss_mask : mat) (scale eps : R) :
  exists by_sum by_norm,
    agg_loss loss_mat loss_mask "seq-mean-token-sum" scale eps = Ok by_sum
    /\ agg_loss loss_mat loss_mask "seq-mean-token-sum-norm" scale eps = Ok by_norm
    /\ agg_loss loss_mat loss_mask "seq-mean-token-sum-norm-scaled" scale eps
       = Ok (by_norm * scale)
    /\ by_norm = by_sum / INR (width loss_mask).
Proof.
  eexists _, _. split; [reflexivity|]. split; [reflexivity|]. split.
  - unfold agg_loss. cbn [String.eqb Ascii.eqb Bool.eqb].
    f_equal. rewrite <- mean_scale. f_equal.
    rewrite <- list_fmap_compose. done.
  - set (rs := row_sum (mmap2 Rmult loss_mat loss_mask)).
    unfold Rdiv. rewrite <- mean_scale. done.
Qed.

End AggLossModes.

(** ** [kl_penalty]: kinds *)

Section KLKinds.

(** X3. [kl_penalty] returns a tensor exactly for the kinds [kl], [abs],
    [mse] and [low_var_kl]; the kind [full] and every other name raise
    [NotImplementedError]. *)
Theorem kl_penalty_kind_check (logprob ref_logprob : mat) (kind : string) :
  (is_kl_kind kind = true /\ exists out, kl_penalty logprob ref_logprob kind = Ok out)
  \/ (is_kl_kind kind = false
      /\ kl_penalty logprob ref_logprob kind = Raise NotImplementedError).
Proof.
  unfold is_kl_kind, kl_penalty.
  destruct (String.eqb kind "kl"); [left; eauto|].
  destruct (String.eqb kind "abs"); [left; eauto|].
  destruct (String.eqb kind "mse"); [left; eauto|].
  destruct (String.eqb kind "low_var_kl"); [left; eauto|].
  right. split; [done|]. by destruct (String.eqb kind "full").
Qed.

(** X5. The kinds [abs] and [mse] are element-wise functions of the kind
    [kl]: the absolute value and half the square, so both are never
    negative and [mse] is half the square of [abs]. *)
Theorem kl_penalty_abs_mse (logprob ref_logprob : mat) :
  exists d,
    kl_penalty logprob ref_logprob "kl" = Ok d
    /\ kl_penalty logprob ref_logprob "abs" = Ok (mmap Rabs d)
    /\ kl_penalty logprob ref_logprob "mse" = Ok (mmap (fun x => 0.5 * (Rabs x * Rabs x)) d)
    /\ Forall (Forall (fun x => 0 <= x)) (mmap Rabs d)
    /\ Forall (Forall (fun x => 0 <= x)) (mmap (fun x => 0.5 * (Rabs x * Rabs x)) d).
Proof.
  eexists. split; [reflexivity|]. split; [reflexivity|]. split; [|split].
  - unfold kl_penalty. cbn [String.eqb Ascii.eqb Bool.eqb]. f_equal.
    unfold mmap. apply list_fmap_ext. intros _ r _.
    apply list_fmap_ext. intros _ x _.
    unfold Rabs. destruct (Rcase_abs x); lra.
  - unfold mmap. apply Forall_fmap, Forall_true. intros r.
    apply Forall_fmap, Forall_true. intros x. apply Rabs_pos.
  - unfold mmap. apply Forall_fmap, Forall_true. intros r.
    apply Forall_fmap, Forall_true. intros x. simpl.
    pose proof (Rabs_pos x). nra.
Qed.

End KLKinds.

(** ** KL controllers *)

Section KLControllers.

(** X6. [get_kl_controller] builds the fixed controller from [kl_coef]
    alone, whatever the other fields of the configuration are, and raises
    [ValueError] for every type name other than [fixed] and [adaptive]. *)
Theorem get_kl_controller_fixed_or_unknown (config : Config) :
  (kl_type (critic_kl_ctrl config) = "fixed"%string ->
   get_kl_controller config = Ok (Fixed (mkFixed (kl_coef (critic_kl_ctrl config)))))
  /\ (kl_type (critic_kl_ctrl config) <> "fixed"%string ->
      kl_type (critic_kl_ctrl config) <> "adaptive"%string ->
      get_kl_controller config = Raise ValueError).
Proof.
  split.
  - intros H. unfold get_kl_controller. by rewrite H.
  - apply get_kl_controller_unknown.
Qed.

(** X7. [AdaptiveKLController.update] raises [ZeroDivisionError] when the
    target is [0].  With a target other than [0], a positive horizon and
    [n_steps >= 0], one update changes a non-negative coefficient by a
    factor between [1 - 0.2 * n_steps / horizon] and
    [1 + 0.2 * n_steps / horizon], keeps the target and the horizon, and
    leaves the coefficient unchanged when the current KL equals the
    target. *)
Theorem adaptive_update_bounded (c : AdaptiveKLController) (current_kl : R) (n_steps : Z) :
  (0 < a_horizon c)%Z -> (0 <= n_steps)%Z -> 0 <= a_value c ->
  (a_target c = 0 -> adaptive_update c current_kl n_steps = Raise ZeroDivisionError)
  /\ (a_target c <> 0 ->
      exists c',
        adaptive_update c current_kl n_steps = Ok c'
        /\ a_value c * (1 - 0.2 * IZR n_steps / IZR (a_horizon c))
             <= a_value c'
             <= a_value c * (1 + 0.2 * IZR n_steps / IZR (a_horizon c))
        /\ a_target c' = a_target c
        /\ a_horizon c' = a_horizon c
        /\ (current_kl = a_target c -> a_value c' = a_value c)).
Proof.
  intros Hh Hn Hv. unfold adaptive_update. split.
  - intros Ht. by destruct (Req_dec_T (a_target c) 0).
  - intros Ht. destruct (Req_dec_T (a_target c) 0) as [|_]; [done|].
    eexists. split; [reflexivity|]. cbn [a_value a_target a_horizon].
    assert (Hh' : 0 < IZR (a_horizon c)) by (by apply IZR_lt).
    assert (Hn' : 0 <= IZR n_steps) by (by apply IZR_le).
    set (pe := clamp (current_kl / a_target c - 1) (-0.2) 0.2).
    assert (Hpe : -0.2 <= pe <= 0.2) by (apply clamp_bounds; lra).
    set (q := IZR n_steps / IZR (a_horizon c)).
    assert (Hq : 0 <= q).
    { unfold q. apply Rmult_le_pos; [done|]. left. by apply Rinv_0_lt_compat. }
    replace (pe * IZR n_steps / IZR (a_horizon c)) with (pe * q) by (unfold q; lra).
    replace (0.2 * IZR n_steps / IZR (a_horizon c)) with (0.2 * q) by (unfold q; lra).
    split; [|split; [done|split; [done|]]].
    + split; apply Rmult_le_compat_l; try done; nra.
    + intros ->. unfold pe.
      replace (a_target c / a_target c - 1) with 0 by (field; done).
      unfold clamp, Rmin, Rmax. repeat destruct (Rle_dec _ _); lra.
Qed.

End KLControllers.

(** ** GRPO and RLOO: centred groups, ties, leave-one-out *)

Section GroupNormalisation.

Variables (token_level_rewards : mat) (index : list Z).

Let scores := row_sum token_level_rewards.


Lemma grpo_mean_of_many (G : vec) : (1 < length G)%nat -> grpo_mean_of G = mean G.
Proof.
  intros H. unfold grpo_mean_of. destruct (Nat.eqb_spec (length G) 1); [lia | done].
Qed.




(** X10. For a row of a group with more than one member, the RLOO score is
    the raw score minus the mean of the scores of the other rows of the
    group (the leave-one-out baseline). *)
Theorem rloo_leave_one_out (i : nat) (k : Z) (s : R) :
  zip index scores !! i = Some (k, s) ->
  (1 < length (group_of k index scores))%nat ->
  exists sc,
    rloo_scores token_level_rewards index = Ok sc
    /\ sc !! i
       = Some (s - (vsum (group_of k index scores) - s)
                   / (INR (length (group_of k index scores)) - 1)).
Proof.
  intros Hi Hk. eexists. split; [apply rloo_scores_closed|]. fold scores.
  rewrite list_lookup_fmap, Hi. cbn [fmap option_fmap option_map]. f_equal.
  unfold rloo_row. cbn [fst snd].
  set (G := group_of k index scores) in *.
  rewrite (proj2 (Nat.ltb_lt _ _) Hk), grpo_mean_of_many by done.
  unfold mean.
  assert (Hn : 2 <= INR (length G)).
  { change 2 with (INR 2). apply le_INR. lia. }
  field. lra.
Qed.

End GroupNormalisation.

(** ** ReMax and REINFORCE++: the returns *)

Section ReturnsClosedForms.

Lemma length_cumsum_from (acc : R) (v : vec) : length (cumsum_from acc v) = length v.
Proof. revert acc. induction v as [|x v IH]; intros acc; simpl; [done | by rewrite IH]. Qed.

(** X12. The ReMax return at a position is the sum of the rewards times
    mask from that position to the end of the row, and the advantage is this
    return minus the baseline of the row times the mask at the position. *)
Theorem remax_closed_form (token_level_rewards : mat) (reward_baselines : vec)
    (eos_mask : mat) (i t : nat) (r m : vec) (b : R) :
  token_level_rewards !! i = Some r ->
  eos_mask !! i = Some m ->
  reward_baselines !! i = Some b ->
  (t < length r)%nat -> (t < length m)%nat ->
  at2 (compute_remax_outcome_advantage token_level_rewards reward_baselines eos_mask).2 i t
    = vsum (drop t (zip_with Rmult r m))
  /\ at2 (compute_remax_outcome_advantage token_level_rewards reward_baselines eos_mask).1 i t
     = vsum (drop t (zip_with Rmult r m)) - b * at1 m t.
Proof.
  intros Hr Hm Hb Htr Htm. unfold compute_remax_outcome_advantage. cbn [fst snd].
  set (rm := zip_with Rmult r m).
  assert (Hrow : rev_cumsum (mmap2 Rmult token_level_rewards eos_mask) !! i
                 = Some (reverse (cumsum (reverse rm)))).
  { unfold rev_cumsum, mmap2. by rewrite list_lookup_fmap, lookup_zip_with, Hr, Hm. }
  assert (Hret : at2 (rev_cumsum (mmap2 Rmult token_level_rewards eos_mask)) i t
                 = vsum (drop t rm)).
  { rewrite (at2_row _ i t _ Hrow). apply rev_cumsum_row_at. }
  split; [exact Hret|].
  assert (Htile : tile_mul reward_baselines eos_mask !! i = Some (Rmult b <$> m)).
  { unfold tile_mul. by rewrite lookup_zip_with, Hb, Hm. }
  rewrite (at2_mmap2 Rminus _ _ i t _ _ Hrow Htile).
  - rewrite Hret, (at2_row _ i t _ Htile), at1_fmap by done. done.
  - rewrite length_reverse. unfold cumsum.
    rewrite length_cumsum_from, length_reverse. unfold rm.
    rewrite length_zip_with. lia.
  - by rewrite length_fmap.
Qed.

Variables (token_level_rewards eos_mask : mat) (gamma : R).

Let bs := length token_level_rewards.
Let loop := reinforce_loop token_level_rewards eos_mask gamma.

Hypothesis mask_rows : length eos_mask = length token_level_rewards.

Lemma at2_set_col (m : mat) (t : nat) (c : vec) (W i t' : nat) :
  Forall (fun r : vec => length r = W) m ->
  length c = length m -> (i < length m)%nat -> (t < W)%nat ->
  at2 (set_col m t c) i t' = if decide (t' = t) then at1 c i else at2 m i t'.
Proof.
  intros Hrect Hc Hi Ht.
  destruct (lookup_lt_is_Some_2 m i Hi) as [r Hr].
  destruct (lookup_lt_is_Some_2 c i ltac:(lia)) as [x Hx].
  assert (Hlen : length r = W) by (eapply (proj1 (Forall_lookup _ _) Hrect); eauto).
  assert (Hrow : set_col m t c !! i = Some (<[t := x]> r)).
  { unfold set_col. by rewrite lookup_zip_with, Hr, Hx. }
  rewrite (at2_row _ i t' _ Hrow), (at2_row _ i t' _ Hr). unfold at1.
  destruct (decide (t' = t)) as [->|Hne].
  - rewrite list_lookup_insert_eq by lia. by rewrite Hx.
  - by rewrite list_lookup_insert_ne.
Qed.

Lemma set_col_shape (m : mat) (t : nat) (c : vec) (W : nat) :
  Forall (fun r : vec => length r = W) m -> length c = length m ->
  Forall (fun r : vec => length r = W) (set_col m t c)
  /\ length (set_col m t c) = length m.
Proof.
  intros Hrect Hc. split.
  - unfold set_col. apply Forall_lookup. intros i r' Hr'.
    apply lookup_zip_with_Some in Hr' as (r & x & -> & Hr & _).
    rewrite length_insert. eapply (proj1 (Forall_lookup _ _) Hrect); eauto.
  - unfold set_col. rewrite length_zip_with. lia.
Qed.

(** The loop over the time steps [n-1 .. 0], from a carried
    [running_return] and a [returns] tensor of width [W]. *)
Lemma reinforce_loop_spec (n W : nat) (carry : vec) (ret : mat) :
  (n <= W)%nat -> length carry = bs -> length ret = bs ->
  Forall (fun r : vec => length r = W) ret ->
  let ret' := loop (reverse (seq 0 n)) carry ret in
  length ret' = bs
  /\ Forall (fun r : vec => length r = W) ret'
  /\ forall i t, (i < bs)%nat ->
       at2 ret' i t
       = if decide (t < n)%nat
         then at2 token_level_rewards i t
              + gamma * (if decide (t + 1 < n)%nat
                         then at2 ret' i (t + 1) * at2 eos_mask i (t + 1)
                         else at1 carry i)
         else at2 ret i t.
Proof.
  revert carry ret. induction n as [|n IH]; intros carry ret Hn Hcarry Hret Hrect; cbv zeta.
  - cbn. split; [done|]. split; [done|]. intros i t Hi.
    destruct (decide (t < 0)%nat); [lia | done].
  - rewrite seq_S, reverse_app, reverse_singleton. cbn [app Nat.add].
    unfold loop. cbn [reinforce_loop]. fold loop.
    set (run := vmap2 Rplus (col token_level_rewards n) (Rmult gamma <$> carry)).
    set (ret1 := set_col ret n run).
    set (carry1 := vmap2 Rmult run (col eos_mask n)).
    assert (Hrun : length run = bs).
    { unfold run, vmap2. rewrite length_zip_with, length_col, length_fmap.
      unfold bs in *. lia. }
    assert (Hcarry1 : length carry1 = bs).
    { unfold carry1, vmap2. rewrite length_zip_with, length_col. unfold bs in *. lia. }
    assert (Hrr : length run = length ret) by congruence.
    destruct (set_col_shape ret n run W Hrect Hrr) as [Hrect1 Hlen1].
    assert (Hret1 : length ret1 = bs) by (unfold ret1; congruence).
    destruct (IH carry1 ret1 ltac:(lia) Hcarry1 Hret1 Hrect1) as (Hlen & Hshape & Hat).
    set (ret' := loop (reverse (seq 0 n)) carry1 ret1) in *.
    split; [done|]. split; [done|].
    intros i t Hi.
    assert (Hrun_i : at1 run i = at2 token_level_rewards i n + gamma * at1 carry i).
    { unfold run. rewrite at1_vmap2, at1_fmap, at1_col;
        rewrite ?length_col, ?length_fmap; unfold bs in *; try lia. done. }
    assert (Hcol_n : at2 ret' i n = at1 run i).
    { rewrite (Hat i n Hi). destruct (decide (n < n)%nat); [lia|].
      unfold ret1. rewrite (at2_set_col ret n run W) by (done || lia).
      by rewrite decide_True. }
    rewrite (Hat i t Hi).
    destruct (decide (t < n)%nat) as [Hlt|Hge].
    + rewrite (decide_True (P := (t < S n)%nat)) by lia. do 2 f_equal.
      destruct (decide (t + 1 < n)%nat) as [Hlt'|Hge'].
      * by rewrite (decide_True (P := (t + 1 < S n)%nat)) by lia.
      * rewrite (decide_True (P := (t + 1 < S n)%nat)) by lia.
        replace (t + 1)%nat with n by lia. rewrite Hcol_n.
        unfold carry1. rewrite at1_vmap2, at1_col;
          rewrite ?length_col; unfold bs in *; try lia. done.
    + destruct (decide (t = n)) as [->|Hne].
      * rewrite (decide_True (P := (n < S n)%nat)) by lia.
        rewrite (decide_False (P := (n + 1 < S n)%nat)) by lia.
        unfold ret1. rewrite (at2_set_col ret n run W) by (done || lia).
        rewrite decide_True by done. exact Hrun_i.
      * rewrite (decide_False (P := (t < S n)%nat)) by lia.
        unfold ret1. rewrite (at2_set_col ret n run W) by (done || lia).
        by rewrite decide_False.
Qed.

End ReturnsClosedForms.

Section ReinforceReturns.

(** X11. The REINFORCE++ return of a rectangular batch follows the
    backward recurrence [G_t = R_t + gamma * M_(t+1) * G_(t+1)], with
    [G_(T-1) = R_(T-1)] at the last position: the running return is cut
    after every position whose mask is [0]. *)
Theorem reinforce_returns_recurrence (masked_whiten : mat -> mat -> mat)
    (token_level_rewards eos_mask : mat) (gamma : R) (i t : nat) :
  length eos_mask = length token_level_rewards ->
  rectangular token_level_rewards ->
  (i < length token_level_rewards)%nat ->
  (t < width token_level_rewards)%nat ->
  let returns :=
    (compute_reinforce_plus_plus_outcome_advantage masked_whiten token_level_rewards
       eos_mask gamma).2 in
  at2 returns i t
  = at2 token_level_rewards i t
    + gamma * (if decide (t + 1 < width token_level_rewards)%nat
               then at2 returns i (t + 1) * at2 eos_mask i (t + 1)
               else 0).
Proof.
  intros Hrows Hrect Hi Ht. cbv zeta.
  unfold compute_reinforce_plus_plus_outcome_advantage. cbn [snd].
  unfold reinforce_returns.
  set (T := width token_level_rewards) in *.
  assert (Hzrect : Forall (fun r : vec => length r = T)
                          (mmap (fun _ => 0) token_level_rewards)).
  { unfold mmap. apply Forall_fmap. eapply Forall_impl; [exact Hrect|].
    intros r Hr. simpl. by rewrite length_fmap. }
  assert (Hzlen : length (mmap (fun _ => 0) token_level_rewards)
                  = length token_level_rewards)
    by (unfold mmap; by rewrite length_fmap).
  destruct (reinforce_loop_spec token_level_rewards eos_mask gamma Hrows T T
              (replicate (length token_level_rewards) 0)
              (mmap (fun _ => 0) token_level_rewards)
              ltac:(lia) (length_replicate _ _) Hzlen Hzrect) as (_ & _ & Hat).
  rewrite (Hat i t Hi). rewrite decide_True by done.
  do 2 f_equal. destruct (decide (t + 1 < T)%nat); [done|].
  apply at1_replicate_0.
Qed.

End ReinforceReturns.

(** ** The policy losses at equal log-probabilities and on mismatched shapes *)

Section PolicyLossEdges.

Lemma mmap2_diag (f : R -> R -> R) (a : mat) : mmap2 f a a = mmap (fun x => f x x) a.
Proof.
  unfold mmap2, mmap. induction a as [|r a IH]; csimpl; [done|].
  rewrite IH. f_equal. clear IH. induction r as [|x r IH]; csimpl; [done|].
  by rewrite IH.
Qed.

Lemma mmap_mmap (f g : R -> R) (a : mat) : mmap g (mmap f a) = mmap (fun x => g (f x)) a.
Proof.
  unfold mmap. rewrite <- list_fmap_compose. apply list_fmap_ext. intros _ r _.
  simpl. by rewrite <- list_fmap_compose.
Qed.

Lemma mmap_ext (f g : R -> R) (a : mat) : (forall x, f x = g x) -> mmap f a = mmap g a.
Proof.
  intros H. unfold mmap. apply list_fmap_ext. intros _ r _.
  apply list_fmap_ext. intros _ x _. apply H.
Qed.

Lemma mmap_id (a : mat) : mmap (fun x => x) a = a.
Proof.
  unfold mmap. induction a as [|r a IH]; csimpl; [done|].
  rewrite IH. f_equal. apply list_fmap_id.
Qed.

Lemma mmap2_const_r (f : R -> R -> R) (c : R) (a b : mat) :
  same_shape a b -> mmap2 f a (mmap (fun _ => c) b) = mmap (fun x => f x c) a.
Proof.
  unfold same_shape, mmap2, mmap. revert b.
  induction a as [|r a IH]; intros [|s b] Hs; csimpl in *; try done.
  injection Hs as Hr Hs. rewrite (IH b Hs). f_equal. clear IH Hs.
  revert s Hr. induction r as [|x r IH]; intros [|y s] Hr; csimpl in *; try done.
  injection Hr as Hr. by rewrite (IH s Hr).
Qed.

Lemma msum_const_zero_mul (b mask : mat) :
  msum (mmap2 Rmult (mmap (fun _ => 0) b) mask) = 0.
Proof.
  unfold msum, row_sum, mmap2, mmap, vsum. revert mask.
  induction b as [|r b IH]; intros [|m mask]; csimpl; try done.
  rewrite IH.
  assert (Hrow : forall m', foldr Rplus 0 (zip_with Rmult ((fun _ : R => 0) <$> r) m') = 0).
  { induction r as [|x r IHr]; intros [|y m']; csimpl; try done. rewrite IHr. lra. }
  rewrite Hrow. lra.
Qed.

(** X13. When the new log-probabilities equal the old ones, with clip
    bounds that are not negative, a valid mode and a mask with at least one
    live token, [compute_policy_loss] reports clip fraction [0] and KL [0],
    and its loss is the aggregate of the negated advantages. *)
Theorem compute_policy_loss_on_policy (log_prob advantages eos_mask : mat)
    (cliprange : option R) (lo hi : R) (loss_agg_mode : string) (scale : R) :
  is_agg_mode loss_agg_mode = true ->
  same_shape advantages log_prob ->
  0 <= lo -> 0 <= hi -> 0 < msum eos_mask ->
  exists loss,
    agg_loss (mmap Ropp advantages) eos_mask loss_agg_mode scale 1e-6 = Ok loss
    /\ compute_policy_loss log_prob log_prob advantages eos_mask cliprange
                           (Some lo) (Some hi) loss_agg_mode scale
       = Ok (loss, 0, 0).
Proof.
  intros Hmode Hshape Hlo Hhi Hmask.
  destruct (agg_loss_returns (mmap Ropp advantages) eos_mask loss_agg_mode scale 1e-6
              Hmode) as [loss Hloss].
  exists loss. split; [exact Hloss|].
  unfold compute_policy_loss. cbn [clip_default float_sub float_add mbind result_bind].
  assert (Hnak : mmap2 Rminus log_prob log_prob = mmap (fun _ => 0) log_prob).
  { rewrite mmap2_diag. apply mmap_ext. intros x. lra. }
  rewrite Hnak.
  assert (Hratio : mmap exp (mmap (fun _ => 0) log_prob) = mmap (fun _ => 1) log_prob).
  { rewrite mmap_mmap. apply mmap_ext. intros _. apply exp_0. }
  rewrite Hratio.
  assert (Hclamp : mmap (fun x => clamp x (1 - lo) (1 + hi)) (mmap (fun _ => 1) log_prob)
                   = mmap (fun _ => 1) log_prob).
  { rewrite mmap_mmap. apply mmap_ext. intros _.
    unfold clamp, Rmin, Rmax. repeat destruct (Rle_dec _ _); lra. }
  rewrite Hclamp.
  assert (Hshape' : same_shape (mmap Ropp advantages) log_prob).
  { unfold same_shape, mmap in *. rewrite <- Hshape, <- !list_fmap_compose.
    apply list_fmap_ext. intros _ r _. simpl. by rewrite length_fmap. }
  assert (Hpg : mmap2 Rmult (mmap Ropp advantages) (mmap (fun _ => 1) log_prob)
                = mmap Ropp advantages).
  { rewrite (mmap2_const_r Rmult 1 _ _ Hshape'), mmap_mmap.
    apply mmap_ext. intros x. lra. }
  rewrite Hpg.
  assert (Hmax : mmap2 Rmax (mmap Ropp advantages) (mmap Ropp advantages)
                 = mmap Ropp advantages).
  { rewrite mmap2_diag, mmap_mmap. apply mmap_ext. intros x.
    unfold Rmax. destruct (Rle_dec _ _); done. }
  rewrite Hmax, Hloss. cbn [mbind result_bind].
  assert (Hgt : mmap2 gt (mmap Ropp advantages) (mmap Ropp advantages)
                = mmap (fun _ => 0) advantages).
  { rewrite mmap2_diag, mmap_mmap. apply mmap_ext. intros x.
    unfold gt. destruct (Rgt_dec _ _); [lra | done]. }
  assert (Hkl : mmap Ropp (mmap (fun _ => 0) log_prob) = mmap (fun _ => 0) log_prob).
  { rewrite mmap_mmap. apply mmap_ext. intros _. lra. }
  rewrite Hgt, Hkl. unfold masked_mean. rewrite !msum_const_zero_mul.
  do 3 f_equal; lra.
Qed.

(** X14. On tensors of [bs] rows and width [T], [compute_policy_loss_gspo]
    raises the broadcasting [RuntimeError] whenever [T ≠ bs], [bs ≠ 1] and
    [T ≠ 1], whatever the clip ranges and the mode are: the per-row ratio
    is multiplied along the last dimension of the advantages. *)
Theorem compute_policy_loss_gspo_shape_error
    (old_log_prob log_prob advantages response_mask : mat) (loss_agg_mode : string)
    (cliprange cliprange_low cliprange_high : option R) (eps : R) :
  length old_log_prob = length response_mask ->
  length log_prob = length response_mask ->
  width advantages <> length response_mask ->
  length response_mask <> 1%nat ->
  width advantages <> 1%nat ->
  compute_policy_loss_gspo old_log_prob log_prob advantages response_mask
    loss_agg_mode cliprange cliprange_low cliprange_high eps = Raise RuntimeError.
Proof.
  intros Hold Hnew HT Hbs HT1. unfold compute_policy_loss_gspo.
  set (seq_ratio := exp <$> _).
  assert (Hlen : length seq_ratio = length response_mask).
  { unfold seq_ratio, vmap2, row_sum, mmap2.
    rewrite length_fmap, !length_zip_with, !length_fmap, !length_zip_with. lia. }
  assert (Hw : width (mmap Ropp advantages) = width advantages).
  { destruct advantages as [|r a]; [done|]. simpl. by rewrite length_fmap. }
  cbv zeta. fold seq_ratio.
  assert (Hb : bcast_last Rmult (mmap Ropp advantages) seq_ratio = Raise RuntimeError).
  { unfold bcast_last. rewrite Hw, Hlen.
    destruct (Nat.eqb_spec (width advantages) (length response_mask)); [done|].
    destruct (Nat.eqb_spec (length response_mask) 1); [done|].
    destruct (Nat.eqb_spec (width advantages) 1); done. }
  by rewrite Hb.
Qed.

End PolicyLossEdges.

(** ** [compute_policy_loss_gspo]: the expansion of the mask *)

Section GSPOExpansion.

Lemma mul_expand_same_shape (a mask : mat) :
  Forall2 (fun r m : vec => length r = length m) a mask ->
  mul_expand a mask = mmap2 Rmult a mask.
Proof.
  unfold mul_expand, mmap2. induction 1 as [|r m a mask Hlen _ IH]; [done|].
  cbn [zip_with]. rewrite IH. f_equal.
  destruct (Nat.eqb_spec (length m) 1) as [Hm|]; [|done].
  destruct m as [|y [|? ?]]; try done. destruct r as [|x [|? ?]]; try done.
Qed.

(** On tensors with rows of the same lengths the aggregation used by
    [compute_policy_loss_gspo] is [agg_loss]. *)
Lemma agg_loss_expand_same_shape (loss_mat loss_mask : mat) (loss_agg_mode : string)
    (scale eps : R) :
  Forall2 (fun r m : vec => length r = length m) loss_mat loss_mask ->
  agg_loss_expand loss_mat loss_mask loss_agg_mode scale eps
  = agg_loss loss_mat loss_mask loss_agg_mode scale eps.
Proof.
  intros H. unfold agg_loss_expand, agg_loss, masked_mean.
  by rewrite (mul_expand_same_shape _ _ H).
Qed.

(** A run on three rows of width [1]: the losses have the shape [(3, 3)],
    the mask of shape [(3, 1)] is expanded, and the mean over the three
    masked tokens sums nine losses. *)
Example gspo_width_one_run :
  compute_policy_loss_gspo [[0]; [0]; [0]] [[0]; [0]; [0]] [[2]; [2]; [2]]
    [[1]; [1]; [1]] "token-mean" (Some 0.2) None None 1e-6
  = Ok (-6, 0, 0).
Proof.
  unfold compute_policy_loss_gspo.
  cbn [clip_default float_sub float_add mbind result_bind].
  assert (Hratio : exp <$> vmap2 Rminus
                     (vmap2 Rdiv (row_sum (mmap2 Rmult [[0]; [0]; [0]] [[1]; [1]; [1]]))
                        ((fun x => x + 1e-6) <$> row_sum [[1]; [1]; [1]]))
                     (vmap2 Rdiv (row_sum (mmap2 Rmult [[0]; [0]; [0]] [[1]; [1]; [1]]))
                        ((fun x => x + 1e-6) <$> row_sum [[1]; [1]; [1]]))
                   = [1; 1; 1]).
  { unfold vmap2, row_sum, mmap2, vsum. cbn.
    rewrite !Rminus_diag, exp_0. done. }
  rewrite Hratio.
  assert (Hclamp : clamp 1 (1 - 0.2) (1 + 0.2) = 1).
  { unfold clamp, Rmin, Rmax. repeat destruct (Rle_dec _ _); lra. }
  cbn [fmap list_fmap]. rewrite Hclamp.
  unfold bcast_last. cbn [width length Nat.eqb mbind result_bind fmap list_fmap mmap].
  unfold agg_loss_expand, masked_mean_expand, masked_mean.
  cbn [String.eqb Ascii.eqb Bool.eqb mbind result_bind].
  assert (Hgt : forall x, gt x x = 0).
  { intros x. unfold gt. destruct (Rgt_dec x x); [lra | done]. }
  f_equal. f_equal; [f_equal|].
  - unfold mmap2, mul_expand, msum, row_sum, vsum, at1, Rmax. cbn.
    repeat destruct (Rle_dec _ _); lra.
  - unfold mmap2, mul_expand, msum, row_sum, vsum, at1. cbn.
    rewrite !Hgt. lra.
  - unfold mmap2, mmap, msum, row_sum, vsum, clamp, Rmin, Rmax. cbn.
    repeat destruct (Rle_dec _ _); lra.
Qed.

End GSPOExpansion.

(** ** GAE at [lam = 0] and at [gamma = lam = 1] *)

Section GAESpecialCases.

Variables (token_level_rewards values : mat) (gamma lam : R).

Hypothesis values_rows : length values = length token_level_rewards.
Hypothesis some_step : (0 < width token_level_rewards)%nat.
Hypothesis values_width :
  Forall (fun r : vec => length r = width token_level_rewards) values.

(** The advantages before whitening and the returns, position by position. *)
Lemma gae_positions :
  exists A,
    gae_advantages token_level_rewards values gamma lam = Ok A
    /\ forall i t, (i < length token_level_rewards)%nat ->
                   (t < width token_level_rewards)%nat ->
         at2 A i t
         = at2 token_level_rewards i t
           + gamma * (if (t + 1 <? width token_level_rewards)%nat
                      then at2 values i (t + 1) else 0)
           - at2 values i t
           + gamma * lam * (if (t + 1 <? width token_level_rewards)%nat
                            then at2 A i (t + 1) else 0)
         /\ at2 (mmap2 Rplus A values) i t = at2 A i t + at2 values i t.
Proof.
  pose proof (gae_columns token_level_rewards values gamma lam values_rows
                (width token_level_rewards)
                (replicate (length token_level_rewards) 0)
                (length_replicate _ _)) as Hg.
  cbv zeta in Hg.
  remember (reverse (gae_loop token_level_rewards values gamma lam
                       (width token_level_rewards)
                       (reverse (seq 0 (width token_level_rewards)))
                       (replicate (length token_level_rewards) 0) [])) as cols eqn:Hcd.
  destruct Hg as [Hlen Hcols].
  assert (Hne : (0 < length cols)%nat) by (rewrite Hlen; exact some_step).
  destruct (stack_dim1_ok (length token_level_rewards) cols Hne) as [A HA].
  exists A. split.
  { unfold gae_advantages. rewrite <- Hcd. exact HA. }
  intros i t Hi Ht.
  destruct (Hcols t Ht) as (c & Hc & Hcl & Hstep).
  destruct (stack_dim1_at _ cols i t c A HA Hi Hc) as (row & Hrow & Hrl & Hat).
  split.
  - rewrite Hat, Hstep.
    rewrite (gae_step_at token_level_rewards values gamma lam values_rows).
    + set (T := width token_level_rewards) in *.
      replace (t <? T - 1)%nat with (t + 1 <? T)%nat
        by (destruct (Nat.ltb_spec (t + 1) T), (Nat.ltb_spec t (T - 1)); lia || done).
      destruct (Nat.ltb_spec (t + 1) T) as [Hlt|Hge].
      * destruct (Hcols (t + 1)%nat Hlt) as (c' & Hc' & _ & _).
        destruct (stack_dim1_at _ cols i (t + 1) c' A HA Hi Hc') as (_ & _ & _ & Hat').
        rewrite Hc', Hat'. done.
      * by rewrite at1_replicate_0.
    + destruct (Nat.ltb_spec (t + 1) (width token_level_rewards)) as [Hlt|Hge].
      * destruct (Hcols (t + 1)%nat Hlt) as (c' & Hc' & Hcl' & _).
        rewrite Hc'. simpl. by rewrite Hcl'.
      * by rewrite length_replicate.
    + done.
  - assert (Hiv : (i < length values)%nat) by (rewrite values_rows; exact Hi).
    destruct (lookup_lt_is_Some_2 values i Hiv) as [vrow Hvrow].
    assert (Hvl : length vrow = width token_level_rewards).
    { eapply (proj1 (Forall_lookup _ _) values_width); eauto. }
    apply (at2_mmap2 Rplus A values i t row vrow Hrow Hvrow); lia.
Qed.

End GAESpecialCases.

Section GAEReturnsSpecial.

Lemma vsum_drop (r : vec) (t : nat) :
  (t < length r)%nat -> vsum (drop t r) = at1 r t + vsum (drop (S t) r).
Proof.
  intros Ht. destruct (lookup_lt_is_Some_2 r t Ht) as [x Hx].
  rewrite (drop_S r x t Hx). unfold at1. rewrite Hx. done.
Qed.

(** X15. With [lam = 0] the GAE return at a position is the one-step
    target [R_t + gamma * V_(t+1)] (with [V] beyond the last step taken as
    [0]), for values of the shape of the rewards. *)
Theorem gae_lam_zero_returns (masked_whiten : mat -> mat -> mat)
    (token_level_rewards values eos_mask : mat) (gamma : R) (i t : nat) :
  length values = length token_level_rewards ->
  (0 < width token_level_rewards)%nat ->
  Forall (fun r : vec => length r = width token_level_rewards) values ->
  (i < length token_level_rewards)%nat ->
  (t < width token_level_rewards)%nat ->
  exists adv ret,
    compute_gae_advantage_return masked_whiten token_level_rewards values eos_mask
                                 gamma 0 = Ok (adv, ret)
    /\ at2 ret i t
       = at2 token_level_rewards i t
         + gamma * (if (t + 1 <? width token_level_rewards)%nat
                    then at2 values i (t + 1) else 0).
Proof.
  intros Hrows Hwidth Hvals Hi Ht.
  destruct (gae_positions token_level_rewards values gamma 0 Hrows Hwidth Hvals)
    as (A & HA & Hpos).
  eexists _, _. split.
  - unfold compute_gae_advantage_return. rewrite HA. reflexivity.
  - destruct (Hpos i t Hi Ht) as [Hadv Hret]. rewrite Hret, Hadv. lra.
Qed.

(** X16. With [gamma = lam = 1] the GAE return at a position is the sum of
    the rewards from that position to the end of the row, whatever the
    values are (of the shape of the rectangular rewards). *)
Theorem gae_monte_carlo_returns (masked_whiten : mat -> mat -> mat)
    (token_level_rewards values eos_mask : mat) (i t : nat) (r : vec) :
  length values = length token_level_rewards ->
  (0 < width token_level_rewards)%nat ->
  Forall (fun r : vec => length r = width token_level_rewards) values ->
  rectangular token_level_rewards ->
  token_level_rewards !! i = Some r ->
  (t < width token_level_rewards)%nat ->
  exists adv ret,
    compute_gae_advantage_return masked_whiten token_level_rewards values eos_mask
                                 1 1 = Ok (adv, ret)
    /\ at2 ret i t = vsum (drop t r).
Proof.
  intros Hrows Hwidth Hvals Hrect Hr Ht.
  destruct (gae_positions token_level_rewards values 1 1 Hrows Hwidth Hvals)
    as (A & HA & Hpos).
  eexists _, _. split.
  { unfold compute_gae_advantage_return. rewrite HA. reflexivity. }
  assert (Hi : (i < length token_level_rewards)%nat) by (by eapply lookup_lt_Some).
  assert (Hlen : length r = width token_level_rewards)
    by (eapply (proj1 (Forall_lookup _ _) Hrect); eauto).
  set (T := width token_level_rewards) in *.
  assert (Hall : forall k t', (t' + k = T)%nat -> (t' < T)%nat ->
            at2 (mmap2 Rplus A values) i t' = vsum (drop t' r)).
  { induction k as [|k IH]; intros t' Hk Ht'; [lia|].
    destruct (Hpos i t' Hi Ht') as [Hadv Hret]. rewrite Hret, Hadv.
    rewrite vsum_drop by lia. rewrite <- (at2_row _ i t' r Hr).
    destruct (Nat.ltb_spec (t' + 1) T) as [Hlt|Hge].
    - pose proof (IH (t' + 1)%nat ltac:(lia) Hlt) as Hnext.
      destruct (Hpos i (t' + 1)%nat Hi Hlt) as [_ Hret'].
      rewrite Hret' in Hnext. replace (S t') with (t' + 1)%nat by lia.
      rewrite <- Hnext. lra.
    - rewrite drop_ge by lia. unfold vsum. simpl. lra. }
  apply (Hall (T - t)%nat t); lia.
Qed.

End GAEReturnsSpecial.

(** * Further properties of the rollout loop *)

Section RolloutLoop.

Import Rollout.

Context {Image : Type}.
Variable env : Env Image.

#[local] Open Scope Z_scope.

(** What a successful [process_tool_call] appends. *)
Lemma process_tool_call_appends (b b' : Buffers Image) (decoded_resp_ : string)
    (iteration n : Z) (out : ToolOutput Image) :
  process_tool_call env b decoded_resp_ iteration = Ok (n, out, b') ->
  exists ids,
    prompt_token_ids b' = prompt_token_ids b ++ ids
    /\ multi_turn_response_mask b'
       = multi_turn_response_mask b ++ [replicate (length ids) 0]
    /\ ((images b' = images b
         /\ image_size_used_list b' = image_size_used_list b
         /\ observations_list b' = observations_list b
         /\ n = Z.of_nat (length ids))
        \/ (exists im sz ob,
              images b' = images b ++ [im]
              /\ image_size_used_list b' = image_size_used_list b ++ [sz]
              /\ observations_list b' = observations_list b ++ [ob]
              /\ n = Z.of_nat (length ids) + calculate_image_token_num env im - 1)).
Proof.
  unfold process_tool_call. intros H.
  destruct (prepare_grounding_inputs env decoded_resp_ _ _) as [err|[tool_type args]].
  - injection H as <- <- <-. eexists. cbn. split; [done|]. split; [done|]. by left.
  - destruct (String.eqb tool_type "grounding"); [|done].
    injection H as <- <- <-. eexists. cbn. split; [done|]. split; [done|].
    right. eauto 10.
Qed.

(** The two ways a pass through the loop body can end. *)
Lemma rollout_round_cases (st st1 : LoopState Image) (stop : bool) :
  rollout_round env st = Ok (st1, stop) ->
  (stop = true
   /\ buffers st1 = buffers (after_generation env st)
   /\ current_iteration st1 = current_iteration st
   /\ ((exceed st1 = true /\ void st1 = void st)
       \/ (exceed st1 = exceed st /\ (void st1 = true \/ void st1 = void st))))
  \/ (stop = false
      /\ (exists n out,
            process_tool_call env (buffers (after_generation env st))
              (decode env (response_of env st)) (current_iteration st)
            = Ok (n, out, buffers st1))
      /\ current_iteration st1 = current_iteration st + 1
      /\ current_iteration st ≠ max_iterations env - 1
      /\ Z.of_nat (length (images (buffers (after_generation env st)))) < max_image_num env
      /\ context_length st1 < max_total_response_length env - 2000
      /\ exceed st1 = exceed st /\ void st1 = void st).
Proof.
  unfold rollout_round, handle_response.
  set (g := after_generation env st).
  assert (Hgi : current_iteration g = current_iteration st) by done.
  assert (Hge : exceed g = exceed st) by done.
  assert (Hgv : void g = void st) by done.
  clearbody g. intros H.
  destruct (0 <? length _)%nat.
  - destruct (bool_decide (max_image_num env ≤ _)) eqn:Himg;
      [injection H as <- <-; left; cbn; rewrite ?Hgi, ?Hgv; eauto 10|].
    destruct (bool_decide (current_iteration g = _)) eqn:Hlast;
      [injection H as <- <-; left; cbn; rewrite ?Hgi, ?Hgv; eauto 10|].
    cbn [orb] in H.
    destruct (bool_decide (_ ≤ context_length g)) eqn:Hroom;
      [injection H as <- <-; left; cbn; rewrite ?Hgi, ?Hgv; eauto 10|].
    destruct (process_tool_call env (buffers g) _ _) as [[[n out] b']|e] eqn:Hcall;
      [|done].
    cbn [mbind result_bind] in H.
    destruct (bool_decide (_ ≤ context_length g + n)) eqn:Hover.
    + injection H as <- <-. left. cbn.
      rewrite (roll_back_process_tool_call env _ _ _ _ _ _ Hcall), ?Hgi, ?Hgv.
      eauto 10.
    + injection H as <- <-. right. cbn.
      apply bool_decide_eq_false_1 in Himg, Hlast, Hover.
      rewrite Hgi in *. rewrite Hge, Hgv.
      repeat split; eauto; lia.
  - injection H as <- <-. left. cbn. rewrite ?Hgi, ?Hge, ?Hgv.
    repeat split; try done. right. split; [done|].
    destruct (_ || _); eauto.
Qed.

(** A property kept by every pass is kept by the loop. *)
Lemma rollout_loop_invariant (Inv : LoopState Image -> Prop) :
  (forall st st1 stop, Inv st -> rollout_round env st = Ok (st1, stop) -> Inv st1) ->
  forall fuel st st', Inv st -> rollout_loop env fuel st = Ok st' -> Inv st'.
Proof.
  intros Hround. induction fuel as [|fuel IH]; intros st st' Hst Hloop.
  - cbn in Hloop. by injection Hloop as <-.
  - cbn [rollout_loop] in Hloop.
    destruct (bool_decide (current_iteration st < max_iterations env));
      [|by injection Hloop as <-].
    destruct (rollout_round env st) as [[st1 stop]|e] eqn:Hr; [|done].
    cbn [mbind result_bind] in Hloop.
    destruct stop.
    + injection Hloop as <-. eapply Hround; eauto.
    + eapply IH; [|exact Hloop]. eapply Hround; eauto.
Qed.

End RolloutLoop.

Section RolloutInvariants.

Import Rollout.

Context {Image : Type}.
Variable env : Env Image.

#[local] Open Scope Z_scope.

Lemma response_aligned_app (prefix_length : nat) (b b' : Buffers Image)
    (ids frag : list Z) :
  response_aligned prefix_length b ->
  prompt_token_ids b' = prompt_token_ids b ++ ids ->
  multi_turn_response_mask b' = multi_turn_response_mask b ++ [frag] ->
  length frag = length ids ->
  response_aligned prefix_length b'.
Proof.
  intros (first & rest & Hmask & Hfirst & Hle & Hlen) Hp Hm Hfrag.
  exists first, (rest ++ [frag]). rewrite Hm, Hp, Hmask.
  split; [done|]. split; [done|]. split; [rewrite length_app; lia|].
  rewrite join_app, !length_app, drop_app_le, length_app by lia.
  cbn. rewrite app_nil_r. lia.
Qed.

Lemma after_generation_aligned (prefix_length : nat) (st : LoopState Image) :
  response_aligned prefix_length (buffers st) ->
  response_aligned prefix_length (buffers (after_generation env st)).
Proof.
  intros H. eapply response_aligned_app; [exact H|done|done|].
  apply length_replicate.
Qed.

(** X17. The loop keeps the mask fragments aligned with the token buffer:
    if the first fragment covers the prompt and the later ones cover the
    rest of the buffer when the loop starts, the same holds for the state
    the loop returns, so that the length assertion of [post_process_single]
    holds. *)
Theorem rollout_keeps_response_aligned (prefix_length : nat) (st st' : LoopState Image) :
  response_aligned prefix_length (buffers st) ->
  rollout env st = Ok st' ->
  response_aligned prefix_length (buffers st').
Proof.
  intros Hst Hrun.
  apply (rollout_loop_invariant env
           (fun s => response_aligned prefix_length (buffers s))) with (3 := Hrun);
    [|exact Hst].
  clear. intros st st1 stop Hst Hround.
  apply rollout_round_cases in Hround as [(_ & -> & _)|(_ & (n & out & Hcall) & _)].
  - by apply after_generation_aligned.
  - apply process_tool_call_appends in Hcall as (ids & Hp & Hm & _).
    eapply response_aligned_app; [by apply after_generation_aligned|done|done|].
    apply length_replicate.
Qed.

(** X18. The loop keeps one size and one observation per image, and never
    lets the number of images pass [max_image_num]. *)
Theorem rollout_keeps_images_bounded (st st' : LoopState Image) :
  images_aligned (buffers st) ->
  Z.of_nat (length (images (buffers st))) ≤ max_image_num env ->
  rollout env st = Ok st' ->
  images_aligned (buffers st')
  /\ Z.of_nat (length (images (buffers st'))) ≤ max_image_num env.
Proof.
  intros Hal Hmax Hrun.
  apply (rollout_loop_invariant env
           (fun s => images_aligned (buffers s)
                     /\ Z.of_nat (length (images (buffers s))) ≤ max_image_num env))
    with (3 := Hrun); [|done].
  clear. intros st st1 stop [[Hs Ho] Hmax] Hround. unfold images_aligned in *.
  apply rollout_round_cases in Hround
    as [(_ & -> & _)|(_ & (n & out & Hcall) & _ & _ & Himg & _)].
  - done.
  - apply process_tool_call_appends in Hcall as (ids & _ & _ & Himgs).
    cbn in Himgs, Himg.
    destruct Himgs as [(-> & -> & -> & _)|(im & sz & ob & -> & -> & -> & _)].
    + done.
    + rewrite !length_app. cbn. cbn in Hs, Ho. lia.
Qed.

Lemma rollout_loop_ends_with_break (fuel : nat) (st st' : LoopState Image) :
  current_iteration st < max_iterations env ->
  (Z.to_nat (max_iterations env - current_iteration st) <= fuel)%nat ->
  rollout_loop env fuel st = Ok st' ->
  current_iteration st' < max_iterations env
  /\ exists last, rollout_round env last = Ok (st', true).
Proof.
  revert st. induction fuel as [|fuel IH]; intros st Hlt Hfuel Hloop; [lia|].
  cbn [rollout_loop] in Hloop.
  rewrite bool_decide_eq_true_2 in Hloop by done.
  destruct (rollout_round env st) as [[st1 stop]|e] eqn:Hr; [|done].
  cbn [mbind result_bind] in Hloop.
  destruct (rollout_round_cases env st st1 stop Hr)
    as [(-> & _ & Hit & _)|(-> & _ & Hit & Hlast & _)].
  - injection Hloop as <-. split; [lia | eauto].
  - apply (IH st1); [lia | lia | done].
Qed.

(** X19. A loop that starts below the round limit and returns has left the
    [while] by a [break] of its last pass, and its round counter is still
    below [max_iterations]: the number of rounds reported,
    [current_iteration + 1], never passes the limit. *)
Theorem rollout_ends_with_break (st st' : LoopState Image) :
  current_iteration st < max_iterations env ->
  rollout env st = Ok st' ->
  current_iteration st' + 1 ≤ max_iterations env
  /\ exists last, rollout_round env last = Ok (st', true).
Proof.
  intros Hlt Hrun.
  destruct (rollout_loop_ends_with_break _ st st' Hlt (le_n _) Hrun) as [Hit Hlast].
  split; [lia | done].
Qed.

(** X20. The [while] loop needs no more than
    [max_iterations - current_iteration] passes: with any larger bound on
    the number of passes the loop gives the same result. *)
Theorem rollout_fuel_enough (fuel : nat) (st : LoopState Image) :
  (Z.to_nat (max_iterations env - current_iteration st) <= fuel)%nat ->
  rollout_loop env fuel st = rollout env st.
Proof.
  unfold rollout.
  assert (H : forall n m s,
            (Z.to_nat (max_iterations env - current_iteration s) <= n)%nat ->
            (n <= m)%nat -> rollout_loop env m s = rollout_loop env n s).
  { induction n as [|n IH]; intros m s Hn Hm.
    - destruct m as [|m]; [done|]. cbn [rollout_loop].
      rewrite bool_decide_eq_false_2 by lia. done.
    - destruct m as [|m]; [lia|]. cbn [rollout_loop].
      destruct (bool_decide (current_iteration s < max_iterations env)); [|done].
      destruct (rollout_round env s) as [[s1 stop]|e] eqn:Hr; [|done].
      cbn [mbind result_bind]. destruct stop; [done|].
      destruct (rollout_round_cases env s s1 false Hr)
        as [(? & _)|(_ & _ & Hit & _)]; [done|].
      apply IH; lia. }
  intros Hfuel. by apply H.
Qed.

(** X21. Starting with both flags unset, the loop never returns a request
    that is marked both exceeded and void. *)
Theorem rollout_exceed_void_exclusive (st st' : LoopState Image) :
  exceed st = false -> void st = false ->
  rollout env st = Ok st' ->
  ~ (exceed st' = true /\ void st' = true).
Proof.
  intros He Hv Hrun.
  assert (H : forall fuel s,
            exceed s = false -> void s = false ->
            rollout_loop env fuel s = Ok st' ->
            ~ (exceed st' = true /\ void st' = true)).
  { induction fuel as [|fuel IH]; intros s Hes Hvs Hloop.
    - cbn in Hloop. injection Hloop as <-. intros [? ?]. congruence.
    - cbn [rollout_loop] in Hloop.
      destruct (bool_decide (current_iteration s < max_iterations env));
        [|injection Hloop as <-; intros [? ?]; congruence].
      destruct (rollout_round env s) as [[s1 stop]|e] eqn:Hr; [|done].
      cbn [mbind result_bind] in Hloop.
      destruct (rollout_round_cases env s s1 stop Hr)
        as [(-> & _ & _ & Hflags)|(-> & _ & _ & _ & _ & _ & He1 & Hv1)].
      + injection Hloop as <-. intros [? ?].
        destruct Hflags as [[_ ?]|[? _]]; congruence.
      + apply (IH s1); congruence. }
  exact (H _ st He Hv Hrun).
Qed.

End RolloutInvariants.

(** * Properties of the batch helpers of the rollout engine *)

Section PadToMaxStack.

Import RolloutBatch.

(** X23. [pad_to_max_stack] along dimension [0] raises [ValueError] on an
    empty list; on a non-empty list it returns one row per tensor, every row
    as long as the longest tensor, and each row is its tensor followed by
    pad tokens only, so no token is dropped and the longest tensor is not
    padded. *)
Theorem pad_to_max_stack_rows (tensor_list : list (list Z)) (pad_token_id : Z) :
  pad_to_max_stack [] pad_token_id 0 = Raise ValueError
  /\ (tensor_list <> [] ->
      let max_len := max_list (length <$> tensor_list) in
      exists out,
        pad_to_max_stack tensor_list pad_token_id 0 = Ok out
        /\ length out = length tensor_list
        /\ Forall (fun r : list Z => length r = max_len) out
        /\ (forall i t, tensor_list !! i = Some t ->
              out !! i = Some (t ++ replicate (max_len - length t) pad_token_id))
        /\ exists t, t ∈ tensor_list /\ length t = max_len).
Proof.
  split; [done|]. intros Hne max_len.
  exists ((fun t : list Z => t ++ replicate (max_len - length t) pad_token_id)
            <$> tensor_list).
  split; [by destruct tensor_list|]. split; [by rewrite length_fmap|]. split; [|split].
  - apply Forall_fmap, Forall_forall. intros t Ht. simpl.
    rewrite length_app, length_replicate.
    assert (length t <= max_len)%nat.
    { apply max_list_elem_of_le. apply list_elem_of_fmap. eauto. }
    lia.
  - intros i t Hi. by rewrite list_lookup_fmap, Hi.
  - assert (Hin : max_len ∈ length <$> tensor_list).
    { apply max_list_elem_of. by destruct tensor_list. }
    apply list_elem_of_fmap in Hin as (t & Hlen & Ht). eauto.
Qed.

End PadToMaxStack.

Section SamplingParamsRoundTrip.

Import RolloutBatch.

Context {V : Type}.

Lemma update_sampling_params_enter_lookup (kwargs sampling_params : gmap string V)
    (key : string) :
  (update_sampling_params_enter kwargs sampling_params).1 !! key
  = match sampling_params !! key with
    | Some old_value => Some (default old_value (kwargs !! key))
    | None => None
    end
  /\ (update_sampling_params_enter kwargs sampling_params).2 !! key
     = match kwargs !! key with
       | Some _ => sampling_params !! key
       | None => None
       end.
Proof.
  unfold update_sampling_params_enter. revert key.
  apply (map_fold_weak_ind (fun (acc : gmap string V * gmap string V) m =>
    forall key,
      acc.1 !! key = match sampling_params !! key with
                     | Some old_value => Some (default old_value (m !! key))
                     | None => None
                     end
      /\ acc.2 !! key = match m !! key with
                        | Some _ => sampling_params !! key
                        | None => None
                        end)).
  - intros key. rewrite !lookup_empty. cbn. by destruct (sampling_params !! key).
  - intros i x m [sp old] Hi IH key. cbn [fst snd] in *.
    destruct (IH i) as [IHi1 IHi2]. rewrite Hi in IHi1, IHi2. cbn in IHi1.
    destruct (IH key) as [IH1 IH2].
    destruct (sp !! i) as [old_value|] eqn:Hspi; cbn [fst snd].
    + destruct (decide (i = key)) as [->|Hne].
      * rewrite !lookup_insert_eq.
        destruct (sampling_params !! key) as [v0|]; [|done].
        cbn. split; [done|]. congruence.
      * rewrite !lookup_insert_ne by done. done.
    + destruct (decide (i = key)) as [->|Hne].
      * rewrite lookup_insert_eq.
        destruct (sampling_params !! key) as [v0|]; [done|].
        rewrite IH1. done.
      * rewrite lookup_insert_ne by done. done.
Qed.

Lemma update_sampling_params_exit_lookup (old sampling_params : gmap string V)
    (key : string) :
  update_sampling_params_exit old sampling_params !! key
  = match old !! key with
    | Some value => Some value
    | None => sampling_params !! key
    end.
Proof.
  unfold update_sampling_params_exit. revert key.
  apply (map_fold_weak_ind (fun (sp : gmap string V) m =>
    forall key, sp !! key = match m !! key with
                            | Some value => Some value
                            | None => sampling_params !! key
                            end)).
  - intros key. by rewrite lookup_empty.
  - intros i x m sp Hi IH key. destruct (decide (i = key)) as [->|Hne].
    + by rewrite !lookup_insert_eq.
    + rewrite !lookup_insert_ne by done. apply IH.
Qed.

(** X25. Entering [update_sampling_params] sets exactly the keywords that
    name an attribute of the sampling parameters and adds no attribute.
    When the body of the [with] statement returns, every old value is set
    back and the sampling parameters are those from before; when the body
    raises, nothing is set back: the exception leaves the statement with the
    keyword values still in place. *)
Theorem update_sampling_params_restores {B : Type} (kwargs sampling_params : gmap string V)
    (body : gmap string V -> result B) :
  let entered := update_sampling_params_enter kwargs sampling_params in
  (forall b, body entered.1 = Ok b ->
     update_sampling_params kwargs sampling_params body = (sampling_params, Ok b))
  /\ (forall e, body entered.1 = Raise e ->
        update_sampling_params kwargs sampling_params body = (entered.1, Raise e))
  /\ dom entered.1 = dom sampling_params
  /\ (forall key old_value value,
        sampling_params !! key = Some old_value -> kwargs !! key = Some value ->
        entered.1 !! key = Some value)
  /\ (forall key, kwargs !! key = None -> entered.1 !! key = sampling_params !! key).
Proof.
  cbv zeta. split; [|split; [|split; [|split]]].
  - intros b Hb. unfold update_sampling_params. rewrite Hb. f_equal.
    apply map_eq. intros key. rewrite update_sampling_params_exit_lookup.
    destruct (update_sampling_params_enter_lookup kwargs sampling_params key) as [H1 H2].
    rewrite H1, H2.
    destruct (kwargs !! key), (sampling_params !! key); done.
  - intros e He. unfold update_sampling_params. by rewrite He.
  - apply set_eq. intros key. rewrite !elem_of_dom.
    destruct (update_sampling_params_enter_lookup kwargs sampling_params key) as [H1 _].
    rewrite H1. destruct (sampling_params !! key); split; intros [? ?]; eauto; done.
  - intros key old_value value Hsp Hkw.
    destruct (update_sampling_params_enter_lookup kwargs sampling_params key) as [H1 _].
    by rewrite H1, Hsp, Hkw.
  - intros key Hkw.
    destruct (update_sampling_params_enter_lookup kwargs sampling_params key) as [H1 _].
    rewrite H1, Hkw. by destruct (sampling_params !! key).
Qed.

End SamplingParamsRoundTrip.

Section RequestLayout.

Import RolloutBatch.

Context {Image A : Type}.
Variable calculate_image_token_num : Image -> Z.
Variable load_image : Image -> Image.

Let Req := @Request Image A.
Let of_prompt := @requests_of_prompt Image A calculate_image_token_num load_image.

Lemma length_join_same {X : Type} (n : nat) (ls : list (list X)) :
  Forall (fun l => length l = n) ls -> length (mjoin ls) = (length ls * n)%nat.
Proof.
  induction 1 as [|l ls Hl _ IH]; [done|].
  change (mjoin (l :: ls)) with (l ++ mjoin ls).
  rewrite length_app, IH, Hl. done.
Qed.

(** The requests of every prompt, when all image lists have two entries. *)
Lemma traverse_requests (n start : nat) (prompts : list (list Image * A)) :
  Forall (fun p : list Image * A => length p.1 = 2%nat) prompts ->
  exists lss : list (list Req),
    traverse (fun ip : nat * (list Image * A) => of_prompt n ip.1 ip.2)
             (zip (seq start (length prompts)) prompts) = Ok lss
    /\ length lss = length prompts
    /\ forall j p, prompts !! j = Some p ->
         exists image original_image_path,
           p.1 = [image; original_image_path]
           /\ lss !! j
              = Some ((fun idx => mkRequest (start + j) idx [image]
                                            (load_image original_image_path)
                                            (calculate_image_token_num image) p.2)
                        <$> seq 0 n).
Proof.
  intros Htwo. revert start.
  induction Htwo as [|p prompts Hp _ IH]; intros start.
  - exists []. split; [done|]. split; [done|]. intros j p Hj.
    by rewrite lookup_nil in Hj.
  - destruct (IH (S start)) as (lss & Htr & Hlen & Hat).
    destruct p as [imgs a]. cbn [fst snd] in *.
    destruct imgs as [|image [|orig [|c l]]]; try done.
    cbn [length seq zip zip_with traverse fst snd].
    assert (Hhead : of_prompt n start ([image; orig], a)
                    = Ok ((fun idx => mkRequest start idx [image] (load_image orig)
                                                (calculate_image_token_num image) a)
                            <$> seq 0 n)) by reflexivity.
    rewrite Hhead. cbn [mbind result_bind].
    change (zip_with pair (seq (S start) (length prompts)) prompts)
      with (zip (seq (S start) (length prompts)) prompts).
    rewrite Htr. cbn [mbind result_bind].
    eexists. split; [reflexivity|]. split; [cbn; by rewrite Hlen|].
    intros [|j] q Hq.
    + injection Hq as <-. exists image, orig. cbn. rewrite Nat.add_0_r. done.
    + cbn in Hq. destruct (Hat j q Hq) as (im & og & Hq1 & Hq2).
      exists im, og. split; [done|].
      replace (start + S j)%nat with (S start + j)%nat by lia. exact Hq2.
Qed.

(** X26. When every prompt has its two images and [n > 0], the requests
    come out in the order of [(batch_data_id, rollout_offset)]: there are
    [n] per prompt, request [k] has the identity [(k / n, k mod n)], one
    image, and the copied fields of prompt [k / n], which is also row [k] of
    the prompt data repeated by [_repeat_interleave]. *)
Theorem preprocess_requests_layout (prompts : list (list Image * A)) (n : nat) :
  Forall (fun p : list Image * A => length p.1 = 2%nat) prompts ->
  (0 < n)%nat ->
  exists reqs : list Req,
    preprocess_prompt_to_async_rollout_requests calculate_image_token_num load_image
      prompts n = Ok reqs
    /\ length reqs = (length prompts * n)%nat
    /\ forall k, (k < length prompts * n)%nat ->
         exists (r : Req) p,
           reqs !! k = Some r
           /\ prompts !! (k / n)%nat = Some p
           /\ batch_data_id r = (k / n)%nat
           /\ rollout_offset r = (k mod n)%nat
           /\ copied r = p.2
           /\ length (multi_modal_image r) = 1%nat
           /\ repeat_interleave (snd <$> prompts) n !! k = Some (copied r).
Proof.
  intros Htwo Hn.
  destruct (traverse_requests n 0 prompts Htwo) as (lss & Htr & Hlen & Hat).
  assert (Hsame : Forall (fun l : list Req => length l = n) lss).
  { apply Forall_lookup. intros j l Hl.
    destruct (lookup_lt_is_Some_2 prompts j) as [p Hp];
      [rewrite <- Hlen; by eapply lookup_lt_Some|].
    destruct (Hat j p Hp) as (im & og & _ & Hl').
    pose proof (eq_trans (eq_sym Hl) Hl') as E.
    injection E as ->. by rewrite length_fmap, length_seq. }
  exists (mjoin lss). split; [|split].
  - unfold preprocess_prompt_to_async_rollout_requests. fold of_prompt.
    by rewrite Htr.
  - by rewrite (length_join_same n lss Hsame), Hlen.
  - intros k Hk.
    assert (Hj : (k / n < length prompts)%nat)
      by (apply Nat.Div0.div_lt_upper_bound; lia).
    assert (Hi : (k mod n < n)%nat) by (apply Nat.mod_upper_bound; lia).
    assert (Hkn : k = (k / n * n + k mod n)%nat)
      by (rewrite (Nat.div_mod_eq k n) at 1; lia).
    destruct (lookup_lt_is_Some_2 prompts (k / n) Hj) as [p Hp].
    destruct (Hat (k / n)%nat p Hp) as (im & og & Himgs & Hl).
    set (r := mkRequest (0 + k / n) (k mod n) [im] (load_image og)
                        (calculate_image_token_num im) p.2 : Req).
    exists r, p.
    assert (Hr : mjoin lss !! k = Some r).
    { rewrite Hkn at 1. apply (join_lookup_Some_same_length' n lss _ _ r Hsame Hi).
      eexists. split; [exact Hl|].
      rewrite list_lookup_fmap, lookup_seq_lt by done. done. }
    repeat split; try done.
    unfold repeat_interleave. rewrite Hkn at 1.
    apply (join_lookup_Some_same_length' n); [|done|].
    + apply Forall_fmap, Forall_true. intros x. simpl. apply length_replicate.
    + eexists. split; [by rewrite !list_lookup_fmap, Hp|].
      by apply lookup_replicate_2.
Qed.

End RequestLayout.

Section PostProcessSingle.

Import RolloutBatch.

Context {Image : Type}.
Variable image_grid_thw : list Image -> list (list Z).
Variable merge_length : Z.

Let unmagic := fun x : Z => if bool_decide (x = magic_num) then image_pad_token else x.

Lemma count_pads_cons_pad (xs : list Z) :
  count_pads (image_pad_token :: xs) = S (count_pads xs).
Proof. unfold count_pads. by rewrite filter_cons_True. Qed.

Lemma count_pads_cons_other (x : Z) (xs : list Z) :
  x <> image_pad_token -> count_pads (x :: xs) = count_pads xs.
Proof. intros Hx. unfold count_pads. by rewrite filter_cons_False. Qed.

Lemma list_find_first_pad (done xs : list Z) :
  Forall (fun x => x <> image_pad_token) done ->
  list_find (fun x => x = image_pad_token) (done ++ image_pad_token :: xs)
  = Some (length done, image_pad_token).
Proof.
  intros Hdone. apply list_find_Some. split; [|split; [done|]].
  - by rewrite lookup_app_r, Nat.sub_diag by lia.
  - intros j y Hj Hlt. rewrite lookup_app_l in Hj by done.
    eapply (proj1 (Forall_lookup _ _) Hdone); eauto.
Qed.

Lemma list_find_no_pad (done : list Z) :
  Forall (fun x => x <> image_pad_token) done ->
  list_find (fun x => x = image_pad_token) done = None.
Proof. intros Hdone. by apply list_find_None. Qed.

(** One pass of the loop at the first image pad token. *)
Lemma expand_image_pads_step (fuel : nat) (grids : list (list Z)) (thw : list Z)
    (done xs dmask ms : list Z) (m : Z) (index : nat) :
  merge_length <> 0%Z ->
  Forall (fun x => x <> image_pad_token) done ->
  length done = length dmask ->
  grids !! index = Some thw ->
  expand_image_pads merge_length (S fuel) (Some grids)
    (done ++ image_pad_token :: xs) (dmask ++ m :: ms) index
  = expand_image_pads merge_length fuel (Some grids)
      ((done ++ replicate (image_token_count merge_length thw) magic_num) ++ xs)
      ((dmask ++ replicate (image_token_count merge_length thw) 0%Z) ++ ms)
      (S index).
Proof.
  intros Hm Hdone Hlen Hthw. cbn [expand_image_pads].
  rewrite (list_find_first_pad done xs Hdone), Hthw.
  rewrite bool_decide_eq_false_2 by done.
  assert (Hdrop : forall (a : Z) (l1 l2 : list Z) (k : nat),
             k = length l1 -> drop (S k) (l1 ++ a :: l2) = l2).
  { intros a l1 l2 k ->. rewrite drop_app_ge by lia.
    by replace (S (length l1) - length l1)%nat with 1%nat by lia. }
  assert (Htake : forall (l1 l2 : list Z) (k : nat),
             k = length l1 -> take k (l1 ++ l2) = l1).
  { intros l1 l2 k ->. apply take_app_length. }
  rewrite (Hdrop _ done xs), (Hdrop _ dmask ms) by done.
  rewrite (Htake done), (Htake dmask) by done.
  unfold image_token_count. by rewrite <- !app_assoc.
Qed.

(** The loop of [post_process_single] computes the single pass, when the
    grids from [index] on cover the image pad tokens that are left. *)
Lemma expand_image_pads_single_pass (grids : list (list Z)) (rest : list Z) :
  merge_length <> 0%Z ->
  forall fuel done dmask rmask index,
    Forall (fun x => x <> image_pad_token) done ->
    length done = length dmask ->
    length rest = length rmask ->
    (count_pads rest <= fuel)%nat ->
    (count_pads rest <= length (drop index grids))%nat ->
    exists r,
      expand_image_pads merge_length fuel (Some grids) (done ++ rest) (dmask ++ rmask) index
      = Ok r
      /\ unmagic <$> r.1
         = (unmagic <$> done)
             ++ single_pass_ids (image_token_count merge_length <$> drop index grids) rest
      /\ r.2
         = dmask
             ++ single_pass_masks (image_token_count merge_length <$> drop index grids)
                  rest rmask.
Proof.
  intros Hm. induction rest as [|x xs IH];
    intros fuel done dmask rmask index Hdone Hlen Hrl Hfuel Hgrids.
  - destruct rmask; [|done]. rewrite !app_nil_r. exists (done, dmask).
    split; [|done].
    destruct fuel; [done|]. cbn [expand_image_pads].
    by rewrite (list_find_no_pad done Hdone).
  - destruct rmask as [|m ms]; [done|]. injection Hrl as Hrl.
    destruct (decide (x = image_pad_token)) as [->|Hx].
    + rewrite count_pads_cons_pad in Hfuel, Hgrids.
      destruct fuel as [|fuel]; [lia|].
      rewrite length_drop in Hgrids.
      destruct (lookup_lt_is_Some_2 grids index) as [thw Hthw]; [lia|].
      rewrite (expand_image_pads_step fuel grids thw done xs dmask ms m index)
        by done.
      destruct (IH fuel (done ++ replicate (image_token_count merge_length thw) magic_num)
                  (dmask ++ replicate (image_token_count merge_length thw) 0%Z)
                  ms (S index)) as (r & Hr & Hids & Hmasks).
      * apply Forall_app. split; [done|]. by apply Forall_replicate.
      * by rewrite !length_app, !length_replicate, Hlen.
      * done.
      * lia.
      * rewrite length_drop. lia.
      * exists r. split; [done|].
        rewrite (drop_S grids thw index Hthw). cbn [fmap list_fmap single_pass_ids
                                                   single_pass_masks].
        rewrite bool_decide_eq_true_2 by done.
        rewrite Hids, Hmasks, fmap_app, fmap_replicate, <- !app_assoc.
        done.
    + rewrite (count_pads_cons_other x xs Hx) in Hfuel, Hgrids.
      rewrite (cons_middle x done xs), app_assoc.
      rewrite (cons_middle m dmask ms), (app_assoc dmask [m] ms).
      destruct (IH fuel (done ++ [x]) (dmask ++ [m]) ms index)
        as (r & Hr & Hids & Hmasks).
      * apply Forall_app. split; [done|]. by apply Forall_singleton.
      * rewrite !length_app. simpl. lia.
      * done.
      * done.
      * done.
      * exists r. split; [done|]. cbn [single_pass_ids single_pass_masks].
        rewrite bool_decide_eq_false_2 by done.
        rewrite Hids, Hmasks, fmap_app, <- !app_assoc. done.
Qed.

(** The loop raises [IndexError] when the grids from [index] on are fewer
    than the image pad tokens that are left. *)
Lemma expand_image_pads_index_error (grids : list (list Z)) (rest : list Z) :
  merge_length <> 0%Z ->
  forall fuel done dmask rmask index,
    Forall (fun x => x <> image_pad_token) done ->
    length done = length dmask ->
    length rest = length rmask ->
    (count_pads rest <= fuel)%nat ->
    (length grids - index < count_pads rest)%nat ->
    expand_image_pads merge_length fuel (Some grids) (done ++ rest) (dmask ++ rmask) index
    = Raise IndexError.
Proof.
  intros Hm. induction rest as [|x xs IH];
    intros fuel done dmask rmask index Hdone Hlen Hrl Hfuel Hgrids.
  - unfold count_pads in Hgrids. simpl in Hgrids. lia.
  - destruct rmask as [|m ms]; [done|]. injection Hrl as Hrl.
    destruct (decide (x = image_pad_token)) as [->|Hx].
    + rewrite count_pads_cons_pad in Hfuel, Hgrids.
      destruct fuel as [|fuel]; [lia|].
      destruct (grids !! index) as [thw|] eqn:Hthw.
      * rewrite (expand_image_pads_step fuel grids thw done xs dmask ms m index)
          by done.
        apply lookup_lt_Some in Hthw.
        apply IH; try done; try lia.
        -- apply Forall_app. split; [done|]. by apply Forall_replicate.
        -- by rewrite !length_app, !length_replicate, Hlen.
      * cbn [expand_image_pads].
        by rewrite (list_find_first_pad done xs Hdone), Hthw.
    + rewrite (count_pads_cons_other x xs Hx) in Hfuel, Hgrids.
      rewrite (cons_middle x done xs), app_assoc.
      rewrite (cons_middle m dmask ms), (app_assoc dmask [m] ms).
      apply IH; try done.
      * apply Forall_app. split; [done|]. by apply Forall_singleton.
      * rewrite !length_app. simpl. lia.
Qed.

Lemma count_pads_le_length (ids : list Z) : (count_pads ids <= length ids)%nat.
Proof. apply length_filter. Qed.

(** X24. With more than one image, a non-zero merge length, mask fragments
    that cover the response, and at least as many image grids as the
    response has image pad tokens, [post_process_single] returns the single
    left-to-right pass over the response: image pad token [k] is expanded to
    the token count of image [k + 1] with mask [0], and all other mask
    entries are kept. *)
Theorem post_process_single_single_pass (prefix_length : nat) (prompt_token_ids : list Z)
    (images : list Image) (multi_turn_response_mask : list (list Z)) :
  merge_length <> 0%Z ->
  (1 < length images)%nat ->
  drop 1 multi_turn_response_mask <> [] ->
  length (drop prefix_length prompt_token_ids)
  = length (mjoin (drop 1 multi_turn_response_mask)) ->
  (count_pads (drop prefix_length prompt_token_ids)
   <= length (image_grid_thw (drop 1 images)))%nat ->
  let counts := image_token_count merge_length <$> image_grid_thw (drop 1 images) in
  post_process_single image_grid_thw merge_length prefix_length prompt_token_ids images
    multi_turn_response_mask
  = Ok (single_pass_ids counts (drop prefix_length prompt_token_ids),
        single_pass_masks counts (drop prefix_length prompt_token_ids)
          (mjoin (drop 1 multi_turn_response_mask))).
Proof.
  intros Hm Himgs Hfrag Hlen Hcount counts. unfold post_process_single.
  destruct (drop 1 multi_turn_response_mask) as [|f fs] eqn:Hd; [done|].
  apply Nat.ltb_lt in Himgs. rewrite Himgs.
  rewrite (proj2 (Nat.eqb_eq _ _) Hlen).
  destruct (expand_image_pads_single_pass (image_grid_thw (drop 1 images))
              (drop prefix_length prompt_token_ids) Hm
              (length (drop prefix_length prompt_token_ids)) [] []
              (mjoin (f :: fs)) 0%nat)
    as (r & Hr & Hids & Hmasks); try done.
  - apply count_pads_le_length.
  - cbn [app] in Hr. rewrite Hr. cbn [app fmap list_fmap drop] in Hids, Hmasks.
    fold unmagic. by rewrite Hids, Hmasks.
Qed.

(** X27. With at most one image, [image_grid_thws] is never bound: when the
    mask fragments cover the response and the response holds an image pad
    token, [post_process_single] fails with [UnboundLocalError]. *)
Theorem post_process_single_unbound_grids (prefix_length : nat) (prompt_token_ids : list Z)
    (images : list Image) (multi_turn_response_mask : list (list Z)) :
  (length images <= 1)%nat ->
  drop 1 multi_turn_response_mask <> [] ->
  length (drop prefix_length prompt_token_ids)
  = length (mjoin (drop 1 multi_turn_response_mask)) ->
  image_pad_token ∈ drop prefix_length prompt_token_ids ->
  post_process_single image_grid_thw merge_length prefix_length prompt_token_ids images
    multi_turn_response_mask
  = Raise UnboundLocalError.
Proof.
  intros Himgs Hfrag Hlen Hin. unfold post_process_single.
  destruct (drop 1 multi_turn_response_mask) as [|f fs] eqn:Hd; [done|].
  rewrite (proj2 (Nat.ltb_ge _ _) Himgs).
  rewrite (proj2 (Nat.eqb_eq _ _) Hlen).
  destruct (drop prefix_length prompt_token_ids) as [|x xs] eqn:Hids.
  { by apply elem_of_nil in Hin. }
  cbn [length expand_image_pads].
  destruct (list_find_elem_of (fun y => y = image_pad_token) (x :: xs)
              image_pad_token Hin eq_refl) as [[pos y] Hfind].
  by rewrite Hfind.
Qed.

(** X28. With more than one image and a non-zero merge length, a response
    that holds more image pad tokens than there are image grids makes
    [post_process_single] fail with [IndexError]. *)
Theorem post_process_single_index_error (prefix_length : nat) (prompt_token_ids : list Z)
    (images : list Image) (multi_turn_response_mask : list (list Z)) :
  merge_length <> 0%Z ->
  (1 < length images)%nat ->
  drop 1 multi_turn_response_mask <> [] ->
  length (drop prefix_length prompt_token_ids)
  = length (mjoin (drop 1 multi_turn_response_mask)) ->
  (length (image_grid_thw (drop 1 images))
   < count_pads (drop prefix_length prompt_token_ids))%nat ->
  post_process_single image_grid_thw merge_length prefix_length prompt_token_ids images
    multi_turn_response_mask
  = Raise IndexError.
Proof.
  intros Hm Himgs Hfrag Hlen Hcount. unfold post_process_single.
  destruct (drop 1 multi_turn_response_mask) as [|f fs] eqn:Hd; [done|].
  apply Nat.ltb_lt in Himgs. rewrite Himgs.
  rewrite (proj2 (Nat.eqb_eq _ _) Hlen).
  assert (Herr := expand_image_pads_index_error (image_grid_thw (drop 1 images))
                    (drop prefix_length prompt_token_ids) Hm
                    (length (drop prefix_length prompt_token_ids)) [] []
                    (mjoin (f :: fs)) 0%nat).
  cbn [app] in Herr. rewrite Herr; try done.
  - apply count_pads_le_length.
  - lia.
Qed.

End PostProcessSingle.

(** * The further theorems at concrete inputs *)

Section FurtherWitnesses.

Import RolloutBatch.

(** [get_kl_controller_fixed_or_unknown] on a fixed configuration and on
    one of the unknown type [linear]. *)
Lemma get_kl_controller_fixed_or_unknown_witness :
  get_kl_controller (mkConfig (mkKLCtrl "fixed" 0.001 0.1 0) None)
  = Py.Ok (Fixed (mkFixed 0.001))
  /\ get_kl_controller (mkConfig (mkKLCtrl "linear" 0.001 0.1 0) None)
     = Py.Raise Py.ValueError.
Proof.
  split.
  - apply (proj1 (get_kl_controller_fixed_or_unknown
                    (mkConfig (mkKLCtrl "fixed" 0.001 0.1 0) None))).
    reflexivity.
  - apply (proj2 (get_kl_controller_fixed_or_unknown
                    (mkConfig (mkKLCtrl "linear" 0.001 0.1 0) None)));
      simpl; discriminate.
Defined.

(** [adaptive_update_bounded] on a controller with target [0.1] and
    horizon [10], one step at the current KL [0.3]. *)
Lemma adaptive_update_bounded_witness :
  (0 < 10)%Z /\ (0 <= 1)%Z /\ 0 <= 0.001 /\ 0.1 <> 0
  /\ exists c',
       adaptive_update (mkAdaptive 0.001 0.1 10) 0.3 1 = Py.Ok c'
       /\ 0.001 * (1 - 0.2 * IZR 1 / IZR 10) <= a_value c'
          <= 0.001 * (1 + 0.2 * IZR 1 / IZR 10).
Proof.
  assert (H1 : (0 < a_horizon (mkAdaptive 0.001 0.1 10))%Z) by (simpl; lia).
  assert (H2 : (0 <= 1)%Z) by lia.
  assert (H3 : 0 <= a_value (mkAdaptive 0.001 0.1 10)) by (simpl; lra).
  assert (H4 : a_target (mkAdaptive 0.001 0.1 10) <> 0) by (simpl; lra).
  split; [exact H1|]. split; [exact H2|]. split; [exact H3|]. split; [exact H4|].
  destruct (proj2 (adaptive_update_bounded (mkAdaptive 0.001 0.1 10) 0.3 1 H1 H2 H3) H4)
    as (c' & Hc' & Hbound & _).
  exists c'. split; [exact Hc' | exact Hbound].
Defined.



(** [rloo_leave_one_out] on the first of two rows with rewards [1] and [3]. *)
Lemma rloo_leave_one_out_witness :
  zip [7%Z; 7%Z] (row_sum [[1]; [3]]) !! 0%nat = Some (7%Z, vsum [1])
  /\ (1 < length (group_of 7 [7%Z; 7%Z] (row_sum [[1]; [3]]%R)))%nat
  /\ exists sc,
       rloo_scores [[1]; [3]] [7%Z; 7%Z] = Py.Ok sc
       /\ sc !! 0%nat
          = Some (vsum [1]
                  - (vsum (group_of 7 [7%Z; 7%Z] (row_sum [[1]; [3]])) - vsum [1])
                    / (INR (length (group_of 7 [7%Z; 7%Z] (row_sum [[1]; [3]]))) - 1)).
Proof.
  assert (H1 : zip [7%Z; 7%Z] (row_sum [[1]; [3]]) !! 0%nat = Some (7%Z, vsum [1]))
    by reflexivity.
  assert (H2 : (1 < length (group_of 7 [7%Z; 7%Z] (row_sum [[1]; [3]]%R)))%nat)
    by (simpl; lia).
  split; [exact H1|]. split; [exact H2|].
  exact (rloo_leave_one_out [[1]; [3]] [7%Z; 7%Z] 0 7 (vsum [1]) H1 H2).
Defined.

(** [reinforce_returns_recurrence] on the rewards [[0, 0, 1]]. *)
Lemma reinforce_returns_recurrence_witness :
  length [[1; 1; 1]] = length [[0; 0; 1]]
  /\ rectangular [[0; 0; 1]]
  /\ (0 < length [[0; 0; 1]])%nat
  /\ (0 < width [[0; 0; 1]]%R)%nat
  /\ at2 (compute_reinforce_plus_plus_outcome_advantage no_whiten [[0; 0; 1]]
            [[1; 1; 1]] 1).2 0 0
     = at2 [[0; 0; 1]] 0 0
       + 1 * (if decide (0 + 1 < width [[0; 0; 1]]%R)%nat
              then at2 (compute_reinforce_plus_plus_outcome_advantage no_whiten
                          [[0; 0; 1]] [[1; 1; 1]] 1).2 0 (0 + 1)
                   * at2 [[1; 1; 1]] 0 (0 + 1)
              else 0).
Proof.
  assert (H1 : length [[1; 1; 1]] = length [[0; 0; 1]]) by reflexivity.
  assert (H2 : rectangular [[0; 0; 1]]) by (repeat constructor).
  assert (H3 : (0 < length [[0; 0; 1]])%nat) by (simpl; lia).
  assert (H4 : (0 < width [[0; 0; 1]]%R)%nat) by (simpl; lia).
  split; [exact H1|]. split; [exact H2|]. split; [exact H3|]. split; [exact H4|].
  exact (reinforce_returns_recurrence no_whiten [[0; 0; 1]] [[1; 1; 1]] 1 0 0
           H1 H2 H3 H4).
Defined.

(** [remax_closed_form] on one row with rewards [1] and [2]. *)
Lemma remax_closed_form_witness :
  [[1; 2]] !! 0%nat = Some [1; 2]
  /\ [[1; 1]] !! 0%nat = Some [1; 1]
  /\ [1] !! 0%nat = Some 1
  /\ (0 < length [1; 2])%nat
  /\ (0 < length [1; 1])%nat
  /\ at2 (compute_remax_outcome_advantage [[1; 2]] [1] [[1; 1]]).2 0 0
     = vsum (drop 0 (zip_with Rmult [1; 2] [1; 1])).
Proof.
  assert (H1 : [[1; 2]] !! 0%nat = Some [1; 2]) by reflexivity.
  assert (H2 : [[1; 1]] !! 0%nat = Some [1; 1]) by reflexivity.
  assert (H3 : [1] !! 0%nat = Some 1) by reflexivity.
  assert (H4 : (0 < length [1; 2])%nat) by (simpl; lia).
  assert (H5 : (0 < length [1; 1])%nat) by (simpl; lia).
  split; [exact H1|]. split; [exact H2|]. split; [exact H3|]. split; [exact H4|].
  split; [exact H5|].
  exact (proj1 (remax_closed_form [[1; 2]] [1] [[1; 1]] 0 0 [1; 2] [1; 1] 1
                  H1 H2 H3 H4 H5)).
Defined.

(** [compute_policy_loss_on_policy] for one live token. *)
Lemma compute_policy_loss_on_policy_witness :
  is_agg_mode "token-mean" = true
  /\ same_shape [[1]] [[0]]
  /\ 0 <= 0.2
  /\ 0 < msum [[1]]
  /\ exists loss,
       agg_loss (mmap Ropp [[1]]) [[1]] "token-mean" 1 1e-6 = Py.Ok loss
       /\ compute_policy_loss [[0]] [[0]] [[1]] [[1]] None (Some 0.2) (Some 0.2)
            "token-mean" 1
          = Py.Ok (loss, 0, 0).
Proof.
  assert (H1 : is_agg_mode "token-mean" = true) by reflexivity.
  assert (H2 : same_shape [[1]] [[0]]) by reflexivity.
  assert (H3 : 0 <= 0.2) by lra.
  assert (H4 : 0 < msum [[1]]) by (unfold msum, row_sum, vsum; simpl; lra).
  split; [exact H1|]. split; [exact H2|]. split; [exact H3|]. split; [exact H4|].
  exact (compute_policy_loss_on_policy [[0]] [[1]] [[1]] None 0.2 0.2 "token-mean" 1
           H1 H2 H3 H3 H4).
Defined.

(** [compute_policy_loss_gspo_shape_error] on two rows of width three. *)
Lemma compute_policy_loss_gspo_shape_error_witness :
  length [[0; 0; 0]; [0; 0; 0]] = length [[1; 1; 1]; [1; 1; 1]]
  /\ width [[1; 1; 1]; [1; 1; 1]]%R <> length [[1; 1; 1]; [1; 1; 1]]
  /\ length [[1; 1; 1]; [1; 1; 1]] <> 1%nat
  /\ width [[1; 1; 1]; [1; 1; 1]]%R <> 1%nat
  /\ compute_policy_loss_gspo [[0; 0; 0]; [0; 0; 0]] [[0; 0; 0]; [0; 0; 0]]
       [[1; 1; 1]; [1; 1; 1]] [[1; 1; 1]; [1; 1; 1]] "token-mean"
       (Some 0.2) None None 1e-6
     = Py.Raise Py.RuntimeError.
Proof.
  assert (H1 : length [[0; 0; 0]; [0; 0; 0]] = length [[1; 1; 1]; [1; 1; 1]])
    by reflexivity.
  assert (H2 : width [[1; 1; 1]; [1; 1; 1]]%R <> length [[1; 1; 1]; [1; 1; 1]])
    by (simpl; lia).
  assert (H3 : length [[1; 1; 1]; [1; 1; 1]] <> 1%nat) by (simpl; lia).
  assert (H4 : width [[1; 1; 1]; [1; 1; 1]]%R <> 1%nat) by (simpl; lia).
  split; [exact H1|]. split; [exact H2|]. split; [exact H3|]. split; [exact H4|].
  exact (compute_policy_loss_gspo_shape_error [[0; 0; 0]; [0; 0; 0]]
           [[0; 0; 0]; [0; 0; 0]] [[1; 1; 1]; [1; 1; 1]] [[1; 1; 1]; [1; 1; 1]]
           "token-mean" (Some 0.2) None None 1e-6 H1 H1 H2 H3 H4).
Defined.

(** [gae_lam_zero_returns] on the rewards [[0, 0, 1]] and values [[1, 2, 3]]. *)
Lemma gae_lam_zero_returns_witness :
  length [[1; 2; 3]] = length [[0; 0; 1]]
  /\ (0 < width [[0; 0; 1]]%R)%nat
  /\ Forall (fun r : vec => length r = width [[0; 0; 1]]) [[1; 2; 3]]
  /\ (0 < length [[0; 0; 1]])%nat
  /\ exists adv ret,
       compute_gae_advantage_return no_whiten [[0; 0; 1]] [[1; 2; 3]] [[1; 1; 1]] 1 0
       = Py.Ok (adv, ret)
       /\ at2 ret 0 0
          = at2 [[0; 0; 1]] 0 0
            + 1 * (if (0 + 1 <? width [[0; 0; 1]]%R)%nat
                   then at2 [[1; 2; 3]] 0 (0 + 1) else 0).
Proof.
  assert (H1 : length [[1; 2; 3]] = length [[0; 0; 1]]) by reflexivity.
  assert (H2 : (0 < width [[0; 0; 1]]%R)%nat) by (simpl; lia).
  assert (H3 : Forall (fun r : vec => length r = width [[0; 0; 1]]) [[1; 2; 3]])
    by (repeat constructor).
  assert (H4 : (0 < length [[0; 0; 1]])%nat) by (simpl; lia).
  split; [exact H1|]. split; [exact H2|]. split; [exact H3|]. split; [exact H4|].
  exact (gae_lam_zero_returns no_whiten [[0; 0; 1]] [[1; 2; 3]] [[1; 1; 1]] 1 0 0
           H1 H2 H3 H4 H2).
Defined.

(** [gae_monte_carlo_returns] on the rewards [[0, 0, 1]] and values [[1, 2, 3]]. *)
Lemma gae_monte_carlo_returns_witness :
  length [[1; 2; 3]] = length [[0; 0; 1]]
  /\ (0 < width [[0; 0; 1]]%R)%nat
  /\ Forall (fun r : vec => length r = width [[0; 0; 1]]) [[1; 2; 3]]
  /\ rectangular [[0; 0; 1]]
  /\ [[0; 0; 1]] !! 0%nat = Some [0; 0; 1]
  /\ exists adv ret,
       compute_gae_advantage_return no_whiten [[0; 0; 1]] [[1; 2; 3]] [[1; 1; 1]] 1 1
       = Py.Ok (adv, ret)
       /\ at2 ret 0 0 = vsum (drop 0 [0; 0; 1]).
Proof.
  assert (H1 : length [[1; 2; 3]] = length [[0; 0; 1]]) by reflexivity.
  assert (H2 : (0 < width [[0; 0; 1]]%R)%nat) by (simpl; lia).
  assert (H3 : Forall (fun r : vec => length r = width [[0; 0; 1]]) [[1; 2; 3]])
    by (repeat constructor).
  assert (H4 : rectangular [[0; 0; 1]]) by (repeat constructor).
  assert (H5 : [[0; 0; 1]] !! 0%nat = Some [0; 0; 1]) by reflexivity.
  split; [exact H1|]. split; [exact H2|]. split; [exact H3|]. split; [exact H4|].
  split; [exact H5|].
  exact (gae_monte_carlo_returns no_whiten [[0; 0; 1]] [[1; 2; 3]] [[1; 1; 1]] 0 0
           [0; 0; 1] H1 H2 H3 H4 H5 H2).
Defined.

(** [rollout_keeps_response_aligned] on [st0] in [env0]. *)
Lemma rollout_keeps_response_aligned_witness :
  response_aligned 3 (Rollout.buffers st0)
  /\ exists st',
       Rollout.rollout env0 st0 = Py.Ok st'
       /\ response_aligned 3 (Rollout.buffers st').
Proof.
  assert (H1 : response_aligned 3 (Rollout.buffers st0)).
  { exists [0; 0; 0]%Z, []. repeat split; simpl; lia. }
  split; [exact H1|].
  destruct (Rollout.rollout env0 st0) as [st'|e] eqn:Hrun;
    [|vm_compute in Hrun; discriminate].
  exists st'. split; [reflexivity|].
  exact (rollout_keeps_response_aligned env0 3 st0 st' H1 Hrun).
Defined.

(** [rollout_keeps_images_bounded] on [st0] in [env0]. *)
Lemma rollout_keeps_images_bounded_witness :
  images_aligned (Rollout.buffers st0)
  /\ (Z.of_nat (length (Rollout.images (Rollout.buffers st0)))
      <= Rollout.max_image_num env0)%Z
  /\ exists st',
       Rollout.rollout env0 st0 = Py.Ok st'
       /\ (Z.of_nat (length (Rollout.images (Rollout.buffers st')))
           <= Rollout.max_image_num env0)%Z.
Proof.
  assert (H1 : images_aligned (Rollout.buffers st0)) by (split; reflexivity).
  assert (H2 : (Z.of_nat (length (Rollout.images (Rollout.buffers st0)))
                <= Rollout.max_image_num env0)%Z) by (simpl; lia).
  split; [exact H1|]. split; [exact H2|].
  destruct (Rollout.rollout env0 st0) as [st'|e] eqn:Hrun;
    [|vm_compute in Hrun; discriminate].
  exists st'. split; [reflexivity|].
  exact (proj2 (rollout_keeps_images_bounded env0 st0 st' H1 H2 Hrun)).
Defined.

(** [rollout_ends_with_break] on [st0] in [env0]. *)
Lemma rollout_ends_with_break_witness :
  (Rollout.current_iteration st0 < Rollout.max_iterations env0)%Z
  /\ exists st',
       Rollout.rollout env0 st0 = Py.Ok st'
       /\ (Rollout.current_iteration st' + 1 <= Rollout.max_iterations env0)%Z.
Proof.
  assert (H1 : (Rollout.current_iteration st0 < Rollout.max_iterations env0)%Z)
    by (simpl; lia).
  split; [exact H1|].
  destruct (Rollout.rollout env0 st0) as [st'|e] eqn:Hrun;
    [|vm_compute in Hrun; discriminate].
  exists st'. split; [reflexivity|].
  exact (proj1 (rollout_ends_with_break env0 st0 st' H1 Hrun)).
Defined.

(** [rollout_fuel_enough] on [st0] in [env0], with five passes allowed. *)
Lemma rollout_fuel_enough_witness :
  (Z.to_nat (Rollout.max_iterations env0 - Rollout.current_iteration st0) <= 5)%nat
  /\ Rollout.rollout_loop env0 5 st0 = Rollout.rollout env0 st0.
Proof.
  assert (H1 : (Z.to_nat (Rollout.max_iterations env0 - Rollout.current_iteration st0)
                <= 5)%nat) by (simpl; lia).
  split; [exact H1|].
  exact (rollout_fuel_enough env0 5 st0 H1).
Defined.

(** [rollout_exceed_void_exclusive] on [st0] in [env0]. *)
Lemma rollout_exceed_void_exclusive_witness :
  Rollout.exceed st0 = false
  /\ Rollout.void st0 = false
  /\ exists st',
       Rollout.rollout env0 st0 = Py.Ok st'
       /\ ~ (Rollout.exceed st' = true /\ Rollout.void st' = true).
Proof.
  assert (H1 : Rollout.exceed st0 = false) by reflexivity.
  assert (H2 : Rollout.void st0 = false) by reflexivity.
  split; [exact H1|]. split; [exact H2|].
  destruct (Rollout.rollout env0 st0) as [st'|e] eqn:Hrun;
    [|vm_compute in Hrun; discriminate].
  exists st'. split; [reflexivity|].
  exact (rollout_exceed_void_exclusive env0 st0 st' H1 H2 Hrun).
Defined.

(** [pad_to_max_stack_rows] on two tensors of lengths [2] and [1]. *)
Lemma pad_to_max_stack_rows_witness :
  [[1; 2]; [3]]%Z <> []
  /\ exists out,
       pad_to_max_stack [[1; 2]; [3]]%Z 0 0 = Ok out
       /\ length out = 2%nat.
Proof.
  assert (H1 : [[1; 2]; [3]]%Z <> []) by discriminate.
  split; [exact H1|].
  destruct (proj2 (pad_to_max_stack_rows [[1; 2]; [3]]%Z 0) H1)
    as (out & Hout & Hlen & _).
  exists out. split; [exact Hout | exact Hlen].
Defined.

(** [update_sampling_params_restores] for the keyword [temperature] on
    parameters with [temperature] and [top_p], with a body that returns and
    with a body that raises. *)
Lemma update_sampling_params_restores_witness :
  let kwargs : gmap string Z := {[ "temperature"%string := 1%Z ]} in
  let sampling_params : gmap string Z :=
    <[ "temperature"%string := 7%Z ]> {[ "top_p"%string := 9%Z ]} in
  sampling_params !! "temperature"%string = Some 7%Z
  /\ kwargs !! "temperature"%string = Some 1%Z
  /\ update_sampling_params kwargs sampling_params (fun _ => Ok tt)
     = (sampling_params, Ok tt)
  /\ (update_sampling_params kwargs sampling_params
        (fun _ => Raise RuntimeError : result unit)).1 !! "temperature"%string
     = Some 1%Z.
Proof.
  intros kwargs sampling_params.
  assert (H1 : sampling_params !! "temperature"%string = Some 7%Z)
    by (vm_compute; reflexivity).
  assert (H2 : kwargs !! "temperature"%string = Some 1%Z)
    by (vm_compute; reflexivity).
  split; [exact H1|]. split; [exact H2|]. split.
  - exact (proj1 (update_sampling_params_restores kwargs sampling_params
                    (fun _ => Ok tt)) tt eq_refl).
  - destruct (update_sampling_params_restores kwargs sampling_params
                (fun _ => Raise RuntimeError : result unit))
      as (_ & Hraise & _ & Hset & _).
    rewrite (Hraise RuntimeError eq_refl). cbn [fst].
    exact (Hset "temperature"%string 7%Z 1%Z H1 H2).
Defined.

(** [preprocess_requests_layout] on one prompt with two rollouts. *)
Lemma preprocess_requests_layout_witness :
  Forall (fun p : list nat * nat => length p.1 = 2%nat) [([1; 2], 10)]%nat
  /\ (0 < 2)%nat
  /\ exists reqs,
       preprocess_prompt_to_async_rollout_requests (fun _ : nat => 5%Z) (fun im => im)
         [([1; 2], 10)]%nat 2 = Ok reqs
       /\ length reqs = 2%nat.
Proof.
  assert (H1 : Forall (fun p : list nat * nat => length p.1 = 2%nat) [([1; 2], 10)]%nat)
    by (repeat constructor).
  assert (H2 : (0 < 2)%nat) by lia.
  split; [exact H1|]. split; [exact H2|].
  destruct (preprocess_requests_layout (fun _ : nat => 5%Z) (fun im => im)
              [([1; 2], 10)]%nat 2 H1 H2) as (reqs & Hreqs & Hlen & _).
  exists reqs. split; [exact Hreqs | exact Hlen].
Defined.

(** [post_process_single_single_pass] on a response with one image pad
    token and one cropped image of sixteen patches, merged by four. *)
Lemma post_process_single_single_pass_witness :
  4%Z <> 0%Z
  /\ (1 < length [0; 1]%nat)%nat
  /\ drop 1 [[0]; [1; 1; 1]]%Z <> []
  /\ length (drop 1 [7; 151655; 9; 8]%Z) = length (mjoin (drop 1 [[0]; [1; 1; 1]]%Z))
  /\ (count_pads (drop 1 [7; 151655; 9; 8]%Z) <= length (grid0 (drop 1 [0; 1]%nat)))%nat
  /\ post_process_single grid0 4 1 [7; 151655; 9; 8]%Z [0; 1]%nat [[0]; [1; 1; 1]]%Z
     = Ok ([151655; 151655; 151655; 151655; 9; 8]%Z, [0; 0; 0; 0; 1; 1]%Z).
Proof.
  assert (H1 : 4%Z <> 0%Z) by discriminate.
  assert (H2 : (1 < length [0; 1]%nat)%nat) by (simpl; lia).
  assert (H3 : drop 1 [[0]; [1; 1; 1]]%Z <> []) by discriminate.
  assert (H4 : length (drop 1 [7; 151655; 9; 8]%Z)
               = length (mjoin (drop 1 [[0]; [1; 1; 1]]%Z))) by reflexivity.
  assert (H5 : (count_pads (drop 1 [7; 151655; 9; 8]%Z)
                <= length (grid0 (drop 1 [0; 1]%nat)))%nat) by (vm_compute; lia).
  split; [exact H1|]. split; [exact H2|]. split; [exact H3|]. split; [exact H4|].
  split; [exact H5|].
  exact (post_process_single_single_pass grid0 4 1 [7; 151655; 9; 8]%Z [0; 1]%nat
           [[0]; [1; 1; 1]]%Z H1 H2 H3 H4 H5).
Defined.

(** [post_process_single_unbound_grids] on a response with an image pad
    token, with the original image only. *)
Lemma post_process_single_unbound_grids_witness :
  (length [0%nat] <= 1)%nat
  /\ drop 1 [[0]; [1; 1; 1]]%Z <> []
  /\ length (drop 1 [7; 151655; 9; 8]%Z) = length (mjoin (drop 1 [[0]; [1; 1; 1]]%Z))
  /\ image_pad_token ∈ drop 1 [7; 151655; 9; 8]%Z
  /\ post_process_single grid0 4 1 [7; 151655; 9; 8]%Z [0%nat] [[0]; [1; 1; 1]]%Z
     = Raise UnboundLocalError.
Proof.
  assert (H1 : (length [0%nat] <= 1)%nat) by (simpl; lia).
  assert (H2 : drop 1 [[0]; [1; 1; 1]]%Z <> []) by discriminate.
  assert (H3 : length (drop 1 [7; 151655; 9; 8]%Z)
               = length (mjoin (drop 1 [[0]; [1; 1; 1]]%Z))) by reflexivity.
  assert (H4 : image_pad_token ∈ drop 1 [7; 151655; 9; 8]%Z)
    by (simpl; repeat constructor).
  split; [exact H1|]. split; [exact H2|]. split; [exact H3|]. split; [exact H4|].
  exact (post_process_single_unbound_grids grid0 4 1 [7; 151655; 9; 8]%Z [0%nat]
           [[0]; [1; 1; 1]]%Z H1 H2 H3 H4).
Defined.

(** [post_process_single_index_error] on a response with two image pad
    tokens and one cropped image. *)
Lemma post_process_single_index_error_witness :
  4%Z <> 0%Z
  /\ (1 < length [0; 1]%nat)%nat
  /\ drop 1 [[0]; [1; 1]]%Z <> []
  /\ length (drop 1 [7; 151655; 151655]%Z) = length (mjoin (drop 1 [[0]; [1; 1]]%Z))
  /\ (length (grid0 (drop 1 [0; 1]%nat)) < count_pads (drop 1 [7; 151655; 151655]%Z))%nat
  /\ post_process_single grid0 4 1 [7; 151655; 151655]%Z [0; 1]%nat [[0]; [1; 1]]%Z
     = Raise IndexError.
Proof.
  assert (H1 : 4%Z <> 0%Z) by discriminate.
  assert (H2 : (1 < length [0; 1]%nat)%nat) by (simpl; lia).
  assert (H3 : drop 1 [[0]; [1; 1]]%Z <> []) by discriminate.
  assert (H4 : length (drop 1 [7; 151655; 151655]%Z)
               = length (mjoin (drop 1 [[0]; [1; 1]]%Z))) by reflexivity.
  assert (H5 : (length (grid0 (drop 1 [0; 1]%nat))
                < count_pads (drop 1 [7; 151655; 151655]%Z))%nat) by (vm_compute; lia).
  split; [exact H1|]. split; [exact H2|]. split; [exact H3|]. split; [exact H4|].
  split; [exact H5|].
  exact (post_process_single_index_error grid0 4 1 [7; 151655; 151655]%Z [0; 1]%nat
           [[0]; [1; 1]]%Z H1 H2 H3 H4 H5).
Defined.

End FurtherWitnesses.
